(** * ForkTrace: a shallow embedding of the fork replay engine

The development follows the layout of the JavaScript sources:

- [Js]            the few JavaScript primitives the code relies on
                  (truthiness, [||] defaults, decimal [toString] / [BigInt],
                  the case-insensitive regular expression test);
- [Constants]     [src/config/constants.js];
- [ErrorHandler]  [src/utils/error-handler.js];
- [Validators]    [src/utils/validators.js];
- [Etherscan]     [src/modules/etherscan-client.js];
- [Anvil]         [src/modules/anvil-manager.js];
- [Replayer]      [src/modules/transaction-replayer.js];
- [Diff]          [src/modules/state-diff.js];
- [Orchestrator]  [src/index.js].

Network peers, the child process and the chain provider are external:
they are modelled as scripted answers (oracles) and every call that
reaches them is recorded in an event log, so that statements about
"how many requests" or "which signal" are statements about that log. *)

From Stdlib Require Import ZArith Ascii String DecimalString DecimalPos DecimalZ.
From stdpp Require Import gmap strings list fin_maps sorting.

Local Open Scope Z_scope.

(* ===================================================================== *)
(** ** JavaScript primitives *)
(* ===================================================================== *)

Module Js.

(** A JavaScript string is falsy exactly when it is empty; [null] and
    [undefined] (here [None]) are falsy. *)
Definition truthy_string (s : string) : bool :=
  match s with EmptyString => false | String _ _ => true end.

Definition truthy (o : option string) : bool :=
  match o with Some s => truthy_string s | None => false end.

(** [o || dflt] on an optional string. *)
Definition or_default (o : option string) (dflt : string) : string :=
  match o with
  | Some s => if truthy_string s then s else dflt
  | None => dflt
  end.

(** [n.toString()] for an integer number or a bigint: decimal digits with a
    leading minus sign for negative values. *)
Definition toString (z : Z) : string :=
  NilZero.string_of_int (Z.to_int z).

(** [BigInt(s)] on a decimal literal with an optional minus sign; a string
    that is not such a literal raises a [SyntaxError] ([None]).  The
    hexadecimal, whitespace-padded and empty forms that JavaScript also
    accepts are never produced by [toString] and are left out. *)
Definition BigInt (s : string) : option Z :=
  option_map Z.of_int (NilZero.int_of_string s).

(** Case folding of the regular expression engine under the [i] flag
    without [u]: only code units below 128 can match an ASCII letter. *)
Definition fold_case (c : ascii) : ascii :=
  let n := nat_of_ascii c in
  if ((65 <=? n)%nat && (n <=? 90)%nat)%bool then ascii_of_nat (n + 32) else c.

Fixpoint starts_with_ci (pat s : string) : bool :=
  match pat, s with
  | EmptyString, _ => true
  | String _ _, EmptyString => false
  | String p pat', String c s' =>
      (Ascii.eqb (fold_case p) (fold_case c) && starts_with_ci pat' s')%bool
  end.

(** [/pat/i.test(s)] for a pattern made of literal characters only. *)
Fixpoint regex_test_ci (pat s : string) : bool :=
  (starts_with_ci pat s
   || match s with
      | EmptyString => false
      | String _ s' => regex_test_ci pat s'
      end)%bool.

(** [/^0x[a-fA-F0-9]{64}$/]-style character class. *)
Definition is_hex_digit (c : ascii) : bool :=
  let n := nat_of_ascii c in
  (((48 <=? n)%nat && (n <=? 57)%nat)
   || ((65 <=? n)%nat && (n <=? 70)%nat)
   || ((97 <=? n)%nat && (n <=? 102)%nat))%bool.

Fixpoint all_hex (s : string) : bool :=
  match s with
  | EmptyString => true
  | String c s' => (is_hex_digit c && all_hex s')%bool
  end.

End Js.

(* ===================================================================== *)
(** ** src/config/constants.js *)
(* ===================================================================== *)

Module Constants.
Definition ANVIL_DEFAULT_PORT : Z := 8545.
Definition ANVIL_START_TIMEOUT_MS : Z := 8000.
Definition ANVIL_KILL_TIMEOUT_MS : Z := 3000.
Definition ETHERSCAN_REQUEST_TIMEOUT : Z := 15000.
Definition ETHERSCAN_MAX_RETRIES : nat := 3.
Definition ETHERSCAN_RETRY_DELAY_MS : Z := 100.
End Constants.

(* ===================================================================== *)
(** ** Chain data shared by the modules *)
(* ===================================================================== *)

(** The fields of an ethers [TransactionReceipt] that the code reads. *)
Record Receipt := mkReceipt {
  r_status : option Z;            (* 1, 0, or null *)
  r_gasUsed : option Z;
  r_logs : option (list string);
  r_transactionHash : option string;
  r_hash : option string;
  r_blockNumber : Z
}.

(* ===================================================================== *)
(** ** src/utils/error-handler.js *)
(* ===================================================================== *)

Module ErrorHandler.

(** [ErrorTypes]: the tags are the strings themselves. *)
Definition VALIDATION_ERROR : string := "VALIDATION_ERROR".
Definition NETWORK_ERROR : string := "NETWORK_ERROR".
Definition ETHERSCAN_ERROR : string := "ETHERSCAN_ERROR".
Definition ANVIL_ERROR : string := "ANVIL_ERROR".
Definition REPLAY_ERROR : string := "REPLAY_ERROR".
Definition SYSTEM_ERROR : string := "SYSTEM_ERROR".

(** A thrown JavaScript error object, with the properties the code reads.
    [type] is only set on a [ForkTraceError]; [receipt], [reason] and
    [shortMessage] only on errors raised by the chain library. *)
Record JsError := mkError {
  type : option string;
  message : string;
  receipt : option Receipt;
  reason : option string;
  shortMessage : option string
}.

(** [new ForkTraceError(message, type)]. *)
Definition ForkTraceError (msg ty : string) : JsError :=
  {| type := Some ty; message := msg;
     receipt := None; reason := None; shortMessage := None |}.

(** [new Error(message)] / a [TypeError]: no [type] property. *)
Definition PlainError (msg : string) : JsError :=
  {| type := None; message := msg;
     receipt := None; reason := None; shortMessage := None |}.

Definition createValidationError (msg : string) := ForkTraceError msg VALIDATION_ERROR.
Definition createNetworkError (msg : string) := ForkTraceError msg NETWORK_ERROR.
Definition createEtherscanError (msg : string) := ForkTraceError msg ETHERSCAN_ERROR.
Definition createAnvilError (msg : string) := ForkTraceError msg ANVIL_ERROR.
Definition createReplayError (msg : string) := ForkTraceError msg REPLAY_ERROR.

(** [err.type === tag]. *)
Definition type_is (e : JsError) (tag : string) : bool :=
  match type e with
  | Some t => bool_decide (t = tag)
  | None => false
  end.

End ErrorHandler.
Export ErrorHandler.

(** A settled promise: the value an [await] yields, or the error it throws. *)
Inductive Promise (A : Type) :=
| Resolved (a : A)
| Rejected (e : JsError).
Arguments Resolved {A} _.
Arguments Rejected {A} _.

#[global] Instance promise_ret : MRet Promise := @Resolved.

#[global] Instance promise_bind : MBind Promise :=
  λ A B f p, match p with Resolved a => f a | Rejected e => Rejected e end.

(* ===================================================================== *)
(** ** src/utils/validators.js *)
(* ===================================================================== *)

Module Validators.

(** [/^0x[a-fA-F0-9]{64}$/.test(hash)]. *)
Definition validateTransactionHash (hash : string) : bool :=
  match hash with
  | String "0" (String "x" rest) =>
      ((String.length rest =? 64)%nat && Js.all_hex rest)%bool
  | _ => false
  end.

End Validators.

(* ===================================================================== *)
(** ** src/modules/etherscan-client.js *)
(* ===================================================================== *)

Module Etherscan.

(** The JSON envelope [{ result, error }] of the proxy API; [V] is the type
    of a non-null [result]. *)
Record RpcError := { rpc_message : option string }.

Record ProxyData (V : Type) := mkData {
  error : option RpcError;
  result : option V
}.
Arguments mkData {V} _ _.
Arguments error {V} _.
Arguments result {V} _.

(** What one [await this.axiosInstance.get('/', ...)] does: it rejects, or
    resolves with a status and a body. *)
Inductive AxiosOutcome (V : Type) :=
| AxiosRejects (e : JsError)
| AxiosResolves (status : Z) (data : ProxyData V).
Arguments AxiosRejects {V} _.
Arguments AxiosResolves {V} _ _.

(** Observable effects of [_proxyCall]: an answered request, a back-off. *)
Inductive Event :=
| Attempt
| Delay (ms : Z).

(** How the call ends.  [Awaiting]: the script of answers is used up while
    the call is suspended on its next request. *)
Inductive Outcome (V : Type) :=
| Returned (v : V)
| Threw (e : JsError)
| Awaiting.
Arguments Returned {V} _.
Arguments Threw {V} _.
Arguments Awaiting {V}.

Definition null_result_message (action : string) : string :=
  "Null result from Etherscan for action " +:+ action
    +:+ " (may be pending or not found)".

(** The body of the [try] block on one answer: the value returned, or the
    error thrown into the [catch]. *)
Definition attempt_once {V} (action : string) (r : AxiosOutcome V) : JsError + V :=
  match r with
  | AxiosRejects e => inl e
  | AxiosResolves status data =>
      if negb (status =? 200) then
        inl (createNetworkError ("HTTP " +:+ Js.toString status +:+ " from Etherscan"))
      else
        match error data with
        | Some er =>
            inl (createEtherscanError
                   ("RPC error: " +:+ Js.or_default (rpc_message er) "unknown"))
        | None =>
            match result data with
            | None => inl (createEtherscanError (null_result_message action))
            | Some v => inr v
            end
        end
  end.

(** The test that breaks out of the retry loop. *)
Definition non_retriable (err : JsError) : bool :=
  (type_is err VALIDATION_ERROR
   || (type_is err ETHERSCAN_ERROR
       && negb (Js.regex_test_ci "rate limit" (message err))))%bool.

(** [throw lastError || createEtherscanError('Exceeded maximum retries')]. *)
Definition out_of_retries {V} (lastError : option JsError) : Outcome V :=
  match lastError with
  | Some e => Threw e
  | None => Threw (createEtherscanError "Exceeded maximum retries")
  end.

Section Retry.
Context {V : Type}.
(** The two constants the loop reads. *)
Variable maxRetries : nat.
Variable retryDelay : Z.

Definition backoff (attempt : nat) : Z :=
  retryDelay * 2 ^ (Z.of_nat attempt - 1).

(** The [while (attempt < ETHERSCAN_MAX_RETRIES)] loop, run against the
    answers the service gives, in order. *)
Fixpoint retry_loop (action : string) (answers : list (AxiosOutcome V))
    (attempt : nat) (lastError : option JsError) : Outcome V * list Event :=
  if (attempt <? maxRetries)%nat then
    match answers with
    | [] => (Awaiting, [])
    | r :: answers' =>
        match attempt_once action r with
        | inr v => (Returned v, [Attempt])
        | inl err =>
            let attempt' := S attempt in
            if non_retriable err then
              (out_of_retries (Some err), [Attempt])
            else if (attempt' <? maxRetries)%nat then
              let '(o, evs) := retry_loop action answers' attempt' (Some err) in
              (o, Attempt :: Delay (backoff attempt') :: evs)
            else
              let '(o, evs) := retry_loop action answers' attempt' (Some err) in
              (o, Attempt :: evs)
        end
    end
  else (out_of_retries lastError, []).
End Retry.

(** [_proxyCall(action, params)]. *)
Definition _proxyCall {V} (action : string) (answers : list (AxiosOutcome V))
    : Outcome V * list Event :=
  retry_loop Constants.ETHERSCAN_MAX_RETRIES Constants.ETHERSCAN_RETRY_DELAY_MS
    action answers 0%nat None.

(** The public queries. *)
Definition getTransaction {V} := @_proxyCall V "eth_getTransactionByHash".
Definition getTransactionReceipt {V} := @_proxyCall V "eth_getTransactionReceipt".
Definition getBlock {V} := @_proxyCall V "eth_getBlockByNumber".

(** The actions the client ever passes to [_proxyCall]. *)
Definition proxy_actions : list string :=
  ["eth_getTransactionByHash"; "eth_getTransactionReceipt"; "eth_getBlockByNumber"].

(** Reading the log. *)
Fixpoint attempts (evs : list Event) : nat :=
  match evs with
  | [] => 0%nat
  | Attempt :: evs' => S (attempts evs')
  | Delay _ :: evs' => attempts evs'
  end.

Definition delays (evs : list Event) : list Z :=
  omap (λ e, match e with Delay ms => Some ms | Attempt => None end) evs.

(** The transient answers of the retry protocol: an HTTP status other than
    200, or an error envelope whose message names a rate limit.  A status
    other than 200 reaches the loop either in a resolved response or, for
    the statuses the HTTP client itself refuses, as a rejection with the
    client's own error object, which has no [type]. *)
Inductive retryable_failure {V} : AxiosOutcome V -> Prop :=
| http_failure status data :
    status <> 200 ->
    retryable_failure (AxiosResolves status data)
| http_rejection e :
    type e = None ->
    retryable_failure (AxiosRejects e)
| rate_limited msg res :
    Js.regex_test_ci "rate limit" msg = true ->
    retryable_failure
      (AxiosResolves 200 {| error := Some {| rpc_message := Some msg |}; result := res |}).



(** An answer whose error the loop retries. *)
Definition retried {V} (action : string) (r : AxiosOutcome V) : Prop :=
  exists e, attempt_once action r = inl e /\ non_retriable e = false.

(** Sample answers of the service. *)
Definition http_503 : AxiosOutcome Z :=
  AxiosResolves 503 {| error := None; result := None |}.

Definition rate_limit_answer : AxiosOutcome Z :=
  AxiosResolves 200
    {| error := Some {| rpc_message := Some "Max rate limit reached" |}; result := None |}.

Definition null_answer {V} : AxiosOutcome V :=
  AxiosResolves 200 {| error := None; result := None |}.

Definition valid_answer {V} (v : V) : AxiosOutcome V :=
  AxiosResolves 200 {| error := None; result := Some v |}.

End Etherscan.

(* ===================================================================== *)
(** ** src/modules/anvil-manager.js *)
(* ===================================================================== *)

Module Anvil.

Inductive Signal := SIGINT | SIGKILL.

(** The external process as the operating system sees it.  [Interrupted]:
    a SIGINT has been delivered; whether and when the process exits on it
    is up to the process. *)
Inductive ProcStatus := Running | Interrupted | Killed.

Record Process := mkProcess {
  p_args : list string;
  p_status : ProcStatus
}.

(** The world outside the manager: the process table (a pid is an index),
    the signals delivered so far (oldest first) and the clock. *)
Record OS := mkOS {
  procs : list Process;
  signals : list (nat * Signal);
  now : Z
}.

(** Node's [ChildProcess] handle.  [killed] is set by a successful
    [kill(signal)]: it says that a signal was delivered, not that the
    process has exited. *)
Record ChildProcess := mkChild {
  pid : nat;
  killed : bool
}.

(** The fields of [this].  The constructor creates [port], [proc] and
    [_killed]; [process] is the property that [start] reads and writes,
    absent ([None]) on a fresh object. *)
Record AnvilManager := mkManager {
  port : Z;
  proc : option ChildProcess;
  _killed : bool;
  process : option ChildProcess
}.

(** [new AnvilManager(port)]. *)
Definition new (port : Z) : AnvilManager :=
  {| port := port; proc := None; _killed := false; process := None |}.

(** [spawn('anvil', args, ...)]. *)
Definition spawn (args : list string) (os : OS) : ChildProcess * OS :=
  ({| pid := length (procs os); killed := false |},
   {| procs := procs os ++ [{| p_args := args; p_status := Running |}];
      signals := signals os;
      now := now os |}).

Definition after_signal (sig : Signal) : ProcStatus :=
  match sig with SIGINT => Interrupted | SIGKILL => Killed end.

(** [child.kill(signal)]: delivers the signal to a process that still
    exists and then sets [killed]; on a dead process it does nothing. *)
Definition child_kill (c : ChildProcess) (sig : Signal) (os : OS) : ChildProcess * OS :=
  match procs os !! pid c with
  | Some p =>
      match p_status p with
      | Killed => (c, os)
      | _ =>
          ({| pid := pid c; killed := true |},
           {| procs := <[pid c := {| p_args := p_args p; p_status := after_signal sig |}]> (procs os);
              signals := signals os ++ [(pid c, sig)];
              now := now os |})
      end
  | None => (c, os)
  end.

(** [await wait(ms)]. *)
Definition wait (ms : Z) (os : OS) : OS :=
  {| procs := procs os; signals := signals os; now := now os + ms |}.

(** [while (Date.now() < deadline && !this.proc.killed) await wait(100)]. *)
Fixpoint kill_wait (fuel : nat) (deadline : Z) (c : ChildProcess) (os : OS) : OS :=
  match fuel with
  | O => os
  | S fuel' =>
      if ((now os <? deadline) && negb (killed c))%bool
      then kill_wait fuel' deadline c (wait 100 os)
      else os
  end.

Definition with_proc (m : AnvilManager) (c : ChildProcess) (k : bool) : AnvilManager :=
  {| port := port m; proc := Some c; _killed := k; process := process m |}.

(** [kill(force = false)]. *)
Definition kill (m : AnvilManager) (os : OS) (force : bool) : AnvilManager * OS :=
  match proc m with
  | None => (m, os)
  | Some c =>
      if _killed m then (m, os)
      else
        let '(c1, os1) := child_kill c SIGINT os in
        if force then
          let '(c2, os2) := child_kill c1 SIGKILL os1 in
          (with_proc m c2 true, os2)
        else
          let deadline := now os1 + Constants.ANVIL_KILL_TIMEOUT_MS in
          let os2 :=
            kill_wait (Z.to_nat (Constants.ANVIL_KILL_TIMEOUT_MS / 100)) deadline c1 os1 in
          if negb (killed c1) then
            let '(c3, os3) := child_kill c1 SIGKILL os2 in
            (with_proc m c3 true, os3)
          else (with_proc m c1 true, os2)
  end.

(** [isRunning()]. *)
Definition isRunning (m : AnvilManager) : bool :=
  match proc m with
  | Some c => (negb (killed c) && negb (_killed m))%bool
  | None => false
  end.

(** One liveness probe: [response.ok], a response that is not ok, or a
    rejected [fetch]. *)
Inductive FetchOutcome := FetchOk | FetchNotOk | FetchRejects.

Definition maxAttempts : nat := 20.
Definition delayMs : Z := 500.

(** Where a call of [start] stands: suspended in iteration [i] of the probe
    loop, returned, or thrown. *)
Inductive StartState :=
| Probing (i : nat)
| StartReturned
| StartThrew (e : JsError).

Definition start_timeout_error (m : AnvilManager) : JsError :=
  createNetworkError
    ("Anvil did not respond on port " +:+ Js.toString (port m) +:+ " within "
       +:+ Js.toString (Z.of_nat maxAttempts * delayMs) +:+ "ms").

(** The loop test [i < maxAttempts], then either the next probe or the
    [throw] after the loop. *)
Definition loop_head (m : AnvilManager) (i : nat) : StartState :=
  if (i <? maxAttempts)%nat then Probing i else StartThrew (start_timeout_error m).

(** The manager, the world and the state of the one [start] call in flight. *)
Record Sys := mkSys {
  mgr : AnvilManager;
  os : OS;
  st : StartState
}.

(** [start(args)] up to its first suspension: the guard, the spawn and the
    entry into the probe loop. *)
Definition start_begin (m : AnvilManager) (args : list string) (w : OS) : JsError + Sys :=
  match process m with
  | Some _ => inl (PlainError "Anvil is already running")
  | None =>
      let '(c, w') := spawn args w in
      let m' := {| port := port m; proc := proc m; _killed := _killed m; process := Some c |} in
      inr {| mgr := m'; os := w'; st := loop_head m' 0 |}
  end.

(** One iteration of the probe loop, resumed with the outcome of its
    [fetch]. *)
Definition probe_iteration (s : Sys) (i : nat) (o : FetchOutcome) : Sys :=
  match o with
  | FetchOk => {| mgr := mgr s; os := os s; st := StartReturned |}
  | _ => {| mgr := mgr s; os := wait delayMs (os s); st := loop_head (mgr s) (S i) |}
  end.

(** What can happen at a suspension point of [start]: its pending probe is
    answered, or some other task calls [kill].  ([kill] runs here in one
    piece: its own waits only advance the clock.) *)
Inductive Action :=
| Fetch (o : FetchOutcome)
| CallKill (force : bool).

Definition step (s : Sys) (a : Action) : Sys :=
  match a with
  | Fetch o =>
      match st s with
      | Probing i => probe_iteration s i o
      | _ => s
      end
  | CallKill force =>
      let '(m', w') := kill (mgr s) (os s) force in
      {| mgr := m'; os := w'; st := st s |}
  end.

Definition run (s : Sys) (schedule : list Action) : Sys :=
  foldl step s schedule.

(** [await start(args)] with nothing interleaved. *)
Definition start (m : AnvilManager) (args : list string) (w : OS)
    (answers : list FetchOutcome) : JsError + Sys :=
  match start_begin m args w with
  | inl e => inl e
  | inr s => inr (run s (Fetch <$> answers))
  end.

Definition is_fetch (a : Action) : bool :=
  match a with Fetch _ => true | CallKill _ => false end.

Definition status_of (w : OS) (p : nat) : option ProcStatus :=
  p_status <$> procs w !! p.

(** The probe answers of a schedule, in order. *)
Definition fetches_of (schedule : list Action) : list FetchOutcome :=
  omap (λ a, match a with Fetch o => Some o | CallKill _ => None end) schedule.

(** A machine on which nothing has been spawned yet. *)
Definition idle : OS := {| procs := []; signals := []; now := 0 |}.

End Anvil.

(* ===================================================================== *)
(** ** src/modules/transaction-replayer.js *)
(* ===================================================================== *)

Module Replayer.

(** Values that occur as fields of a transaction request or of the parsed
    [--mod] JSON object. *)
Inductive JsVal :=
| VNull
| VBool (b : bool)
| VNum (z : Z)
| VStr (s : string)
| VBigInt (z : Z).

(** A JavaScript object used as a record of fields: property name to value. *)
Abbreviation JsObject := (gmap string JsVal).

(** What [provider.getTransaction] resolves to. *)
Record TransactionResponse := mkTx {
  tx_hash : string;
  tx_from : string;
  tx_nonce : Z;
  tx_to : option string;
  tx_value : Z;
  tx_data : string;
  tx_gasLimit : Z;
  tx_gasPrice : Z
}.

(** The chain side of a replay: the provider's view of the original
    transaction, the wallet's answer to a submission and the outcome of
    waiting for inclusion. *)
Record Chain := mkChain {
  getTransaction : string -> Promise (option TransactionResponse);
  sendTransaction : JsObject -> Promise string;
  wait_receipt : string -> Promise Receipt
}.

Record ReplayOutcome := mkOutcome {
  status : string;
  gasUsed : option string;
  logs : list string;
  transactionHash : option string;
  blockNumber : Z;
  revertReason : option string;
  error : option string
}.

Definition of_address (a : option string) : JsVal :=
  match a with Some s => VStr s | None => VNull end.

(** The five fields copied from [originalTx]. *)
Definition reconstructed (otx : TransactionResponse) : JsObject :=
  <["to" := of_address (tx_to otx)]>
    (<["value" := VBigInt (tx_value otx)]>
       (<["data" := VStr (tx_data otx)]>
          (<["gasLimit" := VBigInt (tx_gasLimit otx)]>
             (<["gasPrice" := VBigInt (tx_gasPrice otx)]> ∅)))).

(** [{ to, value, data, gasLimit, gasPrice, ...modifications }]: every own
    property of [modifications] is copied last and so wins. *)
Definition modifiedTx (otx : TransactionResponse) (modifications : JsObject) : JsObject :=
  modifications ∪ reconstructed otx.

(** The normalised receipt of the [try] block. *)
Definition from_receipt (r : Receipt) : ReplayOutcome :=
  {| status := if bool_decide (r_status r = Some 1) then "success" else "failed";
     gasUsed := Js.toString <$> r_gasUsed r;
     logs := default [] (r_logs r);
     transactionHash := r_transactionHash r;
     blockNumber := r_blockNumber r;
     revertReason :=
       if bool_decide (r_status r = Some 0) then Some "Transaction reverted" else None;
     error := None |}.

(** The [catch] block: a rejection that carries a receipt becomes a failed
    outcome, any other is thrown again. *)
Definition on_rejection (e : JsError) : Promise ReplayOutcome :=
  match receipt e with
  | Some r =>
      Resolved
        {| status := "failed";
           gasUsed := Js.toString <$> r_gasUsed r;
           logs := default [] (r_logs r);
           transactionHash := r_hash r;
           blockNumber := r_blockNumber r;
           revertReason := Some (Js.or_default (reason e) "Transaction execution reverted");
           error := shortMessage e |}
  | None => Rejected e
  end.

(** Reading [originalTx.to] when [getTransaction] resolved to [null]. *)
Definition null_tx_error : JsError :=
  PlainError "Cannot read properties of null (reading 'to')".

(** [replayTransaction(txHash, modifications)], together with the requests
    handed to [wallet.sendTransaction]. *)
Definition replayTransaction (c : Chain) (txHash : string) (modifications : JsObject)
    : Promise ReplayOutcome * list JsObject :=
  match getTransaction c txHash with
  | Rejected e => (on_rejection e, [])
  | Resolved None => (on_rejection null_tx_error, [])
  | Resolved (Some originalTx) =>
      let request := modifiedTx originalTx modifications in
      match sendTransaction c request with
      | Rejected e => (on_rejection e, [request])
      | Resolved txResponse =>
          match wait_receipt c txResponse with
          | Rejected e => (on_rejection e, [request])
          | Resolved r => (Resolved (from_receipt r), [request])
          end
      end
  end.

(** The first rejection met by the [try] block, if any: of the lookup of
    the original transaction (a lookup that finds nothing fails on reading
    a property of [null]), of the submission, or of the wait for
    inclusion. *)
Inductive rejection (c : Chain) (txHash : string) (modifications : JsObject) : JsError -> Prop :=
| rej_lookup e :
    getTransaction c txHash = Rejected e ->
    rejection c txHash modifications e
| rej_missing :
    getTransaction c txHash = Resolved None ->
    rejection c txHash modifications null_tx_error
| rej_submit otx e :
    getTransaction c txHash = Resolved (Some otx) ->
    sendTransaction c (modifiedTx otx modifications) = Rejected e ->
    rejection c txHash modifications e
| rej_wait otx h e :
    getTransaction c txHash = Resolved (Some otx) ->
    sendTransaction c (modifiedTx otx modifications) = Resolved h ->
    wait_receipt c h = Rejected e ->
    rejection c txHash modifications e.

(** A rejection at submission time: of [wallet.sendTransaction], or of the
    [wait()] that follows it. *)
Inductive submission_rejection (c : Chain) (txHash : string) (modifications : JsObject)
    : JsError -> Prop :=
| sub_send otx e :
    getTransaction c txHash = Resolved (Some otx) ->
    sendTransaction c (modifiedTx otx modifications) = Rejected e ->
    submission_rejection c txHash modifications e
| sub_wait otx h e :
    getTransaction c txHash = Resolved (Some otx) ->
    sendTransaction c (modifiedTx otx modifications) = Resolved h ->
    wait_receipt c h = Rejected e ->
    submission_rejection c txHash modifications e.

(** The request was submitted and [wait()] resolved with the receipt [r].
    (Whether [wait()] resolves or rejects for a transaction that was mined
    and reverted is up to the chain library.) *)
Definition wait_resolves (c : Chain) (txHash : string) (modifications : JsObject)
    (r : Receipt) : Prop :=
  exists otx h,
    getTransaction c txHash = Resolved (Some otx) /\
    sendTransaction c (modifiedTx otx modifications) = Resolved h /\
    wait_receipt c h = Resolved r.

(** Sample data: a plain transfer, a chain that includes every submission
    successfully, and one on which the replayed transaction reverts. *)
Definition sample_tx : TransactionResponse :=
  {| tx_hash := "0xabc"; tx_from := "0x1111"; tx_nonce := 5;
     tx_to := Some "0x2222"; tx_value := 1000; tx_data := "0x";
     tx_gasLimit := 21000; tx_gasPrice := 30 |}.

Definition receipt_with (st : Z) : Receipt :=
  {| r_status := Some st; r_gasUsed := Some 21000; r_logs := Some [];
     r_transactionHash := None; r_hash := Some "0xdef"; r_blockNumber := 100 |}.

Definition accepting_chain : Chain :=
  {| getTransaction := λ _, Resolved (Some sample_tx);
     sendTransaction := λ _, Resolved "0xdef";
     wait_receipt := λ _, Resolved (receipt_with 1) |}.

Definition reverting_chain : Chain :=
  {| getTransaction := λ _, Resolved (Some sample_tx);
     sendTransaction := λ _, Resolved "0xdef";
     wait_receipt := λ _, Resolved (receipt_with 0) |}.

(** A provider that does not know the transaction. *)
Definition unknown_chain : Chain :=
  {| getTransaction := λ _, Resolved None;
     sendTransaction := λ _, Resolved "0xdef";
     wait_receipt := λ _, Resolved (receipt_with 1) |}.

(** A chain on which the wait for the replayed transaction is rejected with
    an error that carries the receipt of the reverted transaction. *)
Definition revert_error : JsError :=
  {| type := None;
     message := "transaction execution reverted";
     receipt := Some (receipt_with 0);
     reason := None;
     shortMessage := Some "transaction execution reverted" |}.

Definition rejecting_chain : Chain :=
  {| getTransaction := λ _, Resolved (Some sample_tx);
     sendTransaction := λ _, Resolved "0xdef";
     wait_receipt := λ _, Rejected revert_error |}.

End Replayer.

(* ===================================================================== *)
(** ** src/modules/state-diff.js *)
(* ===================================================================== *)

Module Diff.

Inductive BlockTag :=
| TagName (s : string)
| TagNumber (n : Z).

(** The three provider queries a snapshot needs. *)
Record Provider := mkProvider {
  getBalance : string -> BlockTag -> Promise Z;
  getTransactionCount : string -> BlockTag -> Promise Z;
  getCode : string -> BlockTag -> Promise string
}.

Record AccountSnapshot := mkSnapshot {
  address : string;
  balance : string;
  nonce : Z;
  codeHash : string;
  codeSize : Z
}.

Record AccountDiff := mkDiff {
  before : AccountSnapshot;
  after : AccountSnapshot;
  balanceChange : Z;
  nonceChange : Z;
  codeChanged : bool
}.

(** [getBytes(code).length]: the argument must be [0x] followed by an even
    number of hexadecimal digits, otherwise [getBytes] throws. *)
Definition getBytes_length (code : string) : Promise Z :=
  match code with
  | String "0" (String "x" digits) =>
      if (Js.all_hex digits && Nat.even (String.length digits))%bool
      then Resolved (Z.of_nat (String.length digits) / 2)
      else Rejected (PlainError "invalid BytesLike value")
  | _ => Rejected (PlainError "invalid BytesLike value")
  end.

(** [BigInt(s)] inside an [async] function: a [SyntaxError] rejects. *)
Definition toBigInt (s : string) : Promise Z :=
  match Js.BigInt s with
  | Some z => Resolved z
  | None => Rejected (PlainError ("Cannot convert " +:+ s +:+ " to a BigInt"))
  end.

(** [obj[key].field] on a missing key is a [TypeError]. *)
Definition get_snapshot (m : gmap string AccountSnapshot) (addr : string)
    : Promise AccountSnapshot :=
  match m !! addr with
  | Some snap => Resolved snap
  | None => Rejected (PlainError "Cannot read properties of undefined")
  end.

(** [Object.fromEntries]: a later entry replaces an earlier one with the
    same key. *)
Definition fromEntries {A} (entries : list (string * A)) : gmap string A :=
  foldl (λ m kv, <[kv.1 := kv.2]> m) ∅ entries.

Section WithHash.
(** [keccak256] of the chain library. *)
Variable keccak256 : string -> string.

(** [#getAccountSnapshot(address, blockTag)]. *)
Definition getAccountSnapshot (p : Provider) (addr : string) (blockTag : BlockTag)
    : Promise AccountSnapshot :=
  bal ← getBalance p addr blockTag;
  n ← getTransactionCount p addr blockTag;
  code ← getCode p addr blockTag;
  size ← getBytes_length code;
  mret {| address := addr;
          balance := Js.toString bal;
          nonce := n;
          codeHash := if bool_decide (code = "0x") then "0x" else keccak256 code;
          codeSize := size |}.

(** [captureState(blockTag, addresses)]. *)
Definition captureState (p : Provider) (blockTag : BlockTag) (addresses : list string)
    : Promise (gmap string AccountSnapshot) :=
  snapshots ← mapM (λ addr, getAccountSnapshot p addr blockTag) addresses;
  mret (fromEntries ((λ snap, (address snap, snap)) <$> snapshots)).

(** The body of the [for (const addr of addresses)] loop. *)
Definition diff_entry (before after : gmap string AccountSnapshot) (addr : string)
    : Promise AccountDiff :=
  a ← get_snapshot after addr;
  b ← get_snapshot before addr;
  za ← toBigInt (balance a);
  zb ← toBigInt (balance b);
  mret {| before := b;
          after := a;
          balanceChange := za - zb;
          nonceChange := nonce a - nonce b;
          codeChanged := negb (bool_decide (codeHash a = codeHash b)) |}.

Fixpoint diff_loop (before after : gmap string AccountSnapshot)
    (addresses : list string) (result : gmap string AccountDiff)
    : Promise (gmap string AccountDiff) :=
  match addresses with
  | [] => mret result
  | addr :: rest =>
      d ← diff_entry before after addr;
      diff_loop before after rest (<[addr := d]> result)
  end.

(** [diff(fromBlockTag, toBlockTag, addresses)]. *)
Definition diff (p : Provider) (fromBlockTag toBlockTag : BlockTag)
    (addresses : list string) : Promise (gmap string AccountDiff) :=
  before ← captureState p fromBlockTag addresses;
  after ← captureState p toBlockTag addresses;
  diff_loop before after addresses ∅.

End WithHash.

(** The provider answers every snapshot query for [addr] at [tag] with
    well-formed data. *)
Definition answers_at (p : Provider) (addr : string) (tag : BlockTag) : Prop :=
  exists bal n code size,
    getBalance p addr tag = Resolved bal /\
    getTransactionCount p addr tag = Resolved n /\
    getCode p addr tag = Resolved code /\
    getBytes_length code = Resolved size.

(** A sample provider: every account holds 2^70 wei at block 99 and 5 wei
    at any other height, has nonce 3 and no code. *)
Definition sample_balance (tag : BlockTag) : Z :=
  match tag with
  | TagNumber 99 => 2 ^ 70
  | _ => 5
  end.

Definition sample_provider : Provider :=
  {| getBalance := λ _ tag, Resolved (sample_balance tag);
     getTransactionCount := λ _ _, Resolved 3;
     getCode := λ _ _, Resolved "0x" |}.

End Diff.

(* ===================================================================== *)
(** ** src/index.js *)
(* ===================================================================== *)

Module Orchestrator.

(** The two fields of the fetched transaction that the orchestrator reads;
    [e_to] is [null] for a contract creation. *)
Record EtherscanTx := mkEtherscanTx {
  e_from : option string;
  e_to : option string
}.

(** What [getTransactionData] resolves to. *)
Record TxData := mkTxData {
  transaction : EtherscanTx;
  blockNumber : Z
}.

Record Opts := mkOpts {
  txHash : string;
  anvilPort : option Z;
  modifications : option Replayer.JsObject;
  ai : bool;
  saveState : option string;
  export : option string
}.

Record AiAnalysis := mkAi {
  available : bool;
  analysis : string
}.

(** One entry of the diff map as handed to the exporter: the diff with its
    [balanceChange] also rendered as a string. *)
Record SerializedDiff := mkSerialized {
  changes : Diff.AccountDiff;
  balanceChangeString : string
}.

Record ExportData := mkExportData {
  x_txHash : string;
  x_replayResult : Replayer.ReplayOutcome;
  x_stateDiff : gmap string SerializedDiff;
  x_aiAnalysis : option AiAnalysis
}.

Record Summary := mkSummary {
  s_txHash : string;
  replayResult : Replayer.ReplayOutcome;
  stateDiff : gmap string Diff.AccountDiff;
  aiAnalysis : option AiAnalysis;
  exported : option (list (string * string))
}.

(** Everything outside [runForkTrace]: the collaborators it awaits. *)
Record World := mkWorld {
  getEtherscanApiKey : Promise string;
  getTransactionData : string -> string -> Promise TxData;
  forkUrl : string;
  anvil_start : Z -> list string -> Promise unit;
  getBlockNumber : Promise Z;
  chain : Replayer.Chain;
  provider : Diff.Provider;
  keccak256 : string -> string;
  analyzeTrace : Replayer.ReplayOutcome -> Promise AiAnalysis;
  save_state : string -> Promise unit;
  export_reports : ExportData -> list string -> Promise (list (string * string))
}.

(** The calls that leave the orchestrator, in order. *)
Inductive Event :=
| FetchTransaction (hash : string)
| AnvilStart (port : Z) (args : list string)
| Connect
| Replay (hash : string) (submitted : list Replayer.JsObject)
| StateDiff (fromTag toTag : Diff.BlockTag) (addresses : list string)
| Analyze
| SaveState (name : string)
| Export (formats : list string)
| AnvilKill.

(** An awaited computation together with the calls it made. *)
Definition Task (A : Type) : Type := (Promise A * list Event)%type.

Definition task_ret {A} (a : A) : Task A := (Resolved a, []).

Definition task_bind {A B} (f : A -> Task B) (t : Task A) : Task B :=
  match t.1 with
  | Resolved a => ((f a).1, t.2 ++ (f a).2)
  | Rejected e => (Rejected e, t.2)
  end.

#[global] Instance task_mret : MRet Task := @task_ret.

#[global] Instance task_mbind : MBind Task := @task_bind.

Definition await {A} (ev : Event) (p : Promise A) : Task A := (p, [ev]).

Definition lift {A} (p : Promise A) : Task A := (p, []).

(** [opts.anvilPort || 8545]. *)
Definition port_of (o : option Z) : Z :=
  match o with
  | Some p => if p =? 0 then 8545 else p
  | None => 8545
  end.

(** [[a, b].filter(Boolean)]. *)
Definition filter_Boolean (l : list (option string)) : list string :=
  omap (λ o, if Js.truthy o then o else None) l.

(** [s.split(',')]. *)
Fixpoint split_comma (s : string) : list string :=
  match s with
  | EmptyString => [EmptyString]
  | String c s' =>
      if Ascii.eqb c "," then EmptyString :: split_comma s'
      else
        match split_comma s' with
        | h :: t => String c h :: t
        | [] => [String c EmptyString]
        end
  end.

Definition start_args (url : string) (forkBlock port : Z) : list string :=
  ["--fork-url"; url;
   "--fork-block-number"; Js.toString forkBlock;
   "--port"; Js.toString port;
   "--host"; "127.0.0.1";
   "--accounts"; "10";
   "--balance"; "10000";
   "--hardfork"; "london"].

(** [replayer.startReplay(txHash)]. *)
Definition startReplay (w : World) : Promise unit :=
  match getBlockNumber w with
  | Resolved _ => Resolved ()
  | Rejected e => Rejected (PlainError ("Failed to connect to provider: " +:+ message e))
  end.

(** Step 6: a failing analysis is replaced by a fallback value. *)
Definition ai_step (w : World) (opts : Opts) (r : Replayer.ReplayOutcome)
    : Task (option AiAnalysis) :=
  if ai opts then
    match analyzeTrace w r with
    | Resolved a => (Resolved (Some a), [Analyze])
    | Rejected e =>
        (Resolved (Some {| available := false;
                           analysis := "AI analysis failed: " +:+ message e |}),
         [Analyze])
    end
  else mret None.

(** Step 7. *)
Definition save_step (w : World) (opts : Opts) : Task unit :=
  match saveState opts with
  | Some name =>
      if Js.truthy_string name then await (SaveState name) (save_state w name)
      else mret ()
  | None => mret ()
  end.

(** Step 8. *)
Definition export_step (w : World) (opts : Opts) (r : Replayer.ReplayOutcome)
    (stateChanges : gmap string Diff.AccountDiff) (a : option AiAnalysis)
    : Task (option (list (string * string))) :=
  match export opts with
  | Some formats =>
      if Js.truthy_string formats then
        let serialized :=
          (λ d, {| changes := d;
                   balanceChangeString := Js.toString (Diff.balanceChange d) |})
            <$> stateChanges in
        let data :=
          {| x_txHash := txHash opts; x_replayResult := r;
             x_stateDiff := serialized; x_aiAnalysis := a |} in
        x ← await (Export (split_comma formats))
              (export_reports w data (split_comma formats));
        mret (Some x)
      else mret None
  | None => mret None
  end.

(** Steps 2 to 9: everything that runs while [anvil] is set. *)
Definition with_fork (w : World) (opts : Opts) (txData : TxData) : Task Summary :=
  let forkBlock := blockNumber txData - 1 in
  let port := port_of (anvilPort opts) in
  _ ← await (AnvilStart port (start_args (forkUrl w) forkBlock port))
        (anvil_start w port (start_args (forkUrl w) forkBlock port));
  _ ← await Connect (startReplay w);
  let replay :=
    Replayer.replayTransaction (chain w) (txHash opts) (default ∅ (modifications opts)) in
  r ← await (Replay (txHash opts) replay.2) replay.1;
  let addresses :=
    filter_Boolean [e_from (transaction txData); e_to (transaction txData)] in
  stateChanges ←
    await (StateDiff (Diff.TagNumber forkBlock) (Diff.TagNumber (forkBlock + 1)) addresses)
      (Diff.diff (keccak256 w) (provider w)
         (Diff.TagNumber forkBlock) (Diff.TagNumber (forkBlock + 1)) addresses);
  a ← ai_step w opts r;
  _ ← save_step w opts;
  x ← export_step w opts r stateChanges a;
  _ ← await AnvilKill (Resolved ());
  mret {| s_txHash := txHash opts; replayResult := r; stateDiff := stateChanges;
          aiAnalysis := a; exported := x |}.

(** The [catch] block around a started fork: kill, then throw again. *)
Definition cleanup {A} (t : Task A) : Task A :=
  match t.1 with
  | Resolved _ => t
  | Rejected e => (Rejected e, t.2 ++ [AnvilKill])
  end.

(** [runForkTrace(opts)]. *)
Definition runForkTrace (w : World) (opts : Opts) : Task Summary :=
  if negb (Validators.validateTransactionHash (txHash opts)) then
    lift (Rejected (createReplayError ("Invalid transaction hash: " +:+ txHash opts)))
  else
    apiKey ← lift (getEtherscanApiKey w);
    txData ← await (FetchTransaction (txHash opts))
               (getTransactionData w apiKey (txHash opts));
    cleanup (with_fork w opts txData).

(** Sample runs: a transfer mined at block 100, and a contract creation. *)
Definition sample_hash : string :=
  "0xabcdef0123456789abcdef0123456789abcdef0123456789abcdef0123456789".

Definition sample_world (recipient : option string) : World :=
  {| getEtherscanApiKey := Resolved "ABCDEFGHIJKLMNOPQRSTUVWXYZ012345";
     getTransactionData := λ _ _,
       Resolved {| transaction := {| e_from := Some "0x1111"; e_to := recipient |};
                   blockNumber := 100 |};
     forkUrl := "http://127.0.0.1:9545";
     anvil_start := λ _ _, Resolved ();
     getBlockNumber := Resolved 99;
     chain := Replayer.accepting_chain;
     provider := Diff.sample_provider;
     keccak256 := id;
     analyzeTrace := λ _, Rejected (PlainError "connect ECONNREFUSED");
     save_state := λ _, Resolved ();
     export_reports := λ _ _, Resolved [] |}.

Definition sample_opts : Opts :=
  {| txHash := sample_hash; anvilPort := None; modifications := None;
     ai := false; saveState := None; export := None |}.

End Orchestrator.

(* ===================================================================== *)
(** ** Sample states of the fork process manager *)
(* ===================================================================== *)

Module AnvilSamples.
Import Anvil.

(** A machine with one process, in the given state. *)
Definition one_process (s : ProcStatus) : OS :=
  {| procs := [{| p_args := ["--port"; "8545"]; p_status := s |}];
     signals := [];
     now := 0 |}.

(** A manager whose [proc] holds the handle of that process. *)
Definition holding : AnvilManager :=
  {| port := 8545;
     proc := Some {| pid := 0; killed := false |};
     _killed := false;
     process := None |}.

End AnvilSamples.

(* ===================================================================== *)
(** ** The diff of one address, computed directly *)
(* ===================================================================== *)

Module DiffSpec.
Import Diff.

(** What [diff] is meant to hold for one address: its two snapshots and
    the differences of the provider's own answers, without the detour
    through the two snapshot maps and the decimal strings. *)
Definition direct_entry (keccak256 : string -> string) (p : Provider)
    (fromTag toTag : BlockTag) (addr : string) : Promise AccountDiff :=
  b ← getAccountSnapshot keccak256 p addr fromTag;
  a ← getAccountSnapshot keccak256 p addr toTag;
  balBefore ← getBalance p addr fromTag;
  balAfter ← getBalance p addr toTag;
  mret {| before := b;
          after := a;
          balanceChange := balAfter - balBefore;
          nonceChange := nonce a - nonce b;
          codeChanged := negb (bool_decide (codeHash a = codeHash b)) |}.

End DiffSpec.

(* ===================================================================== *)
(** ** Reading the orchestrator's log *)
(* ===================================================================== *)

Module OrchestratorSpec.
Import Orchestrator.

Definition is_kill (ev : Event) : bool :=
  match ev with AnvilKill => true | _ => false end.

Definition is_start (ev : Event) : bool :=
  match ev with AnvilStart _ _ => true | _ => false end.

(** How often [anvil.kill()] and [anvil.start()] were called. *)
Definition kills (evs : list Event) : nat := length (List.filter is_kill evs).
Definition starts (evs : list Event) : nat := length (List.filter is_start evs).

(** The calls of the three optional steps, as the options select them. *)
Definition ai_log (opts : Opts) : list Event :=
  if ai opts then [Analyze] else [].

Definition save_log (opts : Opts) : list Event :=
  match saveState opts with
  | Some name => if Js.truthy_string name then [SaveState name] else []
  | None => []
  end.

Definition export_log (opts : Opts) : list Event :=
  match export opts with
  | Some formats => if Js.truthy_string formats then [Export (split_comma formats)] else []
  | None => []
  end.

(** The calls of a run between the fetch and the final kill, in order. *)
Definition stages (w : World) (opts : Opts) (txData : TxData) : list Event :=
  let forkBlock := blockNumber txData - 1 in
  let port := port_of (anvilPort opts) in
  [AnvilStart port (start_args (forkUrl w) forkBlock port);
   Connect;
   Replay (txHash opts)
     (Replayer.replayTransaction (chain w) (txHash opts)
        (default ∅ (modifications opts))).2;
   StateDiff (Diff.TagNumber forkBlock) (Diff.TagNumber (forkBlock + 1))
     (filter_Boolean [e_from (transaction txData); e_to (transaction txData)])]
  ++ ai_log opts ++ save_log opts ++ export_log opts.

(** A task that, when it resolves, has made exactly the given calls and
    then killed the fork, and when it rejects has stopped somewhere among
    them. *)
Definition follows {A} (t : Task A) (calls : list Event) : Prop :=
  (forall a, t.1 = Resolved a -> t.2 = calls ++ [AnvilKill]) /\
  (forall e, t.1 = Rejected e -> t.2 `prefix_of` calls).

(** [pieces.join(',')]. *)
Fixpoint join_comma (pieces : list string) : string :=
  match pieces with
  | [] => EmptyString
  | [piece] => piece
  | piece :: rest => piece +:+ String "," (join_comma rest)
  end.

Fixpoint has_comma (s : string) : bool :=
  match s with
  | EmptyString => false
  | String c s' => (Ascii.eqb c "," || has_comma s')%bool
  end.

Fixpoint commas (s : string) : nat :=
  match s with
  | EmptyString => 0%nat
  | String c s' => ((if Ascii.eqb c "," then 1 else 0) + commas s')%nat
  end.

(** A world in which the fork never answers its probes. *)
Definition failing_start_world : World :=
  {| getEtherscanApiKey := getEtherscanApiKey (sample_world (Some "0x2222"));
     getTransactionData := getTransactionData (sample_world (Some "0x2222"));
     forkUrl := forkUrl (sample_world (Some "0x2222"));
     anvil_start := λ _ _,
       Rejected (createNetworkError "Anvil did not respond on port 8545 within 10000ms");
     getBlockNumber := getBlockNumber (sample_world (Some "0x2222"));
     chain := chain (sample_world (Some "0x2222"));
     provider := provider (sample_world (Some "0x2222"));
     keccak256 := keccak256 (sample_world (Some "0x2222"));
     analyzeTrace := analyzeTrace (sample_world (Some "0x2222"));
     save_state := save_state (sample_world (Some "0x2222"));
     export_reports := export_reports (sample_world (Some "0x2222")) |}.


Definition exporting_opts : Opts :=
  {| txHash := sample_hash; anvilPort := None; modifications := None;
     ai := false; saveState := None; export := Some "json,md" |}.

End OrchestratorSpec.

(* ===================================================================== *)
(** ** src/modules/etherscan-client.js: [getTransactionData] *)
(* ===================================================================== *)

Module EtherscanData.
Import Etherscan.

(** The requests of the three queries.  The first two queries run
    concurrently, so their requests interleave in an order that the code
    does not fix; the block query starts after both have returned. *)
Record Logs := mkLogs {
  tx_log : list Event;
  receipt_log : list Event;
  block_log : list Event
}.

Definition requests (l : Logs) : nat :=
  (attempts (tx_log l) + attempts (receipt_log l) + attempts (block_log l))%nat.

(** The object [getTransactionData] returns; [parseInt] may give [NaN],
    here [None]. *)
Record TransactionData (Tx Rc Bl : Type) := mkTransactionData {
  td_transaction : Tx;
  td_receipt : Rc;
  td_block : Bl;
  td_blockNumber : option Z
}.
Arguments mkTransactionData {Tx Rc Bl} _ _ _ _.
Arguments td_transaction {Tx Rc Bl} _.
Arguments td_receipt {Tx Rc Bl} _.
Arguments td_block {Tx Rc Bl} _.
Arguments td_blockNumber {Tx Rc Bl} _.

(** [await Promise.all([p, q])]: the pair of both values, or the rejection
    that settles first; while neither has rejected and one is pending, the
    combination is pending. *)
Definition promise_all {A B} (second_rejects_first : bool)
    (p : Outcome A) (q : Outcome B) : Outcome (A * B) :=
  match p, q with
  | Returned a, Returned b => Returned (a, b)
  | Threw e, Threw e' => Threw (if second_rejects_first then e' else e)
  | Threw e, _ => Threw e
  | _, Threw e' => Threw e'
  | _, _ => Awaiting
  end.

(** The [catch] block: an error with a truthy [type] is thrown again, any
    other is wrapped. *)
Definition rethrow_typed {A} (o : Outcome A) : Outcome A :=
  match o with
  | Threw e =>
      if Js.truthy (type e) then Threw e
      else Threw (createEtherscanError
                    ("Failed to fetch transaction data: " +:+ message e))
  | _ => o
  end.

Section GetTransactionData.
Context {Tx Rc Bl : Type}.
(** Truthiness of the non-null results, and the two readings of
    [transaction.blockNumber]: in a template string, and by
    [parseInt(_, 16)]. *)
Variable tx_truthy : Tx -> bool.
Variable rc_truthy : Rc -> bool.
Variable bl_truthy : Bl -> bool.
Variable blockNumber_text : Tx -> string.
Variable blockNumber_int : Tx -> option Z.

(** The [try] block, against the answers the service gives to each of the
    three queries. *)
Definition fetch_all (txHash : string) (receipt_rejects_first : bool)
    (txAnswers : list (AxiosOutcome Tx)) (rcAnswers : list (AxiosOutcome Rc))
    (blAnswers : list (AxiosOutcome Bl))
    : Outcome (TransactionData Tx Rc Bl) * Logs :=
  let t := getTransaction txAnswers in
  let r := getTransactionReceipt rcAnswers in
  let both := {| tx_log := t.2; receipt_log := r.2; block_log := [] |} in
  match promise_all receipt_rejects_first t.1 r.1 with
  | Returned (transaction, receipt) =>
      if negb (tx_truthy transaction) then
        (Threw (createEtherscanError ("Transaction " +:+ txHash +:+ " not found")), both)
      else if negb (rc_truthy receipt) then
        (Threw (createEtherscanError
                  ("Transaction receipt " +:+ txHash +:+ " not found")), both)
      else
        let b := getBlock blAnswers in
        (match b.1 with
         | Returned block =>
             if negb (bl_truthy block) then
               Threw (createEtherscanError
                        ("Block " +:+ blockNumber_text transaction +:+ " not found"))
             else
               Returned {| td_transaction := transaction;
                           td_receipt := receipt;
                           td_block := block;
                           td_blockNumber := blockNumber_int transaction |}
         | Threw e => Threw e
         | Awaiting => Awaiting
         end,
         {| tx_log := t.2; receipt_log := r.2; block_log := b.2 |})
  | Threw e => (Threw e, both)
  | Awaiting => (Awaiting, both)
  end.

(** [getTransactionData(txHash)]. *)
Definition getTransactionData (txHash : string) (receipt_rejects_first : bool)
    (txAnswers : list (AxiosOutcome Tx)) (rcAnswers : list (AxiosOutcome Rc))
    (blAnswers : list (AxiosOutcome Bl))
    : Outcome (TransactionData Tx Rc Bl) * Logs :=
  let run := fetch_all txHash receipt_rejects_first txAnswers rcAnswers blAnswers in
  (rethrow_typed run.1, run.2).

End GetTransactionData.

(** A sample: results are strings, the block number is read by a table. *)
Definition sample_blockNumber (tx : string) : option Z :=
  if bool_decide (tx = "tx@0x64") then Some 100 else None.

Definition sample_fetch :=
  getTransactionData Js.truthy_string Js.truthy_string Js.truthy_string
    (λ _, "0x64") sample_blockNumber.

End EtherscanData.

(* ===================================================================== *)
(** ** src/modules/state-manager.js *)
(* ===================================================================== *)

Module StateManager.

(** File names are cut, searched and rewritten one UTF-16 code unit at a
    time, so a string is the list of its code units here; [lit] embeds an
    ASCII literal. *)
Definition JsString := list N.

Definition lit (s : string) : JsString :=
  N_of_ascii <$> list_ascii_of_string s.

Fixpoint startsWith (s pat : JsString) {struct pat} : bool :=
  match pat, s with
  | [], _ => true
  | _ :: _, [] => false
  | p :: pat', c :: s' => ((p =? c)%N && startsWith s' pat')%bool
  end.

(** [s.includes(pat)]. *)
Fixpoint includes (s pat : JsString) : bool :=
  (startsWith s pat
   || match s with
      | [] => false
      | _ :: s' => includes s' pat
      end)%bool.

(** [s.endsWith(suffix)]. *)
Definition endsWith (s suffix : JsString) : bool :=
  ((length suffix <=? length s)%nat
   && startsWith (drop (length s - length suffix) s) suffix)%bool.

(** [s.replace(pat, '')] with a string pattern: the first occurrence goes. *)
Fixpoint remove_first (pat s : JsString) : JsString :=
  if startsWith s pat then drop (length pat) s
  else match s with
       | [] => []
       | c :: s' => c :: remove_first pat s'
       end.

(** The character class [a-zA-Z0-9-_]. *)
Definition name_unit (u : N) : bool :=
  ((97 <=? u) && (u <=? 122) || (65 <=? u) && (u <=? 90)
   || (48 <=? u) && (u <=? 57) || (u =? 45) || (u =? 95))%bool%N.

(** [checkpointName.replace(/[^a-zA-Z0-9-_]/g, '_')]. *)
Definition sanitize (checkpointName : JsString) : JsString :=
  (λ u, if name_unit u then u else 95%N) <$> checkpointName.

(** The file name [saveState] writes: [`${stateName}-${timestamp}.json`]. *)
Definition state_filename (stateName timestamp : JsString) : JsString :=
  stateName ++ lit "-" ++ timestamp ++ lit ".json".

(** The state name [createCheckpoint] passes to [saveState]. *)
Definition checkpoint_state (checkpointName : JsString) : JsString :=
  lit "checkpoint_" ++ sanitize checkpointName.

(** An entry of the state directory with what [fs.stat] says about it. *)
Record File := mkFile {
  f_name : JsString;
  f_size : Z;
  birthtime : Z;
  mtime : Z
}.

(** An element of the array [listStates] returns. *)
Record StateInfo := mkStateInfo {
  name : JsString;
  filepath : JsString;
  size : Z;
  created : Z;
  modified : Z
}.

(** [options.maxStates || 10], for an integer option. *)
Definition maxStates_of (option_maxStates : option Z) : Z :=
  match option_maxStates with
  | Some n => if n =? 0 then 10 else n
  | None => 10
  end.

(** [states.sort((a, b) => b.created - a.created)]: the sort is stable, so
    states created at the same time keep their order. *)
Fixpoint insert_newer (s : StateInfo) (sorted : list StateInfo) : list StateInfo :=
  match sorted with
  | [] => [s]
  | x :: rest =>
      if created x <=? created s then s :: x :: rest
      else x :: insert_newer s rest
  end.

Definition sort_newest_first (states : list StateInfo) : list StateInfo :=
  foldr insert_newer [] states.

(** Newest first: no state is older than one that follows it. *)
Definition newest_first (states : list StateInfo) : Prop :=
  StronglySorted (λ x y, created y <= created x) states.

(** [array.slice(n)] for an integer [n]; a negative [n] counts from the end. *)
Definition slice_from {A} (n : Z) (l : list A) : list A :=
  if n <? 0 then drop (Z.to_nat (Z.max (Z.of_nat (length l) + n) 0)) l
  else drop (Z.to_nat n) l.

Section Directory.
(** [this.stateDir], how the messages render a string, the reason for
    which [fs.unlink] fails on an existing file, if it does, and its error
    for a path that does not exist. *)
Variable stateDir : JsString.
Variable text : JsString -> string.
Variable unlink_error : JsString -> option JsError.
Variable missing_error : JsString -> JsError.

(** [path.join(this.stateDir, file)] for a directory entry. *)
Definition path_join (file : JsString) : JsString :=
  stateDir ++ lit "/" ++ file.

(** [_ensureStateDir()]: a missing directory is created empty. *)
Definition _ensureStateDir (fs : option (list File)) : list File :=
  default [] fs.

Definition state_of (f : File) : StateInfo :=
  {| name := remove_first (lit ".json") (f_name f);
     filepath := path_join (f_name f);
     size := f_size f;
     created := birthtime f;
     modified := mtime f |}.

(** [listStates()] on the entries [fs.readdir] reports, in its order. *)
Definition listStates (dir : list File) : list StateInfo :=
  sort_newest_first
    (state_of <$> filter (λ f, endsWith (f_name f) (lit ".json") = true) dir).

(** [fs.unlink(filepath)]. *)
Definition unlink (path : JsString) (dir : list File) : Promise (list File) :=
  if bool_decide (path ∈ (λ f, path_join (f_name f)) <$> dir) then
    match unlink_error path with
    | Some e => Rejected e
    | None => Resolved (filter (λ f, path_join (f_name f) ≠ path) dir)
    end
  else Rejected (missing_error path).

(** [deleteState(filepath)]. *)
Definition deleteState (path : JsString) (dir : list File) : Promise (list File) :=
  match unlink path dir with
  | Resolved dir' => Resolved dir'
  | Rejected e => Rejected (createReplayError ("Failed to delete state: " +:+ message e))
  end.

(** The [for (const state of statesToDelete)] loop; the directory is
    returned as the loop leaves it, also when a deletion fails. *)
Fixpoint delete_each (statesToDelete : list StateInfo) (dir : list File)
    : Promise unit * list File :=
  match statesToDelete with
  | [] => (Resolved (), dir)
  | state :: rest =>
      match deleteState (filepath state) dir with
      | Resolved dir' => delete_each rest dir'
      | Rejected e => (Rejected e, dir)
      end
  end.

(** [_cleanupOldStates()]. *)
Definition _cleanupOldStates (maxStates : Z) (fs : option (list File))
    : Promise unit * list File :=
  let dir := _ensureStateDir fs in
  let states := listStates dir in
  if Z.of_nat (length states) >? maxStates then
    delete_each (slice_from maxStates states) dir
  else (Resolved (), dir).

(** [restoreCheckpoint(checkpointName)] up to its call of [loadState]: the
    path handed to [loadState], or the error thrown. *)
Definition find_checkpoint (checkpointName : JsString) (fs : option (list File))
    : JsError + JsString :=
  let states := listStates (_ensureStateDir fs) in
  match List.find (λ state, includes (name state) (lit "checkpoint_" ++ checkpointName))
          states with
  | Some checkpoint => inr (filepath checkpoint)
  | None => inl (createReplayError ("Checkpoint not found: " +:+ text checkpointName))
  end.

End Directory.

(** The units of a time stamp [new Date().toISOString()] after
    [replace(/[:.]/g, '-')], for the years 0 to 9999: digits, [T], [Z]
    and [-]. *)
Definition timestamp_unit (u : N) : bool :=
  ((48 <=? u) && (u <=? 57) || (u =? 84) || (u =? 90) || (u =? 45))%bool%N.

(** A sample directory: three snapshots and a file that is none. *)
Definition sample_dir : list File :=
  [ {| f_name := lit "a-2024-01-01T00-00-00-000Z.json"; f_size := 10;
       birthtime := 100; mtime := 100 |};
    {| f_name := lit "notes.txt"; f_size := 1; birthtime := 50; mtime := 50 |};
    {| f_name := lit "b-2024-01-03T00-00-00-000Z.json"; f_size := 10;
       birthtime := 300; mtime := 300 |};
    {| f_name := lit "c-2024-01-02T00-00-00-000Z.json"; f_size := 10;
       birthtime := 200; mtime := 200 |} ].

(** The directory after [createCheckpoint('my checkpoint')]. *)
Definition checkpoint_dir : list File :=
  [ {| f_name := state_filename (checkpoint_state (lit "my checkpoint"))
                   (lit "2024-01-01T00-00-00-000Z");
       f_size := 10; birthtime := 100; mtime := 100 |} ].

End StateManager.

(* ===================================================================== *)
(** ** src/modules/exporter.js and the [--export] option of bin/fork-trace.js *)
(* ===================================================================== *)

Module Exporter.

(** What a written file holds; the builders of the contents are not
    modelled. *)
Inductive Report := JsonReport | MarkdownReport | RawTrace.

(** The calls of [fs.promises] that [export] makes. *)
Inductive FsOp :=
| Mkdir (dir : string)
| WriteFile (file : string) (content : Report).

(** A computation that awaits file-system calls: its result and the calls
    it made, in order. *)
Definition Fs (A : Type) : Type := Promise A * list FsOp.

Definition fs_ret {A} (a : A) : Fs A := (Resolved a, []).

Definition fs_bind {A B} (f : A -> Fs B) (m : Fs A) : Fs B :=
  match m.1 with
  | Resolved a => ((f a).1, m.2 ++ (f a).2)
  | Rejected e => (Rejected e, m.2)
  end.

#[global] Instance fs_mret : MRet Fs := @fs_ret.
#[global] Instance fs_mbind : MBind Fs := @fs_bind.

(** The parser of the [--export] option: [None] is [process.exit(1)]. *)
Definition valid_formats : list string := ["json"; "md"; "trace"; "all"].

Definition parse_export (value : string) : option string :=
  let formats := Orchestrator.split_comma value in
  let invalid := filter (λ f, f ∉ valid_formats) formats in
  if (0 <? length invalid)%nat then None else Some value.

(** [formats.includes(format) || formats.includes('all')]. *)
Definition wants (formats : list string) (format : string) : bool :=
  (bool_decide (format ∈ formats) || bool_decide ("all" ∈ formats))%bool.

Section Reports.
(** [path.resolve], [path.join], and the reason for which a file-system
    call fails, if it does. *)
Variable resolve : string -> string -> string.
Variable join : string -> string -> string.
Variable fs_error : FsOp -> option JsError.

Definition call (op : FsOp) : Fs unit :=
  match fs_error op with
  | Some e => (Rejected e, [op])
  | None => (Resolved (), [op])
  end.

(** One of the three [if] blocks: the file is written and recorded in
    [outputs]. *)
Definition write_report (wanted : bool) (exportPath key file : string)
    (content : Report) (outputs : list (string * string)) : Fs (list (string * string)) :=
  if wanted then
    _ ← call (WriteFile (join exportPath file) content);
    mret (outputs ++ [(key, join exportPath file)])
  else mret outputs.

(** [export(data, options)]; of [data] the hash and the presence of a trace
    decide what is done, [None] is an option that is not given. *)
Definition export (baseDir txHash : string) (trace : bool)
    (option_formats : option (list string)) (option_outputDir : option string)
    : Fs (list (string * string)) :=
  let formats := default ["json"] option_formats in
  let outputDir := default baseDir option_outputDir in
  if negb (Js.truthy_string txHash) then
    (Rejected (createReplayError "Transaction hash required for export"), [])
  else
    let exportPath := resolve outputDir txHash in
    _ ← call (Mkdir exportPath);
    outputs ← write_report (wants formats "json") exportPath "json" "report.json"
                JsonReport [];
    outputs ← write_report (wants formats "md") exportPath "md" "report.md"
                MarkdownReport outputs;
    outputs ← write_report (trace && wants formats "trace") exportPath "trace"
                "trace.raw.json" RawTrace outputs;
    mret outputs.

End Reports.

(** Sample paths: joined with a slash. *)
Definition slash (a b : string) : string := a +:+ "/" +:+ b.

End Exporter.

(* ===================================================================== *)
(** * Properties *)
(* ===================================================================== *)

(** ** JavaScript primitives *)

Module JsFacts.
Import Js.

Lemma regex_test_ci_app (pat pre s : string) :
  regex_test_ci pat s = true -> regex_test_ci pat (pre +:+ s) = true.
Proof.
  intros Hs. induction pre as [|c pre IH]; simpl; [exact Hs|].
  rewrite IH. apply orb_true_r.
Qed.

Lemma regex_test_ci_nonempty (pat s : string) :
  pat <> EmptyString -> regex_test_ci pat s = true -> truthy_string s = true.
Proof.
  intros Hpat. destruct s as [|c s]; simpl; [|reflexivity].
  destruct pat; [congruence|]. simpl. discriminate.
Qed.

(** [BigInt(z.toString())] gives [z] back. *)
Lemma BigInt_toString (z : Z) : BigInt (toString z) = Some z.
Proof.
  unfold BigInt, toString.
  rewrite NilZero.isi.
  - simpl. f_equal. apply DecimalZ.of_to.
  - destruct z; simpl; try discriminate.
    intros [= H]. revert H. apply DecimalPos.Unsigned.to_uint_nonnil.
  - destruct z; simpl; try discriminate.
    intros [= H]. revert H. apply DecimalPos.Unsigned.to_uint_nonnil.
Qed.

End JsFacts.

(** ** The indexing client *)

Module EtherscanFacts.
Import Etherscan.

Lemma retryable_failure_retried {V} (action : string) (r : AxiosOutcome V) :
  retryable_failure r -> retried action r.
Proof.
  intros [status data Hst | e He | msg res Hmsg]; unfold retried, attempt_once.
  - assert ((status =? 200) = false) as -> by (apply Z.eqb_neq; exact Hst).
    simpl. eexists; split; [reflexivity|]. reflexivity.
  - exists e. split; [reflexivity|].
    unfold non_retriable, type_is. rewrite He. reflexivity.
  - simpl. eexists; split; [reflexivity|].
    unfold non_retriable. simpl.
    assert (Js.truthy_string msg = true) as Hne
      by (eapply JsFacts.regex_test_ci_nonempty; [|exact Hmsg]; discriminate).
    rewrite Hne.
    change (negb (Js.regex_test_ci "rate limit" ("RPC error: " +:+ msg)) = false).
    rewrite JsFacts.regex_test_ci_app by exact Hmsg. reflexivity.
Qed.

Section RetryFacts.
Context {V : Type}.
Variable maxRetries : nat.
Variable retryDelay : Z.
Variable action : string.

Lemma retry_loop_exhausted answers attempt lastError :
  (maxRetries <= attempt)%nat ->
  retry_loop maxRetries retryDelay action answers attempt lastError =
    (@out_of_retries V lastError, []).
Proof.
  intros Hle.
  destruct answers; simpl;
    (destruct (Nat.ltb_spec attempt maxRetries); [lia|reflexivity]).
Qed.



End RetryFacts.


(** Transient failures followed by a valid result: the result is returned
    after one back-off per failure. *)
Lemma retry_loop_then_success {V} (maxRetries : nat) (retryDelay : Z) (action : string)
    (fails : list (AxiosOutcome V)) (ok : AxiosOutcome V) (v : V) (rest : list (AxiosOutcome V)) :
  Forall (retried action) fails ->
  attempt_once action ok = inr v ->
  forall attempt lastError,
    (attempt + length fails < maxRetries)%nat ->
    retry_loop maxRetries retryDelay action (fails ++ ok :: rest) attempt lastError =
      (Returned v,
       flat_map (λ i, [Attempt; Delay (backoff retryDelay i)])
         (seq (S attempt) (length fails)) ++ [Attempt]).
Proof.
  intros Hf Hok. induction Hf as [|a fails [e [Ha He]] _ IH]; intros attempt lastError Hlt.
  - simpl in *. destruct (Nat.ltb_spec attempt maxRetries); [|lia].
    rewrite Hok. reflexivity.
  - cbn [length] in Hlt. cbn [app retry_loop].
    destruct (Nat.ltb_spec attempt maxRetries); [|lia].
    rewrite Ha, He.
    destruct (Nat.ltb_spec (S attempt) maxRetries); [|lia].
    rewrite IH by lia. reflexivity.
Qed.



(** The [break]: an error that is not retried ends the call on the spot. *)
Lemma proxyCall_breaks {V} (action : string) (r : AxiosOutcome V)
    (rest : list (AxiosOutcome V)) (e : JsError) :
  attempt_once action r = inl e ->
  non_retriable e = true ->
  _proxyCall action (r :: rest) = (Threw e, [Attempt]).
Proof.
  intros Hr Hnr. unfold _proxyCall. cbn [retry_loop]. simpl Nat.ltb. cbv iota.
  rewrite Hr, Hnr. reflexivity.
Qed.

(** C7.  When an attempt fails with a validation error, or with an
    ETHERSCAN_ERROR whose message is not a rate-limit message,
    [_proxyCall] throws that error at once: the log holds this one attempt,
    no back-off, and none of the later answers is requested. *)
Theorem proxyCall_non_retryable_failure {V} (action : string)
    (r : AxiosOutcome V) (rest : list (AxiosOutcome V)) (e : JsError) :
  attempt_once action r = inl e ->
  type e = Some VALIDATION_ERROR \/
  (type e = Some ETHERSCAN_ERROR /\ Js.regex_test_ci "rate limit" (message e) = false) ->
  let run := _proxyCall action (r :: rest) in
  run.1 = Threw e /\ run.2 = [Attempt] /\
  attempts run.2 = 1%nat /\ delays run.2 = [].
Proof.
  intros Hr Hkind run.
  assert (non_retriable e = true) as Hnr.
  { unfold non_retriable, type_is.
    destruct Hkind as [-> | [-> ->]]; reflexivity. }
  subst run. rewrite (proxyCall_breaks action r rest e Hr Hnr).
  repeat split.
Qed.

Lemma proxyCall_non_retryable_failure_witness :
  let r : AxiosOutcome Z :=
    AxiosResolves 200
      {| error := Some {| rpc_message := Some "invalid argument" |}; result := None |} in
  let e := createEtherscanError "RPC error: invalid argument" in
  let run := _proxyCall "eth_getTransactionByHash" [r; valid_answer 7] in
  attempt_once "eth_getTransactionByHash" r = inl e /\
  (type e = Some ETHERSCAN_ERROR /\ Js.regex_test_ci "rate limit" (message e) = false) /\
  run.1 = Threw e /\ run.2 = [Attempt].
Proof.
  split; [reflexivity|]. split; [split; reflexivity|].
  destruct (proxyCall_non_retryable_failure "eth_getTransactionByHash"
              (AxiosResolves 200
                 {| error := Some {| rpc_message := Some "invalid argument" |};
                    result := None |})
              [valid_answer 7%Z]
              (createEtherscanError "RPC error: invalid argument")
              eq_refl (or_intror (conj eq_refl eq_refl)))
    as (H1 & H2 & _).
  split; [exact H1 | exact H2].
Defined.

(** The null-result message of the three queries names no rate limit. *)
Lemma null_result_is_permanent (action : string) :
  action ∈ proxy_actions ->
  non_retriable (createEtherscanError (null_result_message action)) = true.
Proof.
  unfold proxy_actions. intros Hin.
  repeat (apply elem_of_cons in Hin as [->|Hin]; [reflexivity|]).
  inversion Hin.
Qed.

(** C3, as the code has it.  A null result after a successful HTTP response
    is an ETHERSCAN_ERROR whose message names no rate limit, hence not
    retried: each of the three queries throws the null-result error after
    one attempt and without back-off, whatever the service would have
    answered next. *)
Theorem null_result_not_retried {V} (action : string) (rest : list (AxiosOutcome V)) :
  action ∈ proxy_actions ->
  let e := createEtherscanError (null_result_message action) in
  let run := _proxyCall action (null_answer :: rest) in
  attempt_once action (@null_answer V) = inl e /\
  type e = Some ETHERSCAN_ERROR /\
  Js.regex_test_ci "rate limit" (message e) = false /\
  run.1 = Threw e /\
  attempts run.2 = 1%nat /\
  delays run.2 = [].
Proof.
  intros Hin e run.
  pose proof (null_result_is_permanent action Hin) as Hnr.
  assert (attempt_once action (@null_answer V) = inl e) as Hr by reflexivity.
  subst run. rewrite (proxyCall_breaks action null_answer rest e Hr Hnr).
  split; [exact Hr|]. split; [reflexivity|]. split.
  - unfold non_retriable, type_is in Hnr. simpl in Hnr.
    apply negb_true_iff in Hnr. exact Hnr.
  - repeat split.
Qed.

Lemma null_result_not_retried_witness :
  let run := getTransaction [null_answer; null_answer; valid_answer 7] in
  "eth_getTransactionByHash" ∈ proxy_actions /\
  run.1 = Threw (createEtherscanError (null_result_message "eth_getTransactionByHash")) /\
  attempts run.2 = 1%nat /\
  delays run.2 = [].
Proof.
  assert ("eth_getTransactionByHash" ∈ proxy_actions) as Hin by left.
  split; [exact Hin|].
  destruct (null_result_not_retried "eth_getTransactionByHash"
              [null_answer; valid_answer 7] Hin)
    as (_ & _ & _ & Hout & Hatt & Hdel).
  repeat split; assumption.
Defined.

(** C3, as stated, fails: null, null, then a valid result does not return
    the valid result after two back-offs. *)
Lemma null_null_valid_not_returned :
  let run := getTransaction [null_answer; null_answer; valid_answer 7] in
  ~ (run.1 = Returned 7 /\ length (delays run.2) = 2%nat).
Proof. intros run [H _]. discriminate H. Qed.

(** The scenario does hold for failures that are retried: two of them and
    then a valid result give the result after the back-offs 100 and 200. *)
Lemma two_transient_then_valid {V} (action : string) (a b : AxiosOutcome V) (v : V) :
  retryable_failure a -> retryable_failure b ->
  _proxyCall action [a; b; valid_answer v] =
    (Returned v, [Attempt; Delay 100; Attempt; Delay 200; Attempt]).
Proof.
  intros Ha Hb. unfold _proxyCall.
  rewrite (retry_loop_then_success _ _ action [a; b] (valid_answer v) v []);
    [ reflexivity
    | repeat constructor; apply retryable_failure_retried; assumption
    | reflexivity
    | simpl; unfold Constants.ETHERSCAN_MAX_RETRIES; lia ].
Qed.

End EtherscanFacts.

(** ** The fork process manager *)

Module AnvilFacts.
Import Anvil.

(** [kill] without a handle in [proc] returns at its first test. *)
Lemma kill_without_handle m w force :
  proc m = None -> kill m w force = (m, w).
Proof. intros H. unfold kill. rewrite H. reflexivity. Qed.

Lemma step_keeps_no_handle s a :
  proc (mgr s) = None ->
  proc (mgr (step s a)) = None /\
  process (mgr (step s a)) = process (mgr s) /\
  procs (os (step s a)) = procs (os s) /\
  signals (os (step s a)) = signals (os s).
Proof.
  intros H. destruct a as [o|force]; simpl.
  - destruct (st s); [destruct o|..]; simpl; auto.
  - rewrite kill_without_handle by exact H. simpl. auto.
Qed.

(** Nothing that happens during [start] ever stores a handle in [proc], so
    the process table and the signal log stay as the spawn left them. *)
Lemma run_keeps_no_handle schedule : forall s,
  proc (mgr s) = None ->
  proc (mgr (run s schedule)) = None /\
  process (mgr (run s schedule)) = process (mgr s) /\
  procs (os (run s schedule)) = procs (os s) /\
  signals (os (run s schedule)) = signals (os s).
Proof.
  induction schedule as [|a schedule IH]; intros s H; simpl; [auto|].
  destruct (step_keeps_no_handle s a H) as (H1 & H2 & H3 & H4).
  destruct (IH (step s a) H1) as (I1 & I2 & I3 & I4).
  repeat split; congruence.
Qed.

(** The wait loop of [kill] ends by its own test, not by lack of fuel. *)
Lemma kill_wait_ends fuel : forall deadline c w,
  deadline <= now w + 100 * Z.of_nat fuel ->
  let w' := kill_wait fuel deadline c w in
  ((now w' <? deadline) && negb (killed c))%bool = false.
Proof.
  induction fuel as [|fuel IH]; intros deadline c w Hd; simpl.
  - apply andb_false_iff. left. apply Z.ltb_ge. lia.
  - destruct ((now w <? deadline) && negb (killed c))%bool eqn:E; [|exact E].
    apply IH. simpl. lia.
Qed.

(** C1, what the code does.  [start] keeps the handle of the spawned process
    in [this.process], [kill] looks for it in [this.proc]: for every port,
    argument list, machine state, interleaving of probe answers and kill
    calls after the spawn, and either value of [force], a call of [kill]
    returns without any effect.  No signal is sent and the spawned process
    is still running. *)
Theorem kill_after_start_sends_no_signal (port : Z) (args : list string) (w : OS)
    (schedule : list Action) (force : bool) :
  exists s0,
    start_begin (new port) args w = inr s0 /\
    let s := run s0 schedule in
    let child := length (procs w) in
    process (mgr s) = Some {| pid := child; killed := false |} /\
    kill (mgr s) (os s) force = (mgr s, os s) /\
    signals (os s) = signals w /\
    status_of (os s) child = Some Running /\
    isRunning (mgr s) = false.
Proof.
  eexists. split; [reflexivity|]. cbv zeta.
  match goal with |- context [run ?s0 _] =>
    destruct (run_keeps_no_handle schedule s0 eq_refl) as (H1 & H2 & H3 & H4)
  end.
  repeat split.
  - rewrite H2. reflexivity.
  - apply kill_without_handle. exact H1.
  - rewrite H4. reflexivity.
  - unfold status_of. rewrite H3. simpl.
    rewrite lookup_app_r by reflexivity. rewrite Nat.sub_diag. reflexivity.
  - unfold isRunning. rewrite H1. reflexivity.
Qed.

(** The orchestrator's own sequence on a concrete machine: construct,
    start, first probe answered, kill. *)
Example kill_after_start_example :
  match start (new 8545) ["--port"; "8545"] idle [FetchOk] with
  | inr s =>
      st s = StartReturned /\
      kill (mgr s) (os s) false = (mgr s, os s) /\
      signals (os s) = [] /\
      status_of (os s) 0 = Some Running
  | inl _ => False
  end.
Proof. repeat split. Qed.

(** Had the handle been in [proc], a graceful [kill] would still stop after
    the SIGINT: the handle's [killed] flag is set by the delivery itself, so
    the wait loop and the escalation are both skipped. *)
Lemma kill_graceful_never_escalates m w c p :
  proc m = Some c -> _killed m = false ->
  procs w !! pid c = Some p -> p_status p = Running ->
  let r := kill m w false in
  signals r.2 = signals w ++ [(pid c, SIGINT)] /\
  status_of r.2 (pid c) = Some Interrupted.
Proof.
  intros Hc Hk Hp Hs.
  assert (forall fuel deadline c' w', killed c' = true ->
            kill_wait fuel deadline c' w' = w') as Hw.
  { intros [|fuel] deadline c' w' Hc'; simpl; [reflexivity|].
    rewrite Hc', andb_false_r. reflexivity. }
  assert (kill m w false =
          (with_proc m {| pid := pid c; killed := true |} true,
           {| procs := <[pid c := {| p_args := p_args p; p_status := Interrupted |}]> (procs w);
              signals := signals w ++ [(pid c, SIGINT)];
              now := now w |})) as ->.
  { unfold kill. rewrite Hc, Hk. unfold child_kill at 1. rewrite Hp, Hs.
    cbv zeta. cbn [killed negb]. rewrite Hw by reflexivity. reflexivity. }
  cbv zeta. cbn [snd signals]. split; [reflexivity|].
  unfold status_of. cbn [procs]. rewrite list_lookup_insert_eq; [reflexivity|].
  eapply lookup_lt_Some. exact Hp.
Qed.

(** The probe loop as a function of its answers alone. *)
Lemma probing_returns answers : forall s i,
  st s = Probing i -> (i < maxAttempts)%nat ->
  st (run s (Fetch <$> answers)) = StartReturned <->
  exists k, (k < maxAttempts - i)%nat /\ answers !! k = Some FetchOk.
Proof.
  assert (forall acts s, st s <> StartReturned -> (forall i, st s <> Probing i) ->
            st (run s (Fetch <$> acts)) <> StartReturned) as Hstuck.
  { induction acts as [|a acts IH]; intros s H1 H2; simpl; [exact H1|].
    apply IH; destruct (st s) eqn:E; simpl; try congruence.
    all: exfalso; eapply H2; reflexivity. }
  induction answers as [|o answers IH]; intros s i Hs Hi.
  - simpl. rewrite Hs. split; [discriminate|].
    intros (k & _ & Hk). discriminate.
  - cbn [fmap list_fmap run foldl]. fold (run (step s (Fetch o)) (Fetch <$> answers)).
    assert (o = FetchOk \/ o <> FetchOk) as [->|Hne] by (destruct o; auto; right; discriminate).
    + split.
      * intros _. exists 0%nat. split; [lia|reflexivity].
      * intros _. simpl. rewrite Hs. simpl.
        clear. induction answers as [|a answers IH]; [reflexivity|].
        simpl. apply IH.
    + assert (step s (Fetch o) =
              {| mgr := mgr s; os := wait delayMs (os s); st := loop_head (mgr s) (S i) |})
        as Hstep by (unfold step; rewrite Hs; destruct o; [congruence|reflexivity..]).
      rewrite Hstep. unfold loop_head.
      destruct (Nat.ltb_spec (S i) maxAttempts) as [Hlt|Hge].
      * etransitivity; [apply (IH _ (S i)); [reflexivity|exact Hlt]|]. split.
        -- intros (k & Hk & Hok). exists (S k). split; [lia|exact Hok].
        -- intros ([|k] & Hk & Hok); [simpl in Hok; congruence|].
           exists k. split; [lia|exact Hok].
      * split.
        -- intros H. exfalso. revert H. apply Hstuck; simpl; congruence.
        -- intros ([|k] & Hk & Hok); [simpl in Hok; congruence|lia].
Qed.

Lemma kill_port m w force : port (kill m w force).1 = port m.
Proof.
  unfold kill. destruct (proc m) as [c|]; [|reflexivity].
  destruct (_killed m); [reflexivity|].
  destruct (child_kill c SIGINT w) as [c1 w1].
  destruct force.
  - destruct (child_kill c1 SIGKILL w1). reflexivity.
  - destruct (negb (killed c1)); [|reflexivity].
    destruct (child_kill c1 SIGKILL _). reflexivity.
Qed.

Lemma loop_head_port m m' i : port m = port m' -> loop_head m i = loop_head m' i.
Proof. unfold loop_head, start_timeout_error. intros ->. reflexivity. Qed.

Lemma step_fetch_congr s s' o :
  st s = st s' -> port (mgr s) = port (mgr s') ->
  st (step s (Fetch o)) = st (step s' (Fetch o)) /\
  port (mgr (step s (Fetch o))) = port (mgr (step s' (Fetch o))).
Proof.
  intros H1 H2. unfold step. rewrite <- H1.
  destruct (st s) eqn:E; [|split; congruence..].
  destruct o; cbn [probe_iteration st mgr]; split; auto using loop_head_port.
Qed.

Lemma run_fetch_congr answers : forall s s',
  st s = st s' -> port (mgr s) = port (mgr s') ->
  st (run s (Fetch <$> answers)) = st (run s' (Fetch <$> answers)).
Proof.
  induction answers as [|o answers IH]; intros s s' H1 H2; [exact H1|].
  cbn [fmap list_fmap run foldl].
  destruct (step_fetch_congr s s' o H1 H2) as [H3 H4].
  apply IH; assumption.
Qed.

(** Kill calls leave the state of the [start] call untouched. *)
Lemma run_ignores_kill schedule : forall s,
  st (run s schedule) = st (run s (Fetch <$> fetches_of schedule)).
Proof.
  induction schedule as [|a schedule IH]; intros s; [reflexivity|].
  destruct a as [o|force].
  - cbn [run foldl fetches_of omap fmap list_fmap]. apply IH.
  - cbn [run foldl fetches_of omap]. etransitivity; [apply IH|].
    apply run_fetch_congr; unfold step.
    + destruct (kill (mgr s) (os s) force). reflexivity.
    + pose proof (kill_port (mgr s) (os s) force) as Hp.
      destruct (kill (mgr s) (os s) force). exact Hp.
Qed.

(** Once [start] has returned or thrown, further probe answers change
    nothing. *)
Lemma run_settled answers : forall s,
  (forall i, st s <> Probing i) -> st (run s (Fetch <$> answers)) = st s.
Proof.
  induction answers as [|o answers IH]; intros s H; [reflexivity|].
  change (run s (Fetch <$> o :: answers))
    with (run (step s (Fetch o)) (Fetch <$> answers)).
  assert (step s (Fetch o) = s) as ->; [|apply IH, H].
  unfold step. destruct (st s) eqn:E; [|reflexivity..].
  exfalso. exact (H _ eq_refl).
Qed.

(** When, and with what, the probe loop throws, as a function of its
    answers alone. *)
Lemma probing_throws answers : forall s i e,
  st s = Probing i -> (i < maxAttempts)%nat ->
  st (run s (Fetch <$> answers)) = StartThrew e <->
  e = start_timeout_error (mgr s) /\
  (maxAttempts - i <= length answers)%nat /\
  Forall (λ o, o <> FetchOk) (take (maxAttempts - i) answers).
Proof.
  induction answers as [|o answers IH]; intros s i e Hs Hi.
  - simpl. rewrite Hs. split; [discriminate|].
    intros (_ & Hlen & _). simpl in Hlen. lia.
  - change (run s (Fetch <$> o :: answers))
      with (run (step s (Fetch o)) (Fetch <$> answers)).
    replace (maxAttempts - i)%nat with (S (maxAttempts - S i)) by lia.
    cbn [take length]. rewrite Forall_cons.
    assert (o = FetchOk \/ o <> FetchOk) as [->|Hne]
      by (destruct o; auto; right; discriminate).
    + assert (step s (Fetch FetchOk)
              = {| mgr := mgr s; os := os s; st := StartReturned |}) as ->
        by (unfold step; rewrite Hs; reflexivity).
      rewrite run_settled by (intros j; discriminate). cbn [st].
      split; [discriminate|]. intros (_ & _ & Hok & _). congruence.
    + assert (step s (Fetch o) =
              {| mgr := mgr s; os := wait delayMs (os s); st := loop_head (mgr s) (S i) |})
        as -> by (unfold step; rewrite Hs; destruct o; [congruence|reflexivity..]).
      unfold loop_head. destruct (Nat.ltb_spec (S i) maxAttempts) as [Hlt|Hge].
      * rewrite (IH {| mgr := mgr s; os := wait delayMs (os s); st := Probing (S i) |}
                   (S i) e eq_refl Hlt).
        cbn [mgr]. split.
        -- intros (He & Hlen & Hall).
           split; [exact He|]. split; [lia|]. split; [exact Hne|exact Hall].
        -- intros (He & Hlen & _ & Hall).
           split; [exact He|]. split; [lia|exact Hall].
      * rewrite run_settled by (intros j; discriminate). cbn [st].
        replace (maxAttempts - S i)%nat with 0%nat by lia. cbn [take]. split.
        -- intros [= <-]. split; [reflexivity|]. split; [lia|].
           split; [exact Hne|constructor].
        -- intros (-> & _). reflexivity.
Qed.

(** C2, as the code has it.  [start]'s probe loop never looks at the kill
    flag.  On a fresh manager and whatever calls of [kill] are interleaved
    with the probes, it returns successfully exactly when one of its first
    20 probes is answered ok, and it throws exactly when 20 probes have been
    answered and none of them ok; what it then throws is the network error
    that names the port and 10000 ms. *)
Theorem start_ignores_kill (port : Z) (args : list string) (w : OS)
    (schedule : list Action) :
  exists s0,
    start_begin (new port) args w = inr s0 /\
    (st (run s0 schedule) = StartReturned <->
     exists k, (k < 20)%nat /\ fetches_of schedule !! k = Some FetchOk) /\
    (forall e,
       st (run s0 schedule) = StartThrew e <->
       e = createNetworkError
             ("Anvil did not respond on port " +:+ Js.toString port
                +:+ " within 10000ms") /\
       (20 <= length (fetches_of schedule))%nat /\
       Forall (λ o, o <> FetchOk) (take 20 (fetches_of schedule))).
Proof.
  eexists. split; [reflexivity|]. split.
  - rewrite run_ignores_kill.
    etransitivity; [apply (probing_returns _ _ 0%nat); [reflexivity|]|].
    + unfold maxAttempts. lia.
    + reflexivity.
  - intros e. rewrite run_ignores_kill.
    etransitivity;
      [apply (probing_throws _ _ 0%nat e); [reflexivity|unfold maxAttempts; lia]|].
    reflexivity.
Qed.

(** C2, as stated, fails: [kill] is called while the loop is still polling
    and [start] returns successfully afterwards. *)
Lemma start_returns_after_kill :
  exists s0,
    start_begin (new 8545) ["--port"; "8545"] idle = inr s0 /\
    st (run s0 [Fetch FetchRejects]) = Probing 1 /\
    st (run s0 [Fetch FetchRejects; CallKill false; Fetch FetchOk]) = StartReturned.
Proof. eexists. repeat split. Qed.

End AnvilFacts.

(** ** The replay executor *)

Module ReplayerFacts.
Import Replayer.

Lemma modifiedTx_override otx (mods : JsObject) k v :
  mods !! k = Some v -> modifiedTx otx mods !! k = Some v.
Proof. intros H. unfold modifiedTx. apply lookup_union_Some_l. exact H. Qed.

Lemma modifiedTx_original otx (mods : JsObject) k :
  mods !! k = None -> modifiedTx otx mods !! k = reconstructed otx !! k.
Proof. intros H. unfold modifiedTx. apply lookup_union_r. exact H. Qed.

Lemma reconstructed_no_sender_no_nonce otx :
  reconstructed otx !! "from" = None /\ reconstructed otx !! "nonce" = None.
Proof. split; reflexivity. Qed.

Lemma replay_submits c txHash (mods : JsObject) otx :
  getTransaction c txHash = Resolved (Some otx) ->
  (replayTransaction c txHash mods).2 = [modifiedTx otx mods].
Proof.
  intros H. unfold replayTransaction. rewrite H.
  destruct (sendTransaction c _); [destruct (wait_receipt c _)|]; reflexivity.
Qed.

(** C4, as the code has it.  The request handed to the wallet is the five
    reconstructed fields [to], [value], [data], [gasLimit], [gasPrice] with
    every property of the overrides object copied over them: an override
    wins, a field without override keeps its reconstructed value.  The
    reconstruction itself sets neither [from] nor [nonce]; the request has
    them exactly when the overrides do.  With the overrides
    [{value: "0"}] the request's value is ["0"] and every other field is
    the reconstructed one. *)
Theorem submitted_request_merges_overrides (c : Chain) (txHash : string)
    (mods : JsObject) (otx : TransactionResponse) :
  getTransaction c txHash = Resolved (Some otx) ->
  exists request,
    (replayTransaction c txHash mods).2 = [request] /\
    (forall k v, mods !! k = Some v -> request !! k = Some v) /\
    (forall k, mods !! k = None -> request !! k = reconstructed otx !! k) /\
    dom (reconstructed otx) = {["to"; "value"; "data"; "gasLimit"; "gasPrice"]} /\
    request !! "from" = mods !! "from" /\
    request !! "nonce" = mods !! "nonce" /\
    (replayTransaction c txHash {["value" := VStr "0"]}).2 =
      [<["value" := VStr "0"]> (reconstructed otx)].
Proof.
  intros Hget. exists (modifiedTx otx mods).
  split; [apply replay_submits; exact Hget|].
  split; [intros k v; apply modifiedTx_override|].
  split; [intros k; apply modifiedTx_original|].
  split.
  { unfold reconstructed. rewrite !dom_insert_L, dom_empty_L. set_solver. }
  split; [|split].
  - destruct (mods !! "from") eqn:E.
    + apply modifiedTx_override. exact E.
    + rewrite modifiedTx_original by exact E. reflexivity.
  - destruct (mods !! "nonce") eqn:E.
    + apply modifiedTx_override. exact E.
    + rewrite modifiedTx_original by exact E. reflexivity.
  - rewrite (replay_submits _ _ _ otx) by exact Hget.
    unfold modifiedTx. rewrite <- insert_union_singleton_l. reflexivity.
Qed.

Lemma submitted_request_merges_overrides_witness :
  getTransaction accepting_chain "0xabc" = Resolved (Some sample_tx) /\
  exists request,
    (replayTransaction accepting_chain "0xabc" {["gasLimit" := VNum 50000]}).2 = [request] /\
    request !! "gasLimit" = Some (VNum 50000) /\
    request !! "value" = Some (VBigInt 1000).
Proof.
  split; [reflexivity|].
  destruct (submitted_request_merges_overrides accepting_chain "0xabc"
              {["gasLimit" := VNum 50000]} sample_tx eq_refl)
    as (request & Hsub & Hwin & Hkeep & _).
  exists request. split; [exact Hsub|]. split.
  - apply Hwin. reflexivity.
  - rewrite Hkeep by reflexivity. reflexivity.
Defined.

(** C4, as stated, fails: a [nonce] in the overrides reaches the submitted
    request, so the nonce is taken from the overrides. *)
Lemma overrides_set_nonce :
  let mods : JsObject := {["nonce" := VNum 7]} in
  exists request,
    (replayTransaction accepting_chain "0xabc" mods).2 = [request] /\
    mods !! "nonce" = Some (VNum 7) /\
    request !! "nonce" = Some (VNum 7).
Proof.
  eexists. split; [reflexivity|]. split; reflexivity.
Qed.

Lemma on_rejection_raises e e' :
  on_rejection e = Rejected e' <-> e' = e /\ receipt e = None.
Proof.
  unfold on_rejection. destruct (receipt e); split.
  - discriminate.
  - intros [_ ?]. discriminate.
  - intros [= ->]. auto.
  - intros [-> _]. reflexivity.
Qed.

Lemma on_rejection_failed e r :
  receipt e = Some r ->
  exists o, on_rejection e = Resolved o /\ status o = "failed" /\ is_Some (revertReason o).
Proof.
  intros H. unfold on_rejection. rewrite H.
  eexists. split; [reflexivity|]. split; [reflexivity|]. simpl. eauto.
Qed.

(** The pipeline meets at most one rejection. *)
Lemma rejection_result c txHash (mods : JsObject) e :
  rejection c txHash mods e ->
  (replayTransaction c txHash mods).1 = on_rejection e.
Proof.
  unfold replayTransaction.
  intros [e0 H | H | otx e0 H1 H2 | otx h e0 H1 H2 H3].
  - rewrite H. reflexivity.
  - rewrite H. reflexivity.
  - rewrite H1, H2. reflexivity.
  - rewrite H1, H2, H3. reflexivity.
Qed.

Lemma submission_rejection_rejection c txHash (mods : JsObject) e :
  submission_rejection c txHash mods e -> rejection c txHash mods e.
Proof.
  intros [otx e0 H1 H2 | otx h e0 H1 H2 H3].
  - eapply rej_submit; eassumption.
  - eapply rej_wait; eassumption.
Qed.

(** C5, as the code has it.  [replayTransaction] raises an error exactly
    when the first rejection met in its try block carries no receipt; that
    rejection may be one of the lookup of the original transaction, before
    anything is submitted, as well as one at submission time.  A
    submission-time rejection is raised exactly when it carries no receipt.
    A [wait()] that resolves with a receipt of status 0 gives an outcome
    with status "failed" and a revert reason, and so does a rejection that
    carries a receipt; neither raises. *)
Theorem replay_raises_iff_rejection_without_receipt (c : Chain) (txHash : string)
    (mods : JsObject) :
  let result := (replayTransaction c txHash mods).1 in
  (forall e, result = Rejected e <-> rejection c txHash mods e /\ receipt e = None) /\
  (forall e, submission_rejection c txHash mods e ->
     (replayTransaction c txHash mods).2 <> [] /\
     (result = Rejected e <-> receipt e = None)) /\
  (forall r, wait_resolves c txHash mods r -> r_status r = Some 0 ->
     exists o, result = Resolved o /\ status o = "failed" /\ is_Some (revertReason o)) /\
  (forall e r, rejection c txHash mods e -> receipt e = Some r ->
     exists o, result = Resolved o /\ status o = "failed" /\ is_Some (revertReason o)).
Proof.
  cbv zeta. split; [|split; [|split]].
  - intros e. split.
    + unfold replayTransaction.
      destruct (getTransaction c txHash) as [[otx|]|e0] eqn:Hget.
      * destruct (sendTransaction c (modifiedTx otx mods)) as [h|e0] eqn:Hsend.
        -- destruct (wait_receipt c h) as [r|e0] eqn:Hwait; simpl.
           ++ discriminate.
           ++ intros [-> Hr]%on_rejection_raises. split; [|exact Hr].
              eapply rej_wait; eassumption.
        -- simpl. intros [-> Hr]%on_rejection_raises. split; [|exact Hr].
           eapply rej_submit; eassumption.
      * simpl. intros [-> Hr]%on_rejection_raises. split; [|exact Hr].
        apply rej_missing. exact Hget.
      * simpl. intros [-> Hr]%on_rejection_raises. split; [|exact Hr].
        apply rej_lookup. exact Hget.
    + intros [Hrej Hr]. rewrite (rejection_result _ _ _ _ Hrej).
      apply on_rejection_raises. auto.
  - intros e Hsub. split.
    + destruct Hsub as [otx e0 H1 H2 | otx h e0 H1 H2 H3];
        rewrite (replay_submits _ _ _ otx H1); discriminate.
    + rewrite (rejection_result _ _ _ _ (submission_rejection_rejection _ _ _ _ Hsub)).
      rewrite on_rejection_raises. tauto.
  - intros r (otx & h & H1 & H2 & H3) Hst.
    unfold replayTransaction. rewrite H1, H2, H3. simpl.
    eexists. split; [reflexivity|]. unfold from_receipt. simpl. rewrite Hst.
    split; [reflexivity|]. simpl. eauto.
  - intros e r Hrej Hr. rewrite (rejection_result _ _ _ _ Hrej).
    apply on_rejection_failed with r. exact Hr.
Qed.

Lemma replay_raises_iff_rejection_without_receipt_witness :
  submission_rejection rejecting_chain "0xabc" ∅ revert_error /\
  receipt revert_error = Some (receipt_with 0) /\
  exists o,
    (replayTransaction rejecting_chain "0xabc" ∅).1 = Resolved o /\
    status o = "failed" /\ is_Some (revertReason o).
Proof.
  assert (submission_rejection rejecting_chain "0xabc" ∅ revert_error) as Hsub.
  { apply (sub_wait _ _ _ sample_tx "0xdef"); reflexivity. }
  split; [exact Hsub|]. split; [reflexivity|].
  destruct (replay_raises_iff_rejection_without_receipt rejecting_chain "0xabc" ∅)
    as (_ & _ & _ & Hrej).
  exact (Hrej revert_error (receipt_with 0)
           (submission_rejection_rejection _ _ _ _ Hsub) eq_refl).
Defined.

(** C5, as stated, fails: the provider does not know the transaction, the
    replay raises the error of reading a property of [null], and nothing
    was submitted, so no rejection at submission time has occurred. *)
Lemma unknown_transaction_raises_unsubmitted :
  (replayTransaction unknown_chain "0xabc" ∅).1 = Rejected null_tx_error /\
  (replayTransaction unknown_chain "0xabc" ∅).2 = [] /\
  forall e, ~ submission_rejection unknown_chain "0xabc" ∅ e.
Proof.
  split; [reflexivity|]. split; [reflexivity|].
  intros e [otx e0 H1 H2 | otx h e0 H1 H2 H3]; discriminate.
Qed.

End ReplayerFacts.

(** ** The state diff engine *)

Module DiffFacts.
Import Diff.

Lemma bind_Resolved {A B} (p : Promise A) (f : A -> Promise B) (b : B) :
  p ≫= f = Resolved b <-> exists a, p = Resolved a /\ f a = Resolved b.
Proof.
  destruct p as [a|e]; simpl; split.
  - eauto.
  - intros (a' & [= ->] & H). exact H.
  - discriminate.
  - intros (a' & [=] & _).
Qed.

Lemma mapM_Resolved {A B} (f : A -> Promise B) (l : list A) (ys : list B) :
  mapM f l = Resolved ys <-> Forall2 (λ x y, f x = Resolved y) l ys.
Proof.
  revert ys. induction l as [|x l IH]; intros ys; simpl.
  - split.
    + intros [= <-]. constructor.
    + intros H. inversion H. reflexivity.
  - split.
    + intros (y & Hy & (k & Hk & [= <-])%bind_Resolved)%bind_Resolved.
      constructor; [exact Hy|]. apply IH. exact Hk.
    + intros H. inversion H as [|? y ? k Hy Hk]; subst.
      apply bind_Resolved. exists y. split; [exact Hy|].
      apply bind_Resolved. exists k. split; [apply IH; exact Hk|reflexivity].
Qed.

(** [Object.fromEntries] on entries that agree on the key [k]. *)
Lemma fromEntries_lookup {A} (entries : list (string * A)) (k : string) (v : A) :
  (forall v', (k, v') ∈ entries -> v' = v) ->
  (k, v) ∈ entries ->
  fromEntries entries !! k = Some v.
Proof.
  unfold fromEntries. intros Hall Hin.
  assert (forall acc : gmap string A,
            (k, v) ∈ entries \/ acc !! k = Some v ->
            foldl (λ m kv, <[kv.1 := kv.2]> m) acc entries !! k = Some v) as H;
    [|apply H; left; exact Hin].
  clear Hin. induction entries as [|[k0 v0] rest IH]; intros acc Hor.
  - destruct Hor as [Hin|Hacc]; [inversion Hin|exact Hacc].
  - simpl. apply IH.
    + intros v' Hv'. apply Hall. right. exact Hv'.
    + destruct (decide (k0 = k)) as [->|Hne].
      * right. rewrite lookup_insert_eq. f_equal. apply Hall. left.
      * destruct Hor as [Hin|Hacc].
        -- apply elem_of_cons in Hin as [Heq|Hin]; [|left; exact Hin].
           injection Heq as Hk _. congruence.
        -- right. rewrite lookup_insert_ne by exact Hne. exact Hacc.
Qed.

Lemma diff_entry_fields (b a : gmap string AccountSnapshot) addr d :
  diff_entry b a addr = Resolved d ->
  exists sa sb za zb,
    a !! addr = Some sa /\ b !! addr = Some sb /\
    Js.BigInt (balance sa) = Some za /\ Js.BigInt (balance sb) = Some zb /\
    d = {| before := sb; after := sa;
           balanceChange := za - zb;
           nonceChange := nonce sa - nonce sb;
           codeChanged := negb (bool_decide (codeHash sa = codeHash sb)) |}.
Proof.
  unfold diff_entry, get_snapshot, toBigInt.
  intros (sa & Hsa & (sb & Hsb & (za & Hza & (zb & Hzb & [= <-])%bind_Resolved)
    %bind_Resolved)%bind_Resolved)%bind_Resolved.
  destruct (a !! addr) as [sa'|] eqn:Ea; [|discriminate]. injection Hsa as ->.
  destruct (b !! addr) as [sb'|] eqn:Eb; [|discriminate]. injection Hsb as ->.
  destruct (Js.BigInt (balance sa)) as [za'|] eqn:Eza; [|discriminate]. injection Hza as ->.
  destruct (Js.BigInt (balance sb)) as [zb'|] eqn:Ezb; [|discriminate]. injection Hzb as ->.
  exists sa, sb, za, zb. auto 10.
Qed.

(** Every entry of the loop's result was either there before or is the
    entry computed for one of the addresses. *)
Lemma diff_loop_lookup (b a : gmap string AccountSnapshot) addresses :
  forall (acc res : gmap string AccountDiff) k d,
    diff_loop b a addresses acc = Resolved res ->
    res !! k = Some d ->
    acc !! k = Some d \/ (k ∈ addresses /\ diff_entry b a k = Resolved d).
Proof.
  induction addresses as [|addr rest IH]; intros acc res k d Hloop Hk.
  - injection Hloop as <-. left. exact Hk.
  - cbn [diff_loop] in Hloop.
    apply bind_Resolved in Hloop as (d0 & Hd0 & Hloop).
    destruct (IH _ _ _ _ Hloop Hk) as [Hacc|[Hin Hd]].
    + destruct (decide (addr = k)) as [->|Hne].
      * rewrite lookup_insert_eq in Hacc. injection Hacc as ->.
        right. split; [left|exact Hd0].
      * rewrite lookup_insert_ne in Hacc by exact Hne. left. exact Hacc.
    + right. split; [right; exact Hin|exact Hd].
Qed.

Lemma diff_loop_dom (b a : gmap string AccountSnapshot) addresses :
  forall (acc res : gmap string AccountDiff),
    diff_loop b a addresses acc = Resolved res ->
    dom res = dom acc ∪ list_to_set addresses.
Proof.
  induction addresses as [|addr rest IH]; intros acc res Hloop.
  - injection Hloop as <-. set_solver.
  - cbn [diff_loop] in Hloop.
    apply bind_Resolved in Hloop as (d0 & Hd0 & Hloop).
    rewrite (IH _ _ Hloop), dom_insert_L. set_solver.
Qed.

Lemma diff_loop_total (b a : gmap string AccountSnapshot) addresses :
  (forall k, k ∈ addresses -> exists d, diff_entry b a k = Resolved d) ->
  forall acc, exists res, diff_loop b a addresses acc = Resolved res.
Proof.
  induction addresses as [|addr rest IH]; intros Hall acc.
  - exists acc. reflexivity.
  - destruct (Hall addr) as [d Hd]; [left|].
    destruct (IH (λ k Hk, Hall k (list_elem_of_further _ _ _ Hk)) (<[addr := d]> acc))
      as [res Hres].
    exists res. cbn [diff_loop]. rewrite Hd. exact Hres.
Qed.

Lemma mapM_total {A B} (f : A -> Promise B) (l : list A) :
  (forall x, x ∈ l -> exists y, f x = Resolved y) ->
  exists ys, mapM f l = Resolved ys.
Proof.
  induction l as [|x l IH]; intros Hall.
  - exists []. reflexivity.
  - destruct (Hall x) as [y Hy]; [left|].
    destruct IH as [ys Hys]; [intros x' Hx'; apply Hall; right; exact Hx'|].
    exists (y :: ys). simpl. rewrite Hy. simpl. rewrite Hys. reflexivity.
Qed.

Section WithHash.
Variable keccak256 : string -> string.

(** What a resolved snapshot records. *)
Lemma snapshot_fields p addr tag snap :
  getAccountSnapshot keccak256 p addr tag = Resolved snap ->
  exists bal n code,
    getBalance p addr tag = Resolved bal /\
    getTransactionCount p addr tag = Resolved n /\
    getCode p addr tag = Resolved code /\
    address snap = addr /\
    balance snap = Js.toString bal /\
    nonce snap = n /\
    codeHash snap = (if bool_decide (code = "0x") then "0x" else keccak256 code).
Proof.
  unfold getAccountSnapshot.
  intros (bal & Hb & (n & Hn & (code & Hc & (size & Hs & [= <-])%bind_Resolved)
    %bind_Resolved)%bind_Resolved)%bind_Resolved.
  exists bal, n, code. simpl. auto 10.
Qed.

Lemma captureState_lookup p tag addresses m addr :
  captureState keccak256 p tag addresses = Resolved m ->
  addr ∈ addresses ->
  exists snap, getAccountSnapshot keccak256 p addr tag = Resolved snap /\ m !! addr = Some snap.
Proof.
  unfold captureState.
  intros (snaps & Hsnaps%mapM_Resolved & [= <-])%bind_Resolved Hin.
  apply list_elem_of_lookup in Hin as [i Hi].
  destruct (Forall2_lookup_l _ _ _ _ _ Hsnaps Hi) as (snap & Hsnap & Hget).
  exists snap. split; [exact Hget|].
  apply fromEntries_lookup.
  - intros v' Hv'. apply list_elem_of_fmap in Hv' as (s' & [= Hk ->] & Hs').
    apply list_elem_of_lookup in Hs' as [j Hj].
    destruct (Forall2_lookup_r _ _ _ _ _ Hsnaps Hj) as (addr' & Haddr' & Hget').
    destruct (snapshot_fields _ _ _ _ Hget') as (? & ? & ? & _ & _ & _ & Ha & _).
    assert (addr' = addr) as -> by congruence.
    congruence.
  - apply list_elem_of_fmap. exists snap. split.
    + destruct (snapshot_fields _ _ _ _ Hget) as (? & ? & ? & _ & _ & _ & Ha & _).
      rewrite Ha. reflexivity.
    + apply list_elem_of_lookup. eauto.
Qed.

Lemma snapshot_total p addr tag :
  answers_at p addr tag ->
  exists snap, getAccountSnapshot keccak256 p addr tag = Resolved snap.
Proof.
  intros (bal & n & code & size & Hb & Hn & Hc & Hs).
  unfold getAccountSnapshot. rewrite Hb. simpl. rewrite Hn. simpl.
  rewrite Hc. simpl. rewrite Hs. simpl. eauto.
Qed.

(** [diff] returns whenever the provider answers for every address at both
    heights, and its keys are then exactly the addresses asked for. *)
Lemma diff_returns p fromTag toTag addresses :
  (forall addr, addr ∈ addresses ->
     answers_at p addr fromTag /\ answers_at p addr toTag) ->
  exists result,
    diff keccak256 p fromTag toTag addresses = Resolved result /\
    dom result = list_to_set addresses.
Proof.
  intros Hall.
  destruct (mapM_total (λ addr, getAccountSnapshot keccak256 p addr fromTag) addresses)
    as [sb Hsb]; [intros x Hx; apply snapshot_total, Hall, Hx|].
  destruct (mapM_total (λ addr, getAccountSnapshot keccak256 p addr toTag) addresses)
    as [sa Ha]; [intros x Hx; apply snapshot_total, Hall, Hx|].
  set (b := fromEntries ((λ snap, (address snap, snap)) <$> sb)).
  set (a := fromEntries ((λ snap, (address snap, snap)) <$> sa)).
  assert (captureState keccak256 p fromTag addresses = Resolved b) as Hb
    by (unfold captureState; rewrite Hsb; reflexivity).
  assert (captureState keccak256 p toTag addresses = Resolved a) as Hcap
    by (unfold captureState; rewrite Ha; reflexivity).
  destruct (diff_loop_total b a addresses) with (acc := (∅ : gmap string AccountDiff))
    as [res Hres].
  { intros k Hk.
    destruct (captureState_lookup _ _ _ _ _ Hb Hk) as (snb & Hgb & Hlb).
    destruct (captureState_lookup _ _ _ _ _ Hcap Hk) as (sna & Hga & Hla).
    destruct (snapshot_fields _ _ _ _ Hgb) as (balb & _ & _ & _ & _ & _ & _ & Hbb & _).
    destruct (snapshot_fields _ _ _ _ Hga) as (bala & _ & _ & _ & _ & _ & _ & Hba & _).
    unfold diff_entry, get_snapshot, toBigInt. rewrite Hla, Hlb. simpl.
    rewrite Hba, Hbb, !JsFacts.BigInt_toString. simpl. eauto. }
  exists res. split.
  - unfold diff. rewrite Hb. simpl. rewrite Hcap. simpl. exact Hres.
  - rewrite (diff_loop_dom _ _ _ _ _ Hres). set_solver.
Qed.

(** C8.  Every entry [d] of the map returned by [diff] belongs to one of
    the requested addresses and holds the two snapshots of that address;
    [balanceChange] is the balance at [toTag] minus the balance at
    [fromTag], computed in the unbounded integers from the decimal strings
    of the snapshots; [nonceChange] is the difference of the nonces; and
    [codeChanged] is true exactly when the code hashes differ. *)
Theorem diff_entry_exact p fromTag toTag addresses result addr d :
  diff keccak256 p fromTag toTag addresses = Resolved result ->
  result !! addr = Some d ->
  exists balBefore balAfter,
    addr ∈ addresses /\
    getAccountSnapshot keccak256 p addr fromTag = Resolved (before d) /\
    getAccountSnapshot keccak256 p addr toTag = Resolved (after d) /\
    getBalance p addr fromTag = Resolved balBefore /\
    getBalance p addr toTag = Resolved balAfter /\
    Js.BigInt (balance (before d)) = Some balBefore /\
    Js.BigInt (balance (after d)) = Some balAfter /\
    balanceChange d = balAfter - balBefore /\
    nonceChange d = nonce (after d) - nonce (before d) /\
    (codeChanged d = true <-> codeHash (after d) <> codeHash (before d)).
Proof.
  unfold diff.
  intros (b & Hb & (a & Ha & Hloop)%bind_Resolved)%bind_Resolved Hlook.
  destruct (diff_loop_lookup _ _ _ _ _ _ _ Hloop Hlook) as [Hempty|[Hin Hentry]];
    [rewrite lookup_empty in Hempty; discriminate|].
  destruct (diff_entry_fields _ _ _ _ Hentry)
    as (sa & sb & za & zb & Hsa & Hsb & Hza & Hzb & ->).
  destruct (captureState_lookup _ _ _ _ _ Hb Hin) as (sb' & Hgb & Hlb).
  destruct (captureState_lookup _ _ _ _ _ Ha Hin) as (sa' & Hga & Hla).
  assert (sb' = sb) as -> by congruence. assert (sa' = sa) as -> by congruence.
  destruct (snapshot_fields _ _ _ _ Hgb) as (balb & ? & ? & Hbb & _ & _ & _ & Hsbb & _).
  destruct (snapshot_fields _ _ _ _ Hga) as (bala & ? & ? & Hba & _ & _ & _ & Hsba & _).
  rewrite Hsbb, JsFacts.BigInt_toString in Hzb. injection Hzb as <-.
  rewrite Hsba, JsFacts.BigInt_toString in Hza. injection Hza as <-.
  exists balb, bala. cbn [before after balanceChange nonceChange codeChanged].
  rewrite Hsbb, Hsba, !JsFacts.BigInt_toString.
  repeat split; try assumption.
  - intros Hc Heq. rewrite bool_decide_eq_true_2 in Hc by exact Heq. discriminate.
  - intros Hne. rewrite bool_decide_eq_false_2 by exact Hne. reflexivity.
Qed.

End WithHash.

(** A balance that drops from 2^70 to 5 between the two heights. *)
Lemma diff_entry_exact_witness :
  exists result d,
    diff id sample_provider (TagNumber 99) (TagNumber 100) ["0xaaaa"; "0xbbbb"] = Resolved result /\
    result !! "0xaaaa" = Some d /\
    balanceChange d = 5 - 2 ^ 70 /\
    codeChanged d = false.
Proof.
  assert (exists result,
            diff id sample_provider (TagNumber 99) (TagNumber 100) ["0xaaaa"; "0xbbbb"]
              = Resolved result) as [result Hres].
  { destruct (diff_returns id sample_provider (TagNumber 99) (TagNumber 100)
                ["0xaaaa"; "0xbbbb"]) as (result & Hres & _); [|eauto].
    intros addr _. split; eexists _, 3, "0x", 0; repeat split. }
  assert (is_Some (result !! "0xaaaa")) as [d Hd].
  { apply elem_of_dom.
    destruct (diff_returns id sample_provider (TagNumber 99) (TagNumber 100)
                ["0xaaaa"; "0xbbbb"]) as (result' & Hres' & Hdom).
    - intros addr _. split; eexists _, 3, "0x", 0; repeat split.
    - assert (result' = result) as -> by congruence.
      rewrite Hdom. set_solver. }
  exists result, d. split; [exact Hres|]. split; [exact Hd|].
  destruct (diff_entry_exact id sample_provider _ _ _ _ _ _ Hres Hd)
    as (balb & bala & _ & Hsb & Hsa & Hbb & Hba & _ & _ & Hchange & _ & Hcode).
  injection Hbb as <-. injection Hba as <-.
  split; [exact Hchange|].
  destruct (codeChanged d); [|reflexivity].
  exfalso. apply (proj1 Hcode eq_refl).
  apply snapshot_fields in Hsb as (? & ? & ? & _ & _ & [= <-] & _ & _ & _ & ->).
  apply snapshot_fields in Hsa as (? & ? & ? & _ & _ & [= <-] & _ & _ & _ & ->).
  reflexivity.
Defined.

End DiffFacts.

(** ** The orchestrator *)

Module OrchestratorFacts.
Import Orchestrator.

Lemma task_bind_resolved {A B} (t : Task A) (f : A -> Task B) (b : B) :
  (t ≫= f).1 = Resolved b <-> exists a, t.1 = Resolved a /\ (f a).1 = Resolved b.
Proof.
  unfold mbind, task_mbind, task_bind. destruct t as [[a|e] evs]; simpl; split.
  - eauto.
  - intros (a' & [= ->] & H). exact H.
  - discriminate.
  - intros (a' & [=] & _).
Qed.

Lemma task_bind_events {A B} (t : Task A) (f : A -> Task B) (ev : Event) :
  ev ∈ (t ≫= f).2 -> ev ∈ t.2 \/ exists a, t.1 = Resolved a /\ ev ∈ (f a).2.
Proof.
  unfold mbind, task_mbind, task_bind. destruct t as [[a|e] evs]; simpl.
  - intros [H|H]%elem_of_app; eauto.
  - auto.
Qed.

Lemma task_bind_events_resolved {A B} (t : Task A) (f : A -> Task B) (a : A) :
  t.1 = Resolved a -> (t ≫= f).2 = t.2 ++ (f a).2.
Proof.
  unfold mbind, task_mbind, task_bind. destruct t as [[a'|e] evs]; simpl.
  - intros [= ->]. reflexivity.
  - discriminate.
Qed.

Lemma ai_step_events w opts r ev : ev ∈ (ai_step w opts r).2 -> ev = Analyze.
Proof.
  unfold ai_step. destruct (ai opts); [destruct (analyzeTrace w r)|]; simpl;
    intros H; try (apply list_elem_of_singleton in H; exact H); inversion H.
Qed.

Lemma save_step_events w opts ev :
  ev ∈ (save_step w opts).2 -> exists name, ev = SaveState name.
Proof.
  unfold save_step. destruct (saveState opts) as [name|]; [destruct (Js.truthy_string name)|];
    simpl; intros H; try (apply list_elem_of_singleton in H; eauto); inversion H.
Qed.

Lemma export_step_events w opts r ch a ev :
  ev ∈ (export_step w opts r ch a).2 -> exists formats, ev = Export formats.
Proof.
  unfold export_step.
  destruct (export opts) as [formats|]; [destruct (Js.truthy_string formats)|];
    try (simpl; intros H; inversion H; fail).
  intros [H|(y & _ & H)]%task_bind_events.
  - apply list_elem_of_singleton in H. eauto.
  - inversion H.
Qed.

Section Run.
Variable w : World.
Variable opts : Opts.
Variable txData : TxData.

(** The one diff request [with_fork] can make. *)
Lemma with_fork_state_diff f t' a :
  StateDiff f t' a ∈ (with_fork w opts txData).2 ->
  f = Diff.TagNumber (blockNumber txData - 1) /\
  t' = Diff.TagNumber (blockNumber txData) /\
  a = filter_Boolean [e_from (transaction txData); e_to (transaction txData)].
Proof.
  unfold with_fork.
  intros [H|(? & _ & [H|(? & _ & [H|(r & _ & [H|(ch & _ & H)]%task_bind_events)
    ]%task_bind_events)]%task_bind_events)]%task_bind_events;
    try (apply list_elem_of_singleton in H; discriminate H).
  - apply list_elem_of_singleton in H. injection H as -> -> ->.
    rewrite Z.sub_add. auto.
  - apply task_bind_events in H as [H|(v1 & _ & H)];
      [apply ai_step_events in H; discriminate H|].
    apply task_bind_events in H as [H|(v2 & _ & H)];
      [apply save_step_events in H as [? H]; discriminate H|].
    apply task_bind_events in H as [H|(v3 & _ & H)];
      [apply export_step_events in H as [? H]; discriminate H|].
    apply task_bind_events in H as [H|(v4 & _ & H)];
      [apply list_elem_of_singleton in H; discriminate H|].
    inversion H.
Qed.

Lemma with_fork_starts_fork :
  exists rest,
    (with_fork w opts txData).2 =
      AnvilStart (port_of (anvilPort opts))
        (start_args (forkUrl w) (blockNumber txData - 1) (port_of (anvilPort opts)))
        :: rest.
Proof.
  unfold with_fork.
  match goal with |- context [await ?ev ?p ≫= ?f] =>
    destruct p as [u|e] eqn:E;
    [ rewrite (task_bind_events_resolved (await ev (Resolved u)) f u eq_refl);
      simpl; eauto
    | exists []; reflexivity ]
  end.
Qed.

(** A resolved run made the diff request and returns its result. *)
Lemma with_fork_resolved summary :
  (with_fork w opts txData).1 = Resolved summary ->
  StateDiff (Diff.TagNumber (blockNumber txData - 1)) (Diff.TagNumber (blockNumber txData))
    (filter_Boolean [e_from (transaction txData); e_to (transaction txData)])
    ∈ (with_fork w opts txData).2 /\
  Diff.diff (keccak256 w) (provider w)
    (Diff.TagNumber (blockNumber txData - 1)) (Diff.TagNumber (blockNumber txData))
    (filter_Boolean [e_from (transaction txData); e_to (transaction txData)])
    = Resolved (stateDiff summary).
Proof.
  unfold with_fork.
  intros (u1 & H1 & (u2 & H2 & (r & H3 & (ch & H4 & (ai & H5 & (u3 & H6 & (x & H7 &
    (u4 & H8 & [= <-])%task_bind_resolved)%task_bind_resolved)%task_bind_resolved)
    %task_bind_resolved)%task_bind_resolved)%task_bind_resolved)%task_bind_resolved)
    %task_bind_resolved.
  cbn [stateDiff]. simpl in H4. rewrite Z.sub_add in H4.
  split; [|exact H4].
  rewrite (task_bind_events_resolved _ _ _ H1). apply elem_of_app. right.
  rewrite (task_bind_events_resolved _ _ _ H2). apply elem_of_app. right.
  rewrite (task_bind_events_resolved _ _ _ H3). apply elem_of_app. right.
  rewrite (task_bind_events_resolved _ _ ch); [|simpl; rewrite Z.sub_add; exact H4].
  apply elem_of_app. left. simpl. rewrite Z.sub_add. left.
Qed.

End Run.

Lemma cleanup_result {A} (t : Task A) : (cleanup t).1 = t.1.
Proof. unfold cleanup. destruct t as [[a|e] evs]; reflexivity. Qed.

Lemma cleanup_events {A} (t : Task A) :
  (cleanup t).2 = t.2 \/ (cleanup t).2 = t.2 ++ [AnvilKill].
Proof. unfold cleanup. destruct t as [[a|e] evs]; simpl; auto. Qed.

(** Past validation and the fetch, a run is the fetch followed by the
    fork stage and its cleanup. *)
Lemma runForkTrace_fetched w opts apiKey txData :
  Validators.validateTransactionHash (txHash opts) = true ->
  getEtherscanApiKey w = Resolved apiKey ->
  getTransactionData w apiKey (txHash opts) = Resolved txData ->
  runForkTrace w opts =
    ((cleanup (with_fork w opts txData)).1,
     FetchTransaction (txHash opts) :: (cleanup (with_fork w opts txData)).2).
Proof.
  intros Hvalid Hkey Hdata. unfold runForkTrace. rewrite Hvalid. cbn [negb].
  unfold lift, await. rewrite Hkey.
  unfold mbind at 1, task_mbind, task_bind. cbn [fst snd app].
  rewrite Hdata.
  unfold mbind at 1, task_mbind, task_bind. cbn [fst snd app].
  reflexivity.
Qed.

(** The fork height and the diff request of a run, for any fetched
    transaction. *)
Lemma runForkTrace_fork_and_diff w opts apiKey txData :
  Validators.validateTransactionHash (txHash opts) = true ->
  getEtherscanApiKey w = Resolved apiKey ->
  getTransactionData w apiKey (txHash opts) = Resolved txData ->
  let N := blockNumber txData in
  let addresses :=
    filter_Boolean [e_from (transaction txData); e_to (transaction txData)] in
  let port := port_of (anvilPort opts) in
  let t := runForkTrace w opts in
  (exists rest,
     t.2 = FetchTransaction (txHash opts)
             :: AnvilStart port (start_args (forkUrl w) (N - 1) port) :: rest) /\
  (forall f t' a, StateDiff f t' a ∈ t.2 ->
     f = Diff.TagNumber (N - 1) /\ t' = Diff.TagNumber N /\ a = addresses) /\
  (forall summary, t.1 = Resolved summary ->
     StateDiff (Diff.TagNumber (N - 1)) (Diff.TagNumber N) addresses ∈ t.2 /\
     dom (stateDiff summary) = list_to_set addresses).
Proof.
  intros Hvalid Hkey Hdata N addresses port t.
  subst t. rewrite (runForkTrace_fetched _ _ _ _ Hvalid Hkey Hdata). cbn [fst snd].
  split; [|split].
  - destruct (with_fork_starts_fork w opts txData) as [rest Hrest].
    destruct (cleanup_events (with_fork w opts txData)) as [-> | ->];
      rewrite Hrest; eauto.
  - intros f t' a Hin. apply elem_of_cons in Hin as [Heq|Hin]; [discriminate Heq|].
    apply (with_fork_state_diff w opts txData).
    destruct (cleanup_events (with_fork w opts txData)) as [E|E];
      rewrite E in Hin; [exact Hin|].
    apply elem_of_app in Hin as [Hin|Hin]; [exact Hin|].
    apply list_elem_of_singleton in Hin. discriminate Hin.
  - intros summary Hs. rewrite cleanup_result in Hs.
    destruct (with_fork_resolved w opts txData summary Hs) as [Hin Hdiff].
    split.
    + right. destruct (cleanup_events (with_fork w opts txData)) as [-> | ->];
        [exact Hin|apply elem_of_app; left; exact Hin].
    + unfold Diff.diff in Hdiff.
      apply DiffFacts.bind_Resolved in Hdiff as (b & _ & Hdiff).
      apply DiffFacts.bind_Resolved in Hdiff as (a & _ & Hloop).
      rewrite (DiffFacts.diff_loop_dom _ _ _ _ _ Hloop). set_solver.
Qed.

(** The diff map in the summary of a resolved run is what [diff] returned
    for the one request of the run. *)
Lemma runForkTrace_diff_result w opts apiKey txData summary :
  Validators.validateTransactionHash (txHash opts) = true ->
  getEtherscanApiKey w = Resolved apiKey ->
  getTransactionData w apiKey (txHash opts) = Resolved txData ->
  (runForkTrace w opts).1 = Resolved summary ->
  Diff.diff (keccak256 w) (provider w)
    (Diff.TagNumber (blockNumber txData - 1)) (Diff.TagNumber (blockNumber txData))
    (filter_Boolean [e_from (transaction txData); e_to (transaction txData)])
    = Resolved (stateDiff summary).
Proof.
  intros Hvalid Hkey Hdata.
  rewrite (runForkTrace_fetched _ _ _ _ Hvalid Hkey Hdata). cbn [fst].
  rewrite cleanup_result. intros Hs.
  exact (proj2 (with_fork_resolved w opts txData summary Hs)).
Qed.

Lemma filter_Boolean_pair (s r : option string) (k : string) :
  k ∈ filter_Boolean [s; r] <->
  Js.truthy_string k = true /\ (s = Some k \/ r = Some k).
Proof.
  unfold filter_Boolean. rewrite list_elem_of_omap. split.
  - intros (o & Ho & Hk). destruct o as [x|]; simpl in Hk; [|discriminate].
    destruct (Js.truthy_string x) eqn:E; [|discriminate]. injection Hk as ->.
    split; [exact E|].
    apply elem_of_cons in Ho as [->|Ho]; [auto|].
    apply list_elem_of_singleton in Ho as ->. auto.
  - intros [Ht [-> | ->]]; exists (Some k); simpl; rewrite Ht; split; auto.
    + left.
    + right. left.
Qed.

(** C9.  For a transaction mined at block N, the fork is started with
    [--fork-block-number] N-1, the only diff request of the run is the one
    between the heights N-1 and N over the sender and recipient that are
    set, the diff map of the summary is the map that [diff] computes for
    this request, and its keys are exactly those addresses: no other
    address is a key. *)
Theorem fork_before_block_and_diff_of_parties w opts apiKey txData :
  Validators.validateTransactionHash (txHash opts) = true ->
  getEtherscanApiKey w = Resolved apiKey ->
  getTransactionData w apiKey (txHash opts) = Resolved txData ->
  let N := blockNumber txData in
  let sender := e_from (transaction txData) in
  let recipient := e_to (transaction txData) in
  let t := runForkTrace w opts in
  (exists rest,
     t.2 = FetchTransaction (txHash opts)
           :: AnvilStart (port_of (anvilPort opts))
                (["--fork-url"; forkUrl w;
                  "--fork-block-number"; Js.toString (N - 1)]
                   ++ ["--port"; Js.toString (port_of (anvilPort opts));
                       "--host"; "127.0.0.1"; "--accounts"; "10";
                       "--balance"; "10000"; "--hardfork"; "london"])
           :: rest) /\
  (forall f t' a, StateDiff f t' a ∈ t.2 ->
     f = Diff.TagNumber (N - 1) /\ t' = Diff.TagNumber N /\
     a = filter_Boolean [sender; recipient]) /\
  (forall summary, t.1 = Resolved summary ->
     StateDiff (Diff.TagNumber (N - 1)) (Diff.TagNumber N)
       (filter_Boolean [sender; recipient]) ∈ t.2 /\
     Diff.diff (keccak256 w) (provider w) (Diff.TagNumber (N - 1)) (Diff.TagNumber N)
       (filter_Boolean [sender; recipient]) = Resolved (stateDiff summary) /\
     (forall k, k ∈ dom (stateDiff summary) <->
        Js.truthy_string k = true /\ (sender = Some k \/ recipient = Some k))).
Proof.
  intros Hvalid Hkey Hdata N sender recipient t.
  destruct (runForkTrace_fork_and_diff w opts apiKey txData Hvalid Hkey Hdata)
    as ((rest & Hstart) & Hdiff & Hres).
  split; [|split].
  - exists rest. exact Hstart.
  - exact Hdiff.
  - intros summary Hs. destruct (Hres summary Hs) as [Hin Hdom].
    split; [exact Hin|]. split.
    + exact (runForkTrace_diff_result w opts apiKey txData summary Hvalid Hkey Hdata Hs).
    + intros k. rewrite Hdom, elem_of_list_to_set. apply filter_Boolean_pair.
Qed.

Lemma fork_before_block_and_diff_of_parties_witness :
  let w := sample_world (Some "0x2222") in
  Validators.validateTransactionHash (txHash sample_opts) = true /\
  getEtherscanApiKey w = Resolved "ABCDEFGHIJKLMNOPQRSTUVWXYZ012345" /\
  exists summary,
    (runForkTrace w sample_opts).1 = Resolved summary /\
    StateDiff (Diff.TagNumber 99) (Diff.TagNumber 100) ["0x1111"; "0x2222"]
      ∈ (runForkTrace w sample_opts).2 /\
    Diff.diff (keccak256 w) (provider w) (Diff.TagNumber 99) (Diff.TagNumber 100)
      ["0x1111"; "0x2222"] = Resolved (stateDiff summary) /\
    (forall k, k ∈ dom (stateDiff summary) <->
       Js.truthy_string k = true /\ (Some "0x1111" = Some k \/ Some "0x2222" = Some k)).
Proof.
  intros w. split; [reflexivity|]. split; [reflexivity|].
  assert (exists summary, (runForkTrace w sample_opts).1 = Resolved summary)
    as [summary Hs] by (vm_compute; eauto).
  exists summary. split; [exact Hs|].
  destruct (fork_before_block_and_diff_of_parties w sample_opts
              "ABCDEFGHIJKLMNOPQRSTUVWXYZ012345"
              {| transaction := {| e_from := Some "0x1111"; e_to := Some "0x2222" |};
                 blockNumber := 100 |}
              eq_refl eq_refl eq_refl) as (_ & _ & Hres).
  exact (Hres summary Hs).
Defined.

(** C10.  For a fetched transaction whose recipient is null the diff is
    requested over the sender alone, the diff map of the summary is the map
    that [diff] computes over the sender alone, and the sender is its only
    key. *)
Theorem contract_creation_diffs_sender_only w opts apiKey txData sender :
  Validators.validateTransactionHash (txHash opts) = true ->
  getEtherscanApiKey w = Resolved apiKey ->
  getTransactionData w apiKey (txHash opts) = Resolved txData ->
  e_to (transaction txData) = None ->
  e_from (transaction txData) = Some sender ->
  sender <> EmptyString ->
  let t := runForkTrace w opts in
  filter_Boolean [e_from (transaction txData); e_to (transaction txData)] = [sender] /\
  (forall f t' a, StateDiff f t' a ∈ t.2 -> a = [sender]) /\
  (forall summary, t.1 = Resolved summary ->
     StateDiff (Diff.TagNumber (blockNumber txData - 1))
       (Diff.TagNumber (blockNumber txData)) [sender] ∈ t.2 /\
     Diff.diff (keccak256 w) (provider w)
       (Diff.TagNumber (blockNumber txData - 1)) (Diff.TagNumber (blockNumber txData))
       [sender] = Resolved (stateDiff summary) /\
     dom (stateDiff summary) = {[sender]}).
Proof.
  intros Hvalid Hkey Hdata Hto Hfrom Hne t.
  destruct (runForkTrace_fork_and_diff w opts apiKey txData Hvalid Hkey Hdata)
    as (_ & Hdiff & Hres).
  assert (filter_Boolean [e_from (transaction txData); e_to (transaction txData)]
          = [sender]) as Haddr.
  { rewrite Hto, Hfrom. unfold filter_Boolean. simpl.
    destruct sender; [congruence|reflexivity]. }
  rewrite Haddr in Hdiff, Hres.
  split; [exact Haddr|]. split.
  - intros f t' a Hin. apply (Hdiff f t' a Hin).
  - intros summary Hs. destruct (Hres summary Hs) as [Hin Hdom].
    split; [exact Hin|]. split.
    + rewrite <- Haddr.
      exact (runForkTrace_diff_result w opts apiKey txData summary Hvalid Hkey Hdata Hs).
    + rewrite Hdom. set_solver.
Qed.

Lemma contract_creation_diffs_sender_only_witness :
  let w := sample_world None in
  Validators.validateTransactionHash (txHash sample_opts) = true /\
  "0x1111" <> EmptyString /\
  exists summary,
    (runForkTrace w sample_opts).1 = Resolved summary /\
    Diff.diff (keccak256 w) (provider w) (Diff.TagNumber 99) (Diff.TagNumber 100)
      ["0x1111"] = Resolved (stateDiff summary) /\
    dom (stateDiff summary) = {["0x1111"]}.
Proof.
  intros w. split; [reflexivity|]. split; [discriminate|].
  assert (exists summary, (runForkTrace w sample_opts).1 = Resolved summary)
    as [summary Hs] by (vm_compute; eauto).
  exists summary. split; [exact Hs|].
  destruct (contract_creation_diffs_sender_only w sample_opts
              "ABCDEFGHIJKLMNOPQRSTUVWXYZ012345"
              {| transaction := {| e_from := Some "0x1111"; e_to := None |};
                 blockNumber := 100 |}
              "0x1111" eq_refl eq_refl eq_refl eq_refl eq_refl ltac:(discriminate))
    as (_ & _ & Hres).
  exact (proj2 (Hres summary Hs)).
Defined.

End OrchestratorFacts.


(** ** The retry protocol, for arbitrary answers *)

Module RetryProtocol.
Import Etherscan.

Section AnyAnswers.
Context {V : Type}.
Variable maxRetries : nat.
Variable retryDelay : Z.
Variable action : string.

(** Whatever the service answers, the loop consumes at most the attempts
    that are left and backs off after all but the last of them. *)
Lemma retry_loop_bounded (answers : list (AxiosOutcome V)) :
  forall attempt lastError,
    let r := retry_loop maxRetries retryDelay action answers attempt lastError in
    exists k,
      (attempts r.2 <= Nat.min (length answers) (maxRetries - attempt))%nat /\
      delays r.2 = backoff retryDelay <$> seq (S attempt) k /\
      (k <= maxRetries - 1 - attempt)%nat /\
      (k <= attempts r.2)%nat.
Proof.
  induction answers as [|a answers IH]; intros attempt lastError; cbn [retry_loop].
  - destruct (Nat.ltb_spec attempt maxRetries); exists 0%nat;
      cbn [snd attempts length]; repeat split; lia.
  - destruct (Nat.ltb_spec attempt maxRetries) as [Hlt|Hge].
    2:{ exists 0%nat. cbn [snd attempts length]. repeat split; lia. }
    destruct (attempt_once action a) as [e|v].
    2:{ exists 0%nat. cbn [snd attempts length]. repeat split; lia. }
    destruct (non_retriable e).
    { exists 0%nat. cbn [snd attempts length]. repeat split; lia. }
    destruct (IH (S attempt) (Some e)) as (k & H1 & H2 & H3 & H4).
    destruct (Nat.ltb_spec (S attempt) maxRetries) as [Hlt'|Hge'];
      destruct (retry_loop maxRetries retryDelay action answers (S attempt) (Some e))
        as [o evs]; cbn [snd attempts length] in *.
    + exists (S k). repeat split; try lia.
      change (delays (Attempt :: Delay (backoff retryDelay (S attempt)) :: evs))
        with (backoff retryDelay (S attempt) :: delays evs).
      rewrite H2. reflexivity.
    + assert (k = 0%nat) as -> by lia.
      exists 0%nat. repeat split; try lia.
      change (delays (Attempt :: evs)) with (delays evs).
      rewrite H2. reflexivity.
Qed.

(** When, and with what, the loop returns. *)
Lemma retry_loop_returns (answers : list (AxiosOutcome V)) (v : V) :
  forall attempt lastError,
    (retry_loop maxRetries retryDelay action answers attempt lastError).1 = Returned v ->
    exists fails ok rest,
      answers = fails ++ ok :: rest /\
      Forall (retried action) fails /\
      attempt_once action ok = inr v /\
      (attempt + length fails < maxRetries)%nat.
Proof.
  induction answers as [|a answers IH]; intros attempt lastError; cbn [retry_loop].
  - destruct (Nat.ltb_spec attempt maxRetries); [discriminate|].
    destruct lastError; discriminate.
  - destruct (Nat.ltb_spec attempt maxRetries) as [Hlt|Hge];
      [|destruct lastError; discriminate].
    destruct (attempt_once action a) as [e|v'] eqn:Ha.
    2:{ intros [= ->]. exists [], a, answers. simpl. repeat split; auto. lia. }
    destruct (non_retriable e) eqn:He; [discriminate|].
    assert ((retry_loop maxRetries retryDelay action answers (S attempt) (Some e)).1
            = Returned v ->
            exists fails ok rest,
              a :: answers = fails ++ ok :: rest /\
              Forall (retried action) fails /\
              attempt_once action ok = inr v /\
              (attempt + length fails < maxRetries)%nat) as Hrec.
    { intros H. destruct (IH _ _ H) as (fails & ok & rest & -> & Hf & Hok & Hlen).
      exists (a :: fails), ok, rest. repeat split; auto.
      - constructor; [exists e; auto|exact Hf].
      - simpl. lia. }
    destruct (Nat.ltb_spec (S attempt) maxRetries);
      destruct (retry_loop maxRetries retryDelay action answers (S attempt) (Some e));
      exact Hrec.
Qed.

(** When, and with what, the loop throws. *)
Lemma retry_loop_throws (answers : list (AxiosOutcome V)) (e : JsError) :
  forall attempt lastError,
    (attempt < maxRetries)%nat ->
    (retry_loop maxRetries retryDelay action answers attempt lastError).1 = Threw e ->
    exists fails r rest,
      answers = fails ++ r :: rest /\
      Forall (retried action) fails /\
      attempt_once action r = inl e /\
      (attempt + length fails < maxRetries)%nat /\
      (non_retriable e = true \/ S (attempt + length fails) = maxRetries).
Proof.
  induction answers as [|a answers IH]; intros attempt lastError Hlt; cbn [retry_loop].
  - destruct (Nat.ltb_spec attempt maxRetries); [discriminate|lia].
  - destruct (Nat.ltb_spec attempt maxRetries) as [_|?]; [|lia].
    destruct (attempt_once action a) as [e0|v'] eqn:Ha; [|discriminate].
    destruct (non_retriable e0) eqn:He.
    { intros [= ->]. exists [], a, answers. simpl. repeat split; auto. lia. }
    destruct (Nat.ltb_spec (S attempt) maxRetries) as [Hlt'|Hge'].
    + specialize (IH (S attempt) (Some e0) Hlt').
      destruct (retry_loop maxRetries retryDelay action answers (S attempt) (Some e0)).
      intros H. destruct (IH H) as (fails & r & rest & -> & Hf & Hr & Hlen & Hwhy).
      exists (a :: fails), r, rest. simpl. repeat split; auto.
      * constructor; [exists e0; auto|exact Hf].
      * lia.
      * destruct Hwhy; [auto|right; lia].
    + rewrite (EtherscanFacts.retry_loop_exhausted _ _ _ answers (S attempt) (Some e0) Hge').
      intros [= ->]. exists [], a, answers. simpl. repeat split; auto; [lia|right; lia].
Qed.

End AnyAnswers.

(** X1.  Whatever the service answers, one [_proxyCall] makes at most three
    attempts, never more than there are answers, and its back-offs are a
    prefix of 100 ms, 200 ms: at most 300 ms are spent waiting. *)
Theorem proxyCall_bounded {V} (action : string) (answers : list (AxiosOutcome V)) :
  let run := _proxyCall action answers in
  (attempts run.2 <= 3)%nat /\
  (attempts run.2 <= length answers)%nat /\
  delays run.2 `prefix_of` [100; 200] /\
  (length (delays run.2) <= attempts run.2)%nat.
Proof.
  intros run.
  destruct (retry_loop_bounded Constants.ETHERSCAN_MAX_RETRIES
              Constants.ETHERSCAN_RETRY_DELAY_MS action answers 0%nat None)
    as (k & H1 & H2 & H3 & H4).
  change (retry_loop _ _ action answers 0%nat None) with run in H1, H2, H4.
  unfold Constants.ETHERSCAN_MAX_RETRIES in *.
  repeat split; try lia.
  - rewrite H2. destruct k as [|[|[|k]]]; [| | |simpl in H3; lia].
    + exists [100; 200]. reflexivity.
    + exists [200]. reflexivity.
    + exists []. reflexivity.
  - rewrite H2, length_fmap, length_seq. exact H4.
Qed.

(** X2.  [_proxyCall] returns [v] exactly when, within its first three
    answers, the first answer that is not a retried failure is a valid
    result [v]. *)
Theorem proxyCall_returns_iff {V} (action : string) (answers : list (AxiosOutcome V))
    (v : V) :
  (_proxyCall action answers).1 = Returned v <->
  exists fails ok rest,
    answers = fails ++ ok :: rest /\
    Forall (retried action) fails /\
    attempt_once action ok = inr v /\
    (length fails < 3)%nat.
Proof.
  split.
  - intros H. apply retry_loop_returns in H. exact H.
  - intros (fails & ok & rest & -> & Hf & Hok & Hlen). unfold _proxyCall.
    rewrite (EtherscanFacts.retry_loop_then_success _ _ action fails ok v rest Hf Hok);
      [reflexivity|].
    unfold Constants.ETHERSCAN_MAX_RETRIES. lia.
Qed.

(** X3.  An error thrown by [_proxyCall] is always the error of one of its
    first three attempts, met after retried failures only: either that
    error is not retried, or it is the error of the third attempt.  The
    fallback error "Exceeded maximum retries" is never thrown. *)
Theorem proxyCall_throws_observed {V} (action : string) (answers : list (AxiosOutcome V))
    (e : JsError) :
  (_proxyCall action answers).1 = Threw e ->
  exists fails r rest,
    answers = fails ++ r :: rest /\
    Forall (retried action) fails /\
    attempt_once action r = inl e /\
    (length fails < 3)%nat /\
    (non_retriable e = true \/ length fails = 2%nat).
Proof.
  intros H. apply retry_loop_throws in H.
  - destruct H as (fails & r & rest & H1 & H2 & H3 & H4 & H5).
    exists fails, r, rest. unfold Constants.ETHERSCAN_MAX_RETRIES in *.
    split; [exact H1|]. split; [exact H2|]. split; [exact H3|].
    split; [lia|]. destruct H5; [auto|right; lia].
  - unfold Constants.ETHERSCAN_MAX_RETRIES. lia.
Qed.

Lemma proxyCall_throws_observed_witness :
  let answers := [http_503; rate_limit_answer; http_503; valid_answer 7] in
  (_proxyCall "eth_getBlockByNumber" answers).1
    = Threw (createNetworkError "HTTP 503 from Etherscan") /\
  exists fails r rest,
    answers = fails ++ r :: rest /\
    attempt_once "eth_getBlockByNumber" r
      = inl (createNetworkError "HTTP 503 from Etherscan") /\
    length fails = 2%nat.
Proof.
  intros answers.
  assert ((_proxyCall "eth_getBlockByNumber" answers).1
          = Threw (createNetworkError "HTTP 503 from Etherscan")) as H by reflexivity.
  split; [exact H|].
  destruct (proxyCall_throws_observed "eth_getBlockByNumber" answers _ H)
    as (fails & r & rest & H1 & _ & H3 & _ & [H5|H5]); [discriminate H5|].
  exists fails, r, rest. auto.
Defined.

End RetryProtocol.


(** ** The fork process manager: [kill] with a handle, [start] again *)

Module AnvilMore.
Import Anvil.

Lemma kill_settles m w force :
  proc (kill m w force).1 = None \/ _killed (kill m w force).1 = true.
Proof.
  unfold kill. destruct (proc m) as [c|] eqn:Hc; [|left; exact Hc].
  destruct (_killed m) eqn:Hk; [right; exact Hk|].
  destruct (child_kill c SIGINT w) as [c1 w1].
  destruct force.
  - destruct (child_kill c1 SIGKILL w1). right. reflexivity.
  - destruct (negb (killed c1)); [|right; reflexivity].
    destruct (child_kill c1 SIGKILL _). right. reflexivity.
Qed.

(** X4.  [kill] is idempotent on every manager, with or without a handle:
    a second call, forced or not, returns at once and changes neither the
    manager nor the machine, so it sends no further signal. *)
Theorem kill_idempotent (m : AnvilManager) (w : OS) (force force' : bool) :
  let r := kill m w force in
  kill r.1 r.2 force' = r.
Proof.
  intros r. destruct r as [m' w'] eqn:Hr. cbn [fst snd].
  pose proof (kill_settles m w force) as Hs. fold r in Hs. rewrite Hr in Hs.
  cbn [fst] in Hs. unfold kill.
  destruct Hs as [Hs|Hs].
  - rewrite Hs. reflexivity.
  - destruct (proc m'); [rewrite Hs|]; reflexivity.
Qed.

Lemma child_kill_live c sig w p :
  procs w !! pid c = Some p -> p_status p <> Killed ->
  child_kill c sig w =
    ({| pid := pid c; killed := true |},
     {| procs := <[pid c := {| p_args := p_args p; p_status := after_signal sig |}]> (procs w);
        signals := signals w ++ [(pid c, sig)];
        now := now w |}).
Proof.
  intros Hp Hs. unfold child_kill. rewrite Hp.
  destruct (p_status p); [reflexivity|reflexivity|congruence].
Qed.

Lemma child_kill_dead c sig w p :
  procs w !! pid c = Some p -> p_status p = Killed -> child_kill c sig w = (c, w).
Proof. intros Hp Hs. unfold child_kill. rewrite Hp, Hs. reflexivity. Qed.

(** X5.  A forced [kill] on a manager that holds the handle of a process
    that has not exited sends SIGINT and then SIGKILL to that process, one
    after the other and without waiting; the process is then dead and the
    manager reports not running.  The manager keeps the handle, now marked
    killed, and sets its own kill flag. *)
Theorem forced_kill_terminates m w c p :
  proc m = Some c -> _killed m = false ->
  procs w !! pid c = Some p -> p_status p <> Killed ->
  let r := kill m w true in
  signals r.2 = signals w ++ [(pid c, SIGINT); (pid c, SIGKILL)] /\
  status_of r.2 (pid c) = Some Killed /\
  now r.2 = now w /\
  isRunning r.1 = false /\
  proc r.1 = Some {| pid := pid c; killed := true |} /\
  _killed r.1 = true.
Proof.
  intros Hc Hk Hp Hs.
  assert (pid c < length (procs w))%nat as Hlt by (eapply lookup_lt_Some; exact Hp).
  unfold kill. rewrite Hc, Hk, (child_kill_live c SIGINT w p Hp Hs).
  erewrite (child_kill_live _ SIGKILL);
    [|cbn [procs pid]; apply list_lookup_insert_eq; exact Hlt|discriminate].
  cbv zeta. cbn [fst snd signals now procs pid p_args].
  split; [rewrite <- app_assoc; reflexivity|]. split.
  - unfold status_of. cbn [procs].
    rewrite list_lookup_insert_eq by (rewrite length_insert; exact Hlt). reflexivity.
  - repeat split.
Qed.

Lemma forced_kill_terminates_witness :
  let r := kill AnvilSamples.holding (AnvilSamples.one_process Running) true in
  proc AnvilSamples.holding = Some {| pid := 0; killed := false |} /\
  signals r.2 = [(0%nat, SIGINT); (0%nat, SIGKILL)] /\
  status_of r.2 0 = Some Killed.
Proof.
  split; [reflexivity|].
  destruct (forced_kill_terminates AnvilSamples.holding (AnvilSamples.one_process Running)
              {| pid := 0; killed := false |}
              {| p_args := ["--port"; "8545"]; p_status := Running |}
              eq_refl eq_refl eq_refl ltac:(discriminate))
    as (H1 & H2 & _).
  split; [exact H1|exact H2].
Defined.

Lemma kill_wait_skipped fuel deadline c w :
  killed c = true -> kill_wait fuel deadline c w = w.
Proof.
  intros Hc. destruct fuel; simpl; [reflexivity|].
  rewrite Hc, andb_false_r. reflexivity.
Qed.

(** X6.  A graceful [kill] on a manager that holds the handle of a process
    that has not exited sends SIGINT and nothing else: the delivery sets
    the handle's [killed] flag, so the call neither waits for the grace
    period nor escalates to SIGKILL, whether or not the process exits. *)
Theorem graceful_kill_only_interrupts m w c p :
  proc m = Some c -> _killed m = false ->
  procs w !! pid c = Some p -> p_status p <> Killed ->
  let r := kill m w false in
  signals r.2 = signals w ++ [(pid c, SIGINT)] /\
  status_of r.2 (pid c) = Some Interrupted /\
  now r.2 = now w /\
  proc r.1 = Some {| pid := pid c; killed := true |} /\
  _killed r.1 = true.
Proof.
  intros Hc Hk Hp Hs.
  assert (pid c < length (procs w))%nat as Hlt by (eapply lookup_lt_Some; exact Hp).
  unfold kill. rewrite Hc, Hk, (child_kill_live c SIGINT w p Hp Hs).
  cbv zeta. cbn [killed negb]. rewrite kill_wait_skipped by reflexivity.
  cbn [fst snd signals now procs proc _killed with_proc].
  split; [reflexivity|]. split.
  - unfold status_of. cbn [procs]. rewrite list_lookup_insert_eq by exact Hlt. reflexivity.
  - repeat split.
Qed.

Lemma graceful_kill_only_interrupts_witness :
  let r := kill AnvilSamples.holding (AnvilSamples.one_process Running) false in
  _killed AnvilSamples.holding = false /\
  signals r.2 = [(0%nat, SIGINT)] /\
  status_of r.2 0 = Some Interrupted /\
  now r.2 = 0.
Proof.
  split; [reflexivity|].
  destruct (graceful_kill_only_interrupts AnvilSamples.holding
              (AnvilSamples.one_process Running)
              {| pid := 0; killed := false |}
              {| p_args := ["--port"; "8545"]; p_status := Running |}
              eq_refl eq_refl eq_refl ltac:(discriminate))
    as (H1 & H2 & H3 & _).
  split; [exact H1|]. split; [exact H2|exact H3].
Defined.

Lemma kill_wait_full c : killed c = false ->
  forall fuel w,
    kill_wait fuel (now w + 100 * Z.of_nat fuel) c w = wait (100 * Z.of_nat fuel) w.
Proof.
  intros Hc. induction fuel as [|fuel IH]; intros w.
  - simpl. unfold wait. destruct w. simpl. f_equal. lia.
  - cbn [kill_wait]. rewrite Hc. cbn [negb]. rewrite andb_true_r.
    destruct (Z.ltb_spec (now w) (now w + 100 * Z.of_nat (S fuel))) as [_|?]; [|lia].
    replace (now w + 100 * Z.of_nat (S fuel))
      with (now (wait 100 w) + 100 * Z.of_nat fuel) by (simpl; lia).
    rewrite IH. unfold wait. simpl. f_equal. lia.
Qed.

(** X7.  A graceful [kill] on a manager whose process has already exited
    delivers no signal, so the handle's [killed] flag stays unset: the call
    polls for the whole grace period of 3000 ms before it returns, and its
    final SIGKILL is not delivered either. *)
Theorem kill_exited_process_waits m w c p :
  proc m = Some c -> _killed m = false -> killed c = false ->
  procs w !! pid c = Some p -> p_status p = Killed ->
  let r := kill m w false in
  signals r.2 = signals w /\
  procs r.2 = procs w /\
  now r.2 = now w + 3000 /\
  _killed r.1 = true.
Proof.
  intros Hc Hk Hkc Hp Hs.
  unfold kill. rewrite Hc, Hk, (child_kill_dead c SIGINT w p Hp Hs).
  cbv zeta. rewrite Hkc. cbn [negb].
  change (now w + Constants.ANVIL_KILL_TIMEOUT_MS) with (now w + 100 * Z.of_nat 30).
  change (Z.to_nat (Constants.ANVIL_KILL_TIMEOUT_MS / 100)) with 30%nat.
  rewrite (kill_wait_full c Hkc 30 w).
  rewrite (child_kill_dead c SIGKILL (wait (100 * Z.of_nat 30) w) p Hp Hs).
  cbn [fst snd]. repeat split.
Qed.

Lemma kill_exited_process_waits_witness :
  let r := kill AnvilSamples.holding (AnvilSamples.one_process Killed) false in
  proc AnvilSamples.holding = Some {| pid := 0; killed := false |} /\
  signals r.2 = [] /\
  now r.2 = 3000.
Proof.
  split; [reflexivity|].
  destruct (kill_exited_process_waits AnvilSamples.holding (AnvilSamples.one_process Killed)
              {| pid := 0; killed := false |}
              {| p_args := ["--port"; "8545"]; p_status := Killed |}
              eq_refl eq_refl eq_refl eq_refl eq_refl)
    as (H1 & _ & H3 & _).
  split; [exact H1|exact H3].
Defined.

(** X8.  A manager can be started once: after the spawn, at any point of
    the probe loop and whatever calls of [kill] have been made, another
    call of [start] throws "Anvil is already running" and spawns nothing. *)
Theorem start_only_once (port : Z) (args args' : list string) (w : OS)
    (schedule : list Action) :
  exists s0,
    start_begin (new port) args w = inr s0 /\
    start_begin (mgr (run s0 schedule)) args' (os (run s0 schedule))
      = inl (PlainError "Anvil is already running").
Proof.
  eexists. split; [reflexivity|].
  match goal with |- context [run ?s0 _] =>
    destruct (AnvilFacts.run_keeps_no_handle schedule s0 eq_refl) as (_ & H2 & _)
  end.
  unfold start_begin at 1. rewrite H2. reflexivity.
Qed.

Lemma run_finished answers : forall s e,
  st s = StartThrew e -> run s (Fetch <$> answers) = s.
Proof.
  induction answers as [|o answers IH]; intros s e Hs; [reflexivity|].
  change (run s (Fetch <$> o :: answers))
    with (run (step s (Fetch o)) (Fetch <$> answers)).
  assert (step s (Fetch o) = s) as -> by (unfold step; rewrite Hs; reflexivity).
  apply (IH s e Hs).
Qed.

Lemma probing_times_out answers : forall s i,
  st s = Probing i -> (i < maxAttempts)%nat ->
  (maxAttempts - i <= length answers)%nat ->
  Forall (λ o, o <> FetchOk) (take (maxAttempts - i) answers) ->
  let s' := run s (Fetch <$> answers) in
  st s' = StartThrew (start_timeout_error (mgr s)) /\
  now (os s') = now (os s) + delayMs * Z.of_nat (maxAttempts - i) /\
  mgr s' = mgr s /\
  procs (os s') = procs (os s) /\
  signals (os s') = signals (os s).
Proof.
  induction answers as [|o answers IH]; intros s i Hs Hi Hlen Hall.
  - simpl in Hlen. lia.
  - replace (maxAttempts - i)%nat with (S (maxAttempts - S i)) in Hall by lia.
    cbn [take] in Hall. apply Forall_cons in Hall as [Ho Hall].
    change (run s (Fetch <$> o :: answers))
      with (run (step s (Fetch o)) (Fetch <$> answers)).
    assert (step s (Fetch o) =
            {| mgr := mgr s; os := wait delayMs (os s); st := loop_head (mgr s) (S i) |})
      as -> by (unfold step; rewrite Hs; destruct o; [congruence|reflexivity..]).
    unfold loop_head. destruct (Nat.ltb_spec (S i) maxAttempts) as [Hlt|Hge].
    + destruct (IH {| mgr := mgr s; os := wait delayMs (os s); st := Probing (S i) |}
                  (S i) eq_refl Hlt) as (H1 & H2 & H3 & H4 & H5);
        [simpl in Hlen; lia|exact Hall|].
      cbv zeta in *. rewrite H1, H2, H3, H4, H5. cbn [mgr os now procs signals wait].
      repeat split. lia.
    + erewrite run_finished by reflexivity.
      cbn [mgr os st now procs signals wait].
      replace (maxAttempts - i)%nat with 1%nat by lia.
      repeat split.
Qed.

(** X9.  When none of the first 20 probes is answered ok, [start] throws a
    NETWORK_ERROR that names the port and 10000 ms, after exactly twenty
    waits of 500 ms.  It leaves the spawned process running, sends it no
    signal and keeps its handle, so the manager cannot be started again. *)
Theorem start_times_out (port : Z) (args : list string) (w : OS)
    (answers : list FetchOutcome) :
  (20 <= length answers)%nat ->
  Forall (λ o, o <> FetchOk) (take 20 answers) ->
  exists s,
    start (new port) args w answers = inr s /\
    st s = StartThrew
             (createNetworkError
                ("Anvil did not respond on port " +:+ Js.toString port
                   +:+ " within 10000ms")) /\
    now (os s) = now w + 10000 /\
    status_of (os s) (length (procs w)) = Some Running /\
    signals (os s) = signals w /\
    process (mgr s) = Some {| pid := length (procs w); killed := false |}.
Proof.
  intros Hlen Hall.
  set (m0 := {| port := port; proc := None; _killed := false;
                process := Some {| pid := length (procs w); killed := false |} |}).
  set (s0 := {| mgr := m0;
                os := {| procs := procs w ++ [{| p_args := args; p_status := Running |}];
                         signals := signals w; now := now w |};
                st := Probing 0 |}).
  assert (start_begin (new port) args w = inr s0) as Hbegin by reflexivity.
  destruct (probing_times_out answers s0 0%nat eq_refl) as (H1 & H2 & H3 & H4 & H5);
    [unfold maxAttempts; lia | unfold maxAttempts; simpl; lia | exact Hall |].
  exists (run s0 (Fetch <$> answers)).
  unfold start. rewrite Hbegin. split; [reflexivity|].
  unfold status_of.
  rewrite H1, H2, H3, H4, H5. subst s0 m0. cbn [mgr os now procs signals process].
  repeat split.
  rewrite lookup_app_r by reflexivity.
  rewrite Nat.sub_diag. reflexivity.
Qed.

Lemma start_times_out_witness :
  let answers := replicate 20 FetchRejects in
  (20 <= length answers)%nat /\
  exists s,
    start (new 8545) ["--port"; "8545"] idle answers = inr s /\
    now (os s) = 10000 /\
    status_of (os s) 0 = Some Running.
Proof.
  intros answers. split; [simpl; lia|].
  destruct (start_times_out 8545 ["--port"; "8545"] idle answers)
    as (s & H1 & _ & H3 & H4 & _).
  - simpl. lia.
  - repeat constructor; discriminate.
  - exists s. split; [exact H1|]. split; [exact H3|exact H4].
Defined.

End AnvilMore.


(** ** The replay executor: receipts and submissions *)

Module ReplayerMore.
Import Replayer.

(** X10.  Once the request has been submitted, the outcome is read off
    the receipt on both paths of the code.  When [wait()] resolves with a
    receipt, the status is "success" exactly for receipt status 1, the
    revert reason is "Transaction reverted" exactly for receipt status 0
    and absent otherwise, the hash is the receipt's [transactionHash] and
    no error is set.  When [wait()] is rejected with an error that carries
    a receipt, the outcome is "failed", the revert reason is the error's
    reason or else "Transaction execution reverted", the error is the
    error's short message and the hash is the receipt's [hash].  Gas and
    block number are the receipt's on either path. *)
Theorem outcome_of_submitted_request (c : Chain) (txHash : string) (mods : JsObject)
    (otx : TransactionResponse) (h : string) :
  getTransaction c txHash = Resolved (Some otx) ->
  sendTransaction c (modifiedTx otx mods) = Resolved h ->
  let result := (replayTransaction c txHash mods).1 in
  (forall r, wait_receipt c h = Resolved r ->
     exists o,
       result = Resolved o /\
       (status o = "success" <-> r_status r = Some 1) /\
       (status o = "failed" <-> r_status r <> Some 1) /\
       (revertReason o = Some "Transaction reverted" <-> r_status r = Some 0) /\
       (revertReason o = None <-> r_status r <> Some 0) /\
       gasUsed o = Js.toString <$> r_gasUsed r /\
       transactionHash o = r_transactionHash r /\
       blockNumber o = r_blockNumber r /\
       error o = None) /\
  (forall e r, wait_receipt c h = Rejected e -> receipt e = Some r ->
     exists o,
       result = Resolved o /\
       status o = "failed" /\
       revertReason o = Some (Js.or_default (reason e) "Transaction execution reverted") /\
       error o = shortMessage e /\
       gasUsed o = Js.toString <$> r_gasUsed r /\
       transactionHash o = r_hash r /\
       blockNumber o = r_blockNumber r).
Proof.
  intros H1 H2. cbv zeta. unfold replayTransaction. rewrite H1, H2. split.
  - intros r H3. rewrite H3. exists (from_receipt r).
    split; [reflexivity|]. unfold from_receipt.
    cbn [status revertReason gasUsed transactionHash blockNumber error].
    destruct (decide (r_status r = Some 1)) as [E1|E1];
      [rewrite (bool_decide_eq_true_2 _ E1)|rewrite (bool_decide_eq_false_2 _ E1)];
      (destruct (decide (r_status r = Some 0)) as [E0|E0];
       [rewrite (bool_decide_eq_true_2 _ E0)|rewrite (bool_decide_eq_false_2 _ E0)]);
      repeat split; try (intros; congruence); try discriminate;
        try (intros; exfalso; congruence).
  - intros e r H3 Hr. rewrite H3. cbn [fst]. unfold on_rejection. rewrite Hr.
    eexists. split; [reflexivity|]. repeat split.
Qed.

Lemma outcome_of_submitted_request_witness :
  getTransaction rejecting_chain "0xabc" = Resolved (Some sample_tx) /\
  sendTransaction rejecting_chain (modifiedTx sample_tx ∅) = Resolved "0xdef" /\
  exists o,
    (replayTransaction rejecting_chain "0xabc" ∅).1 = Resolved o /\
    status o = "failed" /\
    revertReason o = Some "Transaction execution reverted" /\
    error o = Some "transaction execution reverted".
Proof.
  split; [reflexivity|]. split; [reflexivity|].
  destruct (outcome_of_submitted_request rejecting_chain "0xabc" ∅ sample_tx "0xdef"
              eq_refl eq_refl) as [_ Hrej].
  destruct (Hrej revert_error (receipt_with 0) eq_refl eq_refl)
    as (o & Ho & Hs & Hr & He & _).
  exists o. split; [exact Ho|]. split; [exact Hs|]. split; [exact Hr|exact He].
Defined.

(** X11.  One replay hands at most one request to the wallet, and none
    exactly when the lookup of the original transaction is rejected or
    finds nothing.  A transaction the provider does not know makes the
    replay raise the untyped error of reading a property of null; it is
    not reported as a REPLAY_ERROR. *)
Theorem replay_submits_at_most_once (c : Chain) (txHash : string) (mods : JsObject) :
  let run := replayTransaction c txHash mods in
  (length run.2 <= 1)%nat /\
  (run.2 = [] <-> forall otx, getTransaction c txHash <> Resolved (Some otx)) /\
  (getTransaction c txHash = Resolved None ->
   run.1 = Rejected null_tx_error /\ type null_tx_error = None).
Proof.
  unfold replayTransaction.
  destruct (getTransaction c txHash) as [[otx|]|e] eqn:Hget.
  - destruct (sendTransaction c _) as [h|e]; [destruct (wait_receipt c h)|];
      cbn [fst snd length]; (split; [lia|]); (split; [|discriminate]);
      (split; [discriminate|intros H; exfalso; apply (H otx); reflexivity]).
  - cbn [fst snd length]. split; [lia|]. split; [split; [discriminate|reflexivity]|].
    intros _. split; reflexivity.
  - cbn [fst snd length]. split; [lia|]. split; [split; [discriminate|reflexivity]|].
    discriminate.
Qed.

Lemma replay_submits_at_most_once_witness :
  let c := {| getTransaction := λ _, Resolved None;
              sendTransaction := sendTransaction accepting_chain;
              wait_receipt := wait_receipt accepting_chain |} in
  getTransaction c "0xabc" = Resolved None /\
  (replayTransaction c "0xabc" ∅).1 = Rejected null_tx_error.
Proof.
  intros c. split; [reflexivity|].
  exact (proj1 (proj2 (proj2 (replay_submits_at_most_once c "0xabc" ∅)) eq_refl)).
Defined.

End ReplayerMore.


(** ** The state diff engine: when it returns, and what it depends on *)

Module DiffMore.
Import Diff DiffSpec.

Lemma fromEntries_lookup_inv {A} (entries : list (string * A)) (k : string) (v : A) :
  fromEntries entries !! k = Some v -> (k, v) ∈ entries.
Proof.
  unfold fromEntries.
  assert (forall acc : gmap string A,
            foldl (λ m kv, <[kv.1 := kv.2]> m) acc entries !! k = Some v ->
            (k, v) ∈ entries \/ acc !! k = Some v) as H.
  { induction entries as [|[k0 v0] rest IH]; intros acc Hl; [right; exact Hl|].
    simpl in Hl. destruct (IH _ Hl) as [Hin|Hacc]; [left; right; exact Hin|].
    destruct (decide (k0 = k)) as [->|Hne].
    - rewrite lookup_insert_eq in Hacc. injection Hacc as ->. left. left.
    - rewrite lookup_insert_ne in Hacc by exact Hne. right. exact Hacc. }
  intros Hl. destruct (H ∅ Hl) as [Hin|Hempty]; [exact Hin|].
  rewrite lookup_empty in Hempty. discriminate.
Qed.

Section WithHash.
Variable keccak256 : string -> string.

Lemma snapshot_answers p addr tag snap :
  getAccountSnapshot keccak256 p addr tag = Resolved snap -> answers_at p addr tag.
Proof.
  unfold getAccountSnapshot.
  intros (bal & Hb & (n & Hn & (code & Hc & (size & Hs & _)%DiffFacts.bind_Resolved)
    %DiffFacts.bind_Resolved)%DiffFacts.bind_Resolved)%DiffFacts.bind_Resolved.
  exists bal, n, code, size. auto.
Qed.

Lemma captureState_inv p tag addresses m k snap :
  captureState keccak256 p tag addresses = Resolved m ->
  m !! k = Some snap ->
  k ∈ addresses /\ getAccountSnapshot keccak256 p k tag = Resolved snap.
Proof.
  unfold captureState.
  intros (snaps & Hsnaps%DiffFacts.mapM_Resolved & [= <-])%DiffFacts.bind_Resolved Hl.
  apply fromEntries_lookup_inv in Hl.
  apply list_elem_of_fmap in Hl as (s' & [= -> ->] & Hs').
  apply list_elem_of_lookup in Hs' as [j Hj].
  destruct (Forall2_lookup_r _ _ _ _ _ Hsnaps Hj) as (addr' & Haddr' & Hget').
  destruct (DiffFacts.snapshot_fields _ _ _ _ _ Hget') as (? & ? & ? & _ & _ & _ & Ha & _).
  rewrite Ha. split; [|exact Hget'].
  apply list_elem_of_lookup. eauto.
Qed.

Lemma captureState_resolves p tag addresses m addr :
  captureState keccak256 p tag addresses = Resolved m ->
  addr ∈ addresses -> answers_at p addr tag.
Proof.
  intros Hm Hin.
  destruct (DiffFacts.captureState_lookup _ _ _ _ _ _ Hm Hin) as (snap & Hs & _).
  eapply snapshot_answers. exact Hs.
Qed.

(** The map returned by [diff], entry by entry. *)
Lemma diff_lookup_iff p fromTag toTag addresses result addr d :
  diff keccak256 p fromTag toTag addresses = Resolved result ->
  result !! addr = Some d <->
  addr ∈ addresses /\ direct_entry keccak256 p fromTag toTag addr = Resolved d.
Proof.
  intros Hdiff.
  assert (forall d', result !! addr = Some d' ->
            addr ∈ addresses /\
            direct_entry keccak256 p fromTag toTag addr = Resolved d') as Hfwd.
  { intros d' Hl. revert Hdiff. unfold diff.
    intros (b & Hb & (a & Ha & Hloop)%DiffFacts.bind_Resolved)%DiffFacts.bind_Resolved.
    destruct (DiffFacts.diff_loop_lookup _ _ _ _ _ _ _ Hloop Hl) as [Hempty|[Hin Hentry]];
      [rewrite lookup_empty in Hempty; discriminate|].
    split; [exact Hin|].
    destruct (DiffFacts.diff_entry_fields _ _ _ _ Hentry)
      as (sa & sb & za & zb & Hsa & Hsb & Hza & Hzb & ->).
    destruct (DiffFacts.captureState_lookup _ _ _ _ _ _ Hb Hin) as (sb' & Hgb & Hlb).
    destruct (DiffFacts.captureState_lookup _ _ _ _ _ _ Ha Hin) as (sa' & Hga & Hla).
    assert (sb' = sb) as -> by congruence. assert (sa' = sa) as -> by congruence.
    destruct (DiffFacts.snapshot_fields _ _ _ _ _ Hgb)
      as (balb & ? & ? & Hbb & _ & _ & _ & Hsbb & _).
    destruct (DiffFacts.snapshot_fields _ _ _ _ _ Hga)
      as (bala & ? & ? & Hba & _ & _ & _ & Hsba & _).
    rewrite Hsbb, JsFacts.BigInt_toString in Hzb. injection Hzb as <-.
    rewrite Hsba, JsFacts.BigInt_toString in Hza. injection Hza as <-.
    unfold direct_entry. rewrite Hgb. simpl. rewrite Hga. simpl.
    rewrite Hbb. simpl. rewrite Hba. reflexivity. }
  split; [apply Hfwd|].
  intros [Hin Hd].
  assert (addr ∈ dom result) as Hdom.
  { revert Hdiff. unfold diff.
    intros (b & Hb & (a & Ha & Hloop)%DiffFacts.bind_Resolved)%DiffFacts.bind_Resolved.
    rewrite (DiffFacts.diff_loop_dom _ _ _ _ _ Hloop). set_solver. }
  apply elem_of_dom in Hdom as [d' Hd'].
  destruct (Hfwd d' Hd') as [_ Hd'']. congruence.
Qed.

(** X12.  [diff] resolves exactly when the provider answers the balance,
    nonce and code queries, with well-formed code, for every requested
    address at both heights; the keys of the map are then exactly the
    requested addresses (for no address at all, the empty map). *)
Theorem diff_resolves_iff p fromTag toTag addresses :
  ((exists result, diff keccak256 p fromTag toTag addresses = Resolved result) <->
   (forall addr, addr ∈ addresses ->
      answers_at p addr fromTag /\ answers_at p addr toTag)) /\
  (forall result, diff keccak256 p fromTag toTag addresses = Resolved result ->
     forall addr, addr ∈ dom result <-> addr ∈ addresses).
Proof.
  split; [split|].
  - intros [result Hdiff] addr Hin. revert Hdiff. unfold diff.
    intros (b & Hb & (a & Ha & _)%DiffFacts.bind_Resolved)%DiffFacts.bind_Resolved.
    split; eapply captureState_resolves; eassumption.
  - intros Hall.
    destruct (DiffFacts.diff_returns keccak256 p fromTag toTag addresses Hall)
      as (result & Hres & _).
    eauto.
  - intros result Hdiff addr. rewrite elem_of_dom. split.
    + intros [d Hd]. apply (diff_lookup_iff _ _ _ _ _ _ _ Hdiff) in Hd. tauto.
    + intros Hin. revert Hdiff. unfold diff.
      intros (b & Hb & (a & Ha & Hloop)%DiffFacts.bind_Resolved)%DiffFacts.bind_Resolved.
      apply elem_of_dom. rewrite (DiffFacts.diff_loop_dom _ _ _ _ _ Hloop). set_solver.
Qed.

(** X13.  An address for which the provider gives the same balance, nonce
    and code at both heights (in particular when both heights are the
    same) has a diff entry with balance change 0, nonce change 0, code
    unchanged and two equal snapshots. *)
Theorem unchanged_account_has_zero_diff p fromTag toTag addresses result addr d :
  diff keccak256 p fromTag toTag addresses = Resolved result ->
  result !! addr = Some d ->
  getBalance p addr fromTag = getBalance p addr toTag ->
  getTransactionCount p addr fromTag = getTransactionCount p addr toTag ->
  getCode p addr fromTag = getCode p addr toTag ->
  balanceChange d = 0 /\ nonceChange d = 0 /\ codeChanged d = false /\
  before d = after d.
Proof.
  intros Hdiff Hl Hbal Hn Hcode.
  apply (diff_lookup_iff _ _ _ _ _ _ _ Hdiff) in Hl as [_ Hd].
  unfold direct_entry in Hd.
  apply DiffFacts.bind_Resolved in Hd as (b & Hb & Hd).
  apply DiffFacts.bind_Resolved in Hd as (a & Ha & Hd).
  apply DiffFacts.bind_Resolved in Hd as (balb & Hbb & Hd).
  apply DiffFacts.bind_Resolved in Hd as (bala & Hba & [= <-]).
  assert (a = b) as ->.
  { unfold getAccountSnapshot in Ha, Hb. rewrite <- Hbal, <- Hn, <- Hcode in Ha.
    congruence. }
  assert (bala = balb) as -> by congruence.
  cbn [balanceChange nonceChange codeChanged before after].
  rewrite bool_decide_eq_true_2 by reflexivity.
  repeat split; lia.
Qed.

(** X14.  Swapping the two heights negates the diff: whenever
    [diff(from, to)] resolves so does [diff(to, from)], with the same keys,
    and each entry has the snapshots exchanged, the opposite balance and
    nonce changes and the same code-changed flag. *)
Theorem diff_swapped_is_negated p fromTag toTag addresses result :
  diff keccak256 p fromTag toTag addresses = Resolved result ->
  exists result',
    diff keccak256 p toTag fromTag addresses = Resolved result' /\
    dom result' = dom result /\
    forall addr d, result !! addr = Some d ->
      exists d',
        result' !! addr = Some d' /\
        before d' = after d /\ after d' = before d /\
        balanceChange d' = - balanceChange d /\
        nonceChange d' = - nonceChange d /\
        codeChanged d' = codeChanged d.
Proof.
  intros Hdiff.
  assert (forall addr, addr ∈ addresses ->
            answers_at p addr toTag /\ answers_at p addr fromTag) as Hall.
  { intros addr Hin. revert Hdiff. unfold diff.
    intros (b & Hb & (a & Ha & _)%DiffFacts.bind_Resolved)%DiffFacts.bind_Resolved.
    split; eapply captureState_resolves; eassumption. }
  destruct (DiffFacts.diff_returns keccak256 p toTag fromTag addresses Hall)
    as (result' & Hres' & Hdom').
  exists result'. split; [exact Hres'|]. split.
  - rewrite Hdom'. revert Hdiff. unfold diff.
    intros (b & Hb & (a & Ha & Hloop)%DiffFacts.bind_Resolved)%DiffFacts.bind_Resolved.
    rewrite (DiffFacts.diff_loop_dom _ _ _ _ _ Hloop). set_solver.
  - intros addr d Hl.
    apply (diff_lookup_iff _ _ _ _ _ _ _ Hdiff) in Hl as [Hin Hd].
    unfold direct_entry in Hd.
    apply DiffFacts.bind_Resolved in Hd as (b & Hb & Hd).
    apply DiffFacts.bind_Resolved in Hd as (a & Ha & Hd).
    apply DiffFacts.bind_Resolved in Hd as (balb & Hbb & Hd).
    apply DiffFacts.bind_Resolved in Hd as (bala & Hba & [= <-]).
    eexists. split.
    + apply (diff_lookup_iff _ _ _ _ _ _ _ Hres'). split; [exact Hin|].
      unfold direct_entry. rewrite Ha. simpl. rewrite Hb. simpl.
      rewrite Hba. simpl. rewrite Hbb. reflexivity.
    + cbn [balanceChange nonceChange codeChanged before after].
      repeat split; try lia.
      destruct (decide (codeHash a = codeHash b)) as [E|E].
      * rewrite !bool_decide_eq_true_2 by congruence. reflexivity.
      * rewrite !bool_decide_eq_false_2 by congruence. reflexivity.
Qed.

(** X15.  The map returned by [diff] depends only on the set of requested
    addresses: asking for the same addresses in another order, or with
    repetitions, resolves to the same map. *)
Theorem diff_depends_on_address_set p fromTag toTag addresses addresses' result :
  (forall addr, addr ∈ addresses <-> addr ∈ addresses') ->
  diff keccak256 p fromTag toTag addresses = Resolved result ->
  diff keccak256 p fromTag toTag addresses' = Resolved result.
Proof.
  intros Hsame Hdiff.
  assert (forall addr, addr ∈ addresses' ->
            answers_at p addr fromTag /\ answers_at p addr toTag) as Hall.
  { intros addr Hin. apply Hsame in Hin. revert Hdiff. unfold diff.
    intros (b & Hb & (a & Ha & _)%DiffFacts.bind_Resolved)%DiffFacts.bind_Resolved.
    split; eapply captureState_resolves; eassumption. }
  destruct (DiffFacts.diff_returns keccak256 p fromTag toTag addresses' Hall)
    as (result' & Hres' & _).
  rewrite Hres'. f_equal. apply map_eq. intros addr.
  destruct (result' !! addr) as [d'|] eqn:E'; destruct (result !! addr) as [d|] eqn:E;
    try reflexivity.
  - apply (diff_lookup_iff _ _ _ _ _ _ _ Hres') in E' as [_ Hd'].
    apply (diff_lookup_iff _ _ _ _ _ _ _ Hdiff) in E as [_ Hd]. congruence.
  - apply (diff_lookup_iff _ _ _ _ _ _ _ Hres') in E' as [Hin Hd'].
    assert (result !! addr = Some d') as Hr
      by (apply (diff_lookup_iff _ _ _ _ _ _ _ Hdiff); split; [apply Hsame|]; assumption).
    congruence.
  - apply (diff_lookup_iff _ _ _ _ _ _ _ Hdiff) in E as [Hin Hd].
    assert (result' !! addr = Some d) as Hr
      by (apply (diff_lookup_iff _ _ _ _ _ _ _ Hres'); split; [apply Hsame|]; assumption).
    congruence.
Qed.

(** X16.  A resolved [captureState] maps exactly the requested addresses,
    each to the snapshot taken for it at that height, and every snapshot
    records its own key as its address. *)
Theorem captureState_keys_and_values p tag addresses m :
  captureState keccak256 p tag addresses = Resolved m ->
  (forall k, k ∈ dom m <-> k ∈ addresses) /\
  (forall k snap, m !! k = Some snap ->
     address snap = k /\ getAccountSnapshot keccak256 p k tag = Resolved snap).
Proof.
  intros Hm. split.
  - intros k. rewrite elem_of_dom. split.
    + intros [snap Hs]. apply (captureState_inv _ _ _ _ _ _ Hm Hs).
    + intros Hin.
      destruct (DiffFacts.captureState_lookup _ _ _ _ _ _ Hm Hin) as (snap & _ & Hl).
      eauto.
  - intros k snap Hs. destruct (captureState_inv _ _ _ _ _ _ Hm Hs) as [_ Hget].
    split; [|exact Hget].
    destruct (DiffFacts.snapshot_fields _ _ _ _ _ Hget) as (? & ? & ? & _ & _ & _ & Ha & _).
    exact Ha.
Qed.

End WithHash.

Lemma sample_answers addr tag : answers_at sample_provider addr tag.
Proof. eexists _, 3, "0x", 0. repeat split. Qed.

Lemma sample_entry fromTag toTag :
  exists result d,
    diff id sample_provider fromTag toTag ["0xaaaa"; "0xbbbb"] = Resolved result /\
    result !! "0xaaaa" = Some d.
Proof.
  destruct (DiffFacts.diff_returns id sample_provider fromTag toTag ["0xaaaa"; "0xbbbb"])
    as (result & Hres & Hdom); [intros addr _; split; apply sample_answers|].
  assert (is_Some (result !! "0xaaaa")) as [d Hd]
    by (apply elem_of_dom; rewrite Hdom; set_solver).
  eauto.
Qed.

Lemma diff_resolves_iff_witness :
  exists result,
    diff id sample_provider (TagNumber 99) (TagNumber 100) ["0xaaaa"; "0xbbbb"]
      = Resolved result /\
    forall addr, addr ∈ dom result <-> addr ∈ ["0xaaaa"; "0xbbbb"].
Proof.
  destruct (diff_resolves_iff id sample_provider (TagNumber 99) (TagNumber 100)
              ["0xaaaa"; "0xbbbb"]) as [[_ Hres] Hkeys].
  destruct Hres as [result Hresult]; [intros addr _; split; apply sample_answers|].
  exists result. split; [exact Hresult|]. apply Hkeys. exact Hresult.
Defined.

Lemma unchanged_account_has_zero_diff_witness :
  exists result d,
    diff id sample_provider (TagNumber 100) (TagNumber 100) ["0xaaaa"; "0xbbbb"]
      = Resolved result /\
    result !! "0xaaaa" = Some d /\
    balanceChange d = 0 /\ nonceChange d = 0 /\ codeChanged d = false.
Proof.
  destruct (sample_entry (TagNumber 100) (TagNumber 100)) as (result & d & Hres & Hd).
  exists result, d. split; [exact Hres|]. split; [exact Hd|].
  destruct (unchanged_account_has_zero_diff id sample_provider _ _ _ _ _ _ Hres Hd
              eq_refl eq_refl eq_refl) as (H1 & H2 & H3 & _).
  auto.
Defined.

Lemma diff_swapped_is_negated_witness :
  exists result d result' d',
    diff id sample_provider (TagNumber 99) (TagNumber 100) ["0xaaaa"; "0xbbbb"]
      = Resolved result /\
    result !! "0xaaaa" = Some d /\
    diff id sample_provider (TagNumber 100) (TagNumber 99) ["0xaaaa"; "0xbbbb"]
      = Resolved result' /\
    result' !! "0xaaaa" = Some d' /\
    balanceChange d' = - balanceChange d.
Proof.
  destruct (sample_entry (TagNumber 99) (TagNumber 100)) as (result & d & Hres & Hd).
  destruct (diff_swapped_is_negated id sample_provider _ _ _ _ Hres)
    as (result' & Hres' & _ & Hentries).
  destruct (Hentries _ _ Hd) as (d' & Hd' & _ & _ & Hbal & _).
  exists result, d, result', d'. auto.
Defined.

Lemma diff_depends_on_address_set_witness :
  exists result,
    diff id sample_provider (TagNumber 99) (TagNumber 100) ["0xaaaa"; "0xbbbb"]
      = Resolved result /\
    diff id sample_provider (TagNumber 99) (TagNumber 100) ["0xbbbb"; "0xaaaa"; "0xaaaa"]
      = Resolved result.
Proof.
  destruct (sample_entry (TagNumber 99) (TagNumber 100)) as (result & _ & Hres & _).
  exists result. split; [exact Hres|].
  apply (diff_depends_on_address_set id sample_provider _ _ ["0xaaaa"; "0xbbbb"]);
    [|exact Hres].
  intros addr. set_solver.
Defined.

Lemma captureState_keys_and_values_witness :
  exists m,
    captureState id sample_provider (TagNumber 99) ["0xaaaa"; "0xaaaa"] = Resolved m /\
    forall k, k ∈ dom m <-> k ∈ ["0xaaaa"; "0xaaaa"].
Proof.
  eexists. split; [reflexivity|].
  apply (captureState_keys_and_values id sample_provider (TagNumber 99)
           ["0xaaaa"; "0xaaaa"]).
  reflexivity.
Defined.

End DiffMore.


(** ** The orchestrator: order of the calls, cleanup, optional steps *)

Module OrchestratorMore.
Import Orchestrator OrchestratorSpec.

Lemma kills_app l l' : kills (l ++ l') = (kills l + kills l')%nat.
Proof. unfold kills. rewrite List.filter_app, length_app. reflexivity. Qed.

Lemma starts_app l l' : starts (l ++ l') = (starts l + starts l')%nat.
Proof. unfold starts. rewrite List.filter_app, length_app. reflexivity. Qed.

Lemma stages_counts w opts txData :
  kills (stages w opts txData) = 0%nat /\ starts (stages w opts txData) = 1%nat.
Proof.
  unfold stages, ai_log, save_log, export_log. cbv zeta.
  rewrite !kills_app, !starts_app.
  destruct (ai opts);
    (destruct (saveState opts) as [name|]; [destruct (Js.truthy_string name)|]);
    (destruct (export opts) as [formats|]; [destruct (Js.truthy_string formats)|]);
    split; reflexivity.
Qed.

Lemma task_bind_rejected {A B} (t : Task A) (f : A -> Task B) (e : JsError) :
  (t ≫= f).1 = Rejected e ->
  (t.1 = Rejected e /\ (t ≫= f).2 = t.2) \/
  (exists a, t.1 = Resolved a /\ (f a).1 = Rejected e /\ (t ≫= f).2 = t.2 ++ (f a).2).
Proof.
  unfold mbind, task_mbind, task_bind. destruct t as [[a|e'] evs]; cbn [fst snd].
  - intros H. right. exists a. auto.
  - intros [= ->]. left. auto.
Qed.

(** One more step in front of a task that follows its calls. *)
Lemma follows_bind {A B} (s : Task A) (f : A -> Task B) (log calls : list Event) :
  s.2 = log ->
  (forall a, s.1 = Resolved a -> follows (f a) calls) ->
  follows (s ≫= f) (log ++ calls).
Proof.
  intros Hlog Hf. split.
  - intros b Hb.
    apply OrchestratorFacts.task_bind_resolved in Hb as (a & Ha & Hfa).
    rewrite (OrchestratorFacts.task_bind_events_resolved _ _ _ Ha), Hlog.
    destruct (Hf a Ha) as [Hres _]. rewrite (Hres b Hfa), app_assoc. reflexivity.
  - intros e He. apply task_bind_rejected in He as [[_ ->]|(a & Ha & Hfa & ->)].
    + rewrite Hlog. apply prefix_app_r. reflexivity.
    + rewrite Hlog. apply prefix_app. destruct (Hf a Ha) as [_ Hrej]. apply (Hrej e Hfa).
Qed.

Lemma ai_step_log w opts r : (ai_step w opts r).2 = ai_log opts.
Proof.
  unfold ai_step, ai_log. destruct (ai opts); [destruct (analyzeTrace w r)|]; reflexivity.
Qed.

Lemma save_step_log w opts : (save_step w opts).2 = save_log opts.
Proof.
  unfold save_step, save_log.
  destruct (saveState opts) as [name|]; [destruct (Js.truthy_string name)|]; reflexivity.
Qed.

Lemma export_step_log w opts r ch a : (export_step w opts r ch a).2 = export_log opts.
Proof.
  unfold export_step, export_log.
  destruct (export opts) as [formats|]; [destruct (Js.truthy_string formats)|];
    try reflexivity.
  unfold mbind, task_mbind, task_bind, await. cbn [fst snd].
  destruct (export_reports w _ _); reflexivity.
Qed.

(** The fork stage makes its calls in the order of [stages]. *)
Lemma with_fork_follows w opts txData :
  follows (with_fork w opts txData) (stages w opts txData).
Proof.
  unfold with_fork, stages. cbv zeta.
  apply (follows_bind _ _ [_]); [reflexivity|intros _ _].
  apply (follows_bind _ _ [_]); [reflexivity|intros _ _].
  apply (follows_bind _ _ [_]); [reflexivity|intros r _].
  apply (follows_bind _ _ [_]); [reflexivity|intros ch _].
  apply follows_bind; [apply ai_step_log|intros a _].
  apply follows_bind; [apply save_step_log|intros _ _].
  rewrite <- (app_nil_r (export_log opts)).
  apply follows_bind; [apply export_step_log|intros x _].
  split.
  - intros s _. reflexivity.
  - intros e. discriminate.
Qed.

(** X17.  A run that makes any outside call at all was given a
    well-formed hash, [0x] followed by 64 hexadecimal digits: for every
    other hash [runForkTrace] rejects before the first call. *)
Theorem calls_only_for_wellformed_hash (w : World) (opts : Opts) :
  (runForkTrace w opts).2 <> [] ->
  exists digits,
    txHash opts = "0x" +:+ digits /\
    String.length digits = 64%nat /\
    Js.all_hex digits = true.
Proof.
  unfold runForkTrace.
  destruct (Validators.validateTransactionHash (txHash opts)) eqn:Hv;
    [|intros H; exfalso; apply H; reflexivity].
  intros _. unfold Validators.validateTransactionHash in Hv.
  destruct (txHash opts) as [|c0 tl]; [discriminate|].
  destruct c0 as [[] [] [] [] [] [] [] []]; try discriminate.
  destruct tl as [|c1 digits]; [discriminate|].
  destruct c1 as [[] [] [] [] [] [] [] []]; try discriminate.
  apply andb_true_iff in Hv as [Hlen Hhex].
  exists digits. split; [reflexivity|]. split; [|exact Hhex].
  apply Nat.eqb_eq. exact Hlen.
Qed.

Lemma calls_only_for_wellformed_hash_witness :
  (runForkTrace (sample_world None) sample_opts).2 <> [] /\
  exists digits,
    txHash sample_opts = "0x" +:+ digits /\ String.length digits = 64%nat.
Proof.
  assert ((runForkTrace (sample_world None) sample_opts).2 <> []) as H
    by (vm_compute; discriminate).
  split; [exact H|].
  destruct (calls_only_for_wellformed_hash _ _ H) as (digits & H1 & H2 & _).
  eauto.
Defined.

Lemma runForkTrace_not_fetched w opts apiKey e :
  Validators.validateTransactionHash (txHash opts) = true ->
  getEtherscanApiKey w = Resolved apiKey ->
  getTransactionData w apiKey (txHash opts) = Rejected e ->
  runForkTrace w opts = (Rejected e, [FetchTransaction (txHash opts)]).
Proof.
  intros Hvalid Hkey Hdata. unfold runForkTrace. rewrite Hvalid. cbn [negb].
  unfold lift, await. rewrite Hkey.
  unfold mbind at 1, task_mbind, task_bind. cbn [fst snd app].
  rewrite Hdata.
  unfold mbind at 1, task_mbind, task_bind. cbn [fst snd app].
  reflexivity.
Qed.

(** X18.  In every run [anvil.kill()] is called exactly as often as
    [anvil.start()], and that is at most once; when [start] was called, the
    call of [kill] is the last call of the run, on success and on failure
    alike.  (What a call of [kill] does to the process is the fork
    manager's matter.) *)
Theorem kill_called_once_per_start (w : World) (opts : Opts) :
  let t := runForkTrace w opts in
  kills t.2 = starts t.2 /\
  (starts t.2 <= 1)%nat /\
  (starts t.2 = 1%nat -> last t.2 = Some AnvilKill).
Proof.
  intros t. subst t.
  destruct (Validators.validateTransactionHash (txHash opts)) eqn:Hv.
  2:{ unfold runForkTrace. rewrite Hv. cbn. repeat split; [lia|discriminate]. }
  destruct (getEtherscanApiKey w) as [apiKey|e] eqn:Hkey.
  2:{ unfold runForkTrace. rewrite Hv, Hkey. cbn. repeat split; [lia|discriminate]. }
  destruct (getTransactionData w apiKey (txHash opts)) as [txData|e] eqn:Hdata.
  2:{ rewrite (runForkTrace_not_fetched _ _ _ _ Hv Hkey Hdata). cbn.
      repeat split; [lia|discriminate]. }
  rewrite (OrchestratorFacts.runForkTrace_fetched _ _ _ _ Hv Hkey Hdata). cbn [fst snd].
  destruct (stages_counts w opts txData) as [Hk Hs].
  destruct (with_fork_follows w opts txData) as [Hres Hrej].
  unfold cleanup.
  destruct (with_fork w opts txData) as [[summary|e] evs] eqn:Hwf; cbn [fst snd] in *.
  - rewrite (Hres summary eq_refl).
    change (FetchTransaction (txHash opts) :: stages w opts txData ++ [AnvilKill])
      with ([FetchTransaction (txHash opts)] ++ stages w opts txData ++ [AnvilKill]).
    rewrite !kills_app, !starts_app, Hk, Hs. cbn. repeat split; try lia.
    intros _. rewrite app_comm_cons, last_snoc. reflexivity.
  - destruct (Hrej e eq_refl) as [k Hpre].
    destruct (OrchestratorFacts.with_fork_starts_fork w opts txData) as [rest Hfirst].
    rewrite Hwf in Hfirst. cbn [snd] in Hfirst.
    assert (kills evs = 0%nat /\ starts evs = 1%nat) as [Hke Hse].
    { pose proof (f_equal kills Hpre) as Hk'. pose proof (f_equal starts Hpre) as Hs'.
      rewrite kills_app in Hk'. rewrite starts_app in Hs'.
      assert (1 <= starts evs)%nat by (rewrite Hfirst; cbn; lia).
      lia. }
    change (FetchTransaction (txHash opts) :: evs ++ [AnvilKill])
      with ([FetchTransaction (txHash opts)] ++ evs ++ [AnvilKill]).
    rewrite !kills_app, !starts_app, Hke, Hse. cbn. repeat split; try lia.
    intros _. rewrite app_comm_cons, last_snoc. reflexivity.
Qed.

(** X19.  A run that resolves has made, in this order and nothing else:
    the fetch, the fork start, the connection check, the replay, the state
    diff, then the optional analysis, state snapshot and export that the
    options select, and last the kill. *)
Theorem successful_run_sequence w opts apiKey txData summary :
  Validators.validateTransactionHash (txHash opts) = true ->
  getEtherscanApiKey w = Resolved apiKey ->
  getTransactionData w apiKey (txHash opts) = Resolved txData ->
  (runForkTrace w opts).1 = Resolved summary ->
  (runForkTrace w opts).2 =
    FetchTransaction (txHash opts) :: stages w opts txData ++ [AnvilKill].
Proof.
  intros Hv Hkey Hdata.
  rewrite (OrchestratorFacts.runForkTrace_fetched _ _ _ _ Hv Hkey Hdata). cbn [fst snd].
  rewrite OrchestratorFacts.cleanup_result. intros Hs.
  destruct (with_fork_follows w opts txData) as [Hres _].
  unfold cleanup. rewrite Hs. f_equal. apply (Hres summary Hs).
Qed.

Lemma successful_run_sequence_witness :
  let w := sample_world (Some "0x2222") in
  Validators.validateTransactionHash (txHash sample_opts) = true /\
  exists request,
    (runForkTrace w sample_opts).2 =
      [FetchTransaction sample_hash;
       AnvilStart 8545 (start_args "http://127.0.0.1:9545" 99 8545);
       Connect;
       Replay sample_hash [request];
       StateDiff (Diff.TagNumber 99) (Diff.TagNumber 100) ["0x1111"; "0x2222"];
       AnvilKill].
Proof.
  intros w. split; [reflexivity|].
  assert (exists summary, (runForkTrace w sample_opts).1 = Resolved summary)
    as [summary Hs] by (vm_compute; eauto).
  eexists.
  rewrite (successful_run_sequence w sample_opts "ABCDEFGHIJKLMNOPQRSTUVWXYZ012345"
             {| transaction := {| e_from := Some "0x1111"; e_to := Some "0x2222" |};
                blockNumber := 100 |} summary eq_refl eq_refl eq_refl Hs).
  reflexivity.
Defined.

(** X20.  A run that fails after the fetch has made the calls of the
    stages up to the failing one, at least the fork start, and then the
    kill: no later stage is called. *)
Theorem failed_run_stops_and_cleans_up w opts apiKey txData e :
  Validators.validateTransactionHash (txHash opts) = true ->
  getEtherscanApiKey w = Resolved apiKey ->
  getTransactionData w apiKey (txHash opts) = Resolved txData ->
  (runForkTrace w opts).1 = Rejected e ->
  exists done rest,
    (runForkTrace w opts).2 = FetchTransaction (txHash opts) :: done ++ [AnvilKill] /\
    stages w opts txData = done ++ rest /\
    done <> [] /\
    (with_fork w opts txData).1 = Rejected e.
Proof.
  intros Hv Hkey Hdata.
  rewrite (OrchestratorFacts.runForkTrace_fetched _ _ _ _ Hv Hkey Hdata). cbn [fst snd].
  rewrite OrchestratorFacts.cleanup_result. intros He.
  destruct (with_fork_follows w opts txData) as [_ Hrej].
  destruct (Hrej e He) as [rest Hrest].
  destruct (OrchestratorFacts.with_fork_starts_fork w opts txData) as [tl Hfirst].
  exists (with_fork w opts txData).2, rest.
  unfold cleanup. rewrite He. cbn [snd].
  split; [reflexivity|]. split; [exact Hrest|].
  split; [rewrite Hfirst; discriminate|reflexivity].
Qed.

Lemma failed_run_stops_and_cleans_up_witness :
  let w := failing_start_world in
  Validators.validateTransactionHash (txHash sample_opts) = true /\
  (runForkTrace w sample_opts).1
    = Rejected (createNetworkError "Anvil did not respond on port 8545 within 10000ms") /\
  exists done,
    (runForkTrace w sample_opts).2 = FetchTransaction sample_hash :: done ++ [AnvilKill] /\
    done <> [].
Proof.
  intros w. split; [reflexivity|].
  assert ((runForkTrace w sample_opts).1
          = Rejected (createNetworkError "Anvil did not respond on port 8545 within 10000ms"))
    as He by reflexivity.
  split; [exact He|].
  destruct (failed_run_stops_and_cleans_up w sample_opts "ABCDEFGHIJKLMNOPQRSTUVWXYZ012345"
              {| transaction := {| e_from := Some "0x1111"; e_to := Some "0x2222" |};
                 blockNumber := 100 |} _ eq_refl eq_refl eq_refl He)
    as (done & rest & Hlog & _ & Hne & _).
  exists done. split; [exact Hlog|exact Hne].
Defined.




(** X22.  When an export is requested, the exporter receives the hash, the
    replay result, the analysis and a diff map with the keys of the state
    diff; each entry carries the diff itself and its balance change as a
    decimal string that reads back, as a big integer, to exactly that
    balance change. *)
Theorem exported_diff_reads_back w opts r (ch : gmap string Diff.AccountDiff) a formats :
  export opts = Some formats ->
  Js.truthy_string formats = true ->
  exists data,
    export_step w opts r ch a =
      (match export_reports w data (split_comma formats) with
       | Resolved x => Resolved (Some x)
       | Rejected e => Rejected e
       end,
       [Export (split_comma formats)]) /\
    x_txHash data = txHash opts /\
    x_replayResult data = r /\
    x_aiAnalysis data = a /\
    dom (x_stateDiff data) = dom ch /\
    (forall k s, x_stateDiff data !! k = Some s ->
       ch !! k = Some (changes s) /\
       Js.BigInt (balanceChangeString s) = Some (Diff.balanceChange (changes s))).
Proof.
  intros Hexp Htruthy. unfold export_step. rewrite Hexp, Htruthy. cbv zeta.
  exists {| x_txHash := txHash opts; x_replayResult := r;
            x_stateDiff :=
              (λ d, {| changes := d;
                       balanceChangeString := Js.toString (Diff.balanceChange d) |})
                <$> ch;
            x_aiAnalysis := a |}.
  split.
  - unfold mbind, task_mbind, task_bind, await, mret, task_mret, task_ret.
    cbn [fst snd]. destruct (export_reports w _ _); reflexivity.
  - cbv zeta. cbn [x_txHash x_replayResult x_aiAnalysis x_stateDiff].
    split; [reflexivity|]. split; [reflexivity|]. split; [reflexivity|].
    split; [apply dom_fmap_L|].
    intros k s Hk. rewrite lookup_fmap in Hk.
    destruct (ch !! k) as [d|]; [|discriminate]. injection Hk as <-.
    cbn [changes balanceChangeString]. split; [reflexivity|].
    apply JsFacts.BigInt_toString.
Qed.

Lemma exported_diff_reads_back_witness :
  export exporting_opts = Some "json,md" /\
  exists data,
    (export_step (sample_world None) exporting_opts
       (Replayer.from_receipt (Replayer.receipt_with 1)) ∅ None).2
      = [Export ["json"; "md"]] /\
    x_txHash data = sample_hash.
Proof.
  split; [reflexivity|].
  destruct (exported_diff_reads_back (sample_world None) exporting_opts
              (Replayer.from_receipt (Replayer.receipt_with 1)) ∅ None "json,md"
              eq_refl eq_refl) as (data & Hstep & Hhash & _).
  exists data. split; [rewrite Hstep; reflexivity|exact Hhash].
Defined.

Lemma split_comma_nonempty s : split_comma s <> [].
Proof.
  destruct s as [|c s]; simpl; [discriminate|].
  destruct (Ascii.eqb c ","); [discriminate|].
  destruct (split_comma s); discriminate.
Qed.

Lemma join_comma_cons c h t :
  join_comma (String c h :: t) = String c (join_comma (h :: t)).
Proof. destruct t; reflexivity. Qed.

(** [s.split(',')] has one piece more than [s] has commas, no piece
    contains a comma, and joining the pieces with commas gives [s] back. *)
Lemma split_comma_pieces (s : string) :
  join_comma (split_comma s) = s /\
  length (split_comma s) = S (commas s) /\
  Forall (λ piece, has_comma piece = false) (split_comma s).
Proof.
  induction s as [|c s (IHj & IHl & IHc)]; [repeat split; repeat constructor|].
  cbn [split_comma commas].
  destruct (Ascii.eqb_spec c ",") as [->|Hne].
  - split; [|split].
    + destruct (split_comma s) as [|h t] eqn:E;
        [exfalso; exact (split_comma_nonempty s E)|].
      change (join_comma (EmptyString :: h :: t))
        with (EmptyString +:+ String "," (join_comma (h :: t))).
      rewrite IHj. reflexivity.
    + cbn [length]. rewrite IHl. reflexivity.
    + constructor; [reflexivity|exact IHc].
  - destruct (split_comma s) as [|h t] eqn:E;
      [exfalso; exact (split_comma_nonempty s E)|].
    split; [|split].
    + rewrite join_comma_cons, IHj. reflexivity.
    + cbn [length] in *. rewrite IHl. reflexivity.
    + apply Forall_cons in IHc as [Hh Ht]. constructor; [|exact Ht].
      cbn [has_comma]. rewrite Hh.
      destruct (Ascii.eqb_spec c ","); [congruence|reflexivity].
Qed.

(** X23.  The exporter is only called for an [export] option that is not
    empty, and the formats it is given are the comma-separated pieces of
    that option: joined with commas they give the option back, there is
    one more of them than the option has commas, and none contains a
    comma. *)
Theorem export_formats_are_option_pieces w opts r
    (ch : gmap string Diff.AccountDiff) a (formats : list string) :
  Export formats ∈ (export_step w opts r ch a).2 ->
  exists option_value,
    export opts = Some option_value /\
    Js.truthy_string option_value = true /\
    join_comma formats = option_value /\
    length formats = S (commas option_value) /\
    Forall (λ piece, has_comma piece = false) formats.
Proof.
  unfold export_step.
  destruct (export opts) as [value|]; [|intros []%elem_of_nil].
  destruct (Js.truthy_string value) eqn:Htruthy; [|intros []%elem_of_nil].
  cbv zeta. unfold mbind, task_mbind, task_bind, await. cbn [fst snd].
  intros Hin.
  assert (formats = split_comma value) as ->.
  { destruct (export_reports w _ _); cbn [fst snd app] in Hin;
      apply list_elem_of_singleton in Hin; congruence. }
  exists value. split; [reflexivity|]. split; [exact Htruthy|].
  apply split_comma_pieces.
Qed.

Lemma export_formats_are_option_pieces_witness :
  Export ["json"; "md"]
    ∈ (export_step (sample_world None) exporting_opts
         (Replayer.from_receipt (Replayer.receipt_with 1)) ∅ None).2 /\
  join_comma ["json"; "md"] = "json,md".
Proof.
  assert (Export ["json"; "md"]
            ∈ (export_step (sample_world None) exporting_opts
                 (Replayer.from_receipt (Replayer.receipt_with 1)) ∅ None).2) as Hin
    by (apply list_elem_of_singleton; reflexivity).
  split; [exact Hin|].
  destruct (export_formats_are_option_pieces _ _ _ _ _ _ Hin)
    as (value & Hopt & _ & Hjoin & _).
  injection Hopt as <-. exact Hjoin.
Defined.

(** X24.  For a transaction whose sender is also its recipient the diff is
    requested with that address twice, and the returned map has this one
    key. *)
Theorem self_transfer_has_one_entry w opts apiKey txData account :
  Validators.validateTransactionHash (txHash opts) = true ->
  getEtherscanApiKey w = Resolved apiKey ->
  getTransactionData w apiKey (txHash opts) = Resolved txData ->
  e_from (transaction txData) = Some account ->
  e_to (transaction txData) = Some account ->
  account <> EmptyString ->
  let t := runForkTrace w opts in
  (forall f t' l, StateDiff f t' l ∈ t.2 -> l = [account; account]) /\
  (forall summary, t.1 = Resolved summary -> dom (stateDiff summary) = {[account]}).
Proof.
  intros Hvalid Hkey Hdata Hfrom Hto Hne t.
  destruct (OrchestratorFacts.runForkTrace_fork_and_diff w opts apiKey txData
              Hvalid Hkey Hdata) as (_ & Hdiff & Hres).
  assert (filter_Boolean [e_from (transaction txData); e_to (transaction txData)]
          = [account; account]) as Haddr.
  { rewrite Hto, Hfrom. unfold filter_Boolean. simpl.
    destruct account; [congruence|reflexivity]. }
  rewrite Haddr in Hdiff, Hres. split.
  - intros f t' l Hin. apply (Hdiff f t' l Hin).
  - intros summary Hs. destruct (Hres summary Hs) as [_ Hdom].
    rewrite Hdom. set_solver.
Qed.

Lemma self_transfer_has_one_entry_witness :
  let w := sample_world (Some "0x1111") in
  Validators.validateTransactionHash (txHash sample_opts) = true /\
  "0x1111" <> EmptyString /\
  exists summary,
    (runForkTrace w sample_opts).1 = Resolved summary /\
    dom (stateDiff summary) = {["0x1111"]}.
Proof.
  intros w. split; [reflexivity|]. split; [discriminate|].
  assert (exists summary, (runForkTrace w sample_opts).1 = Resolved summary)
    as [summary Hs] by (vm_compute; eauto).
  exists summary. split; [exact Hs|].
  destruct (self_transfer_has_one_entry w sample_opts
              "ABCDEFGHIJKLMNOPQRSTUVWXYZ012345"
              {| transaction := {| e_from := Some "0x1111"; e_to := Some "0x1111" |};
                 blockNumber := 100 |}
              "0x1111" eq_refl eq_refl eq_refl eq_refl eq_refl ltac:(discriminate))
    as (_ & Hres).
  exact (Hres summary Hs).
Defined.

End OrchestratorMore.

(** ** The combined query of the Etherscan client *)

Module EtherscanDataFacts.
Import Etherscan EtherscanData.

Lemma proxyCall_attempts {V} (action : string) (answers : list (AxiosOutcome V)) :
  (attempts (_proxyCall action answers).2 <= 3)%nat.
Proof.
  destruct (RetryProtocol.retry_loop_bounded Constants.ETHERSCAN_MAX_RETRIES
              Constants.ETHERSCAN_RETRY_DELAY_MS action answers 0%nat None)
    as (k & H1 & _).
  unfold _proxyCall. unfold Constants.ETHERSCAN_MAX_RETRIES in *. lia.
Qed.

Lemma proxyCall_settled_attempts {V} (action : string) (answers : list (AxiosOutcome V)) :
  (_proxyCall action answers).1 <> Awaiting ->
  (1 <= attempts (_proxyCall action answers).2)%nat.
Proof.
  unfold _proxyCall, Constants.ETHERSCAN_MAX_RETRIES.
  destruct answers as [|a answers]; cbn [retry_loop Nat.ltb Nat.leb fst snd];
    [congruence|].
  intros _. destruct (attempt_once action a) as [e|v]; [|cbn; lia].
  destruct (non_retriable e); [cbn; lia|].
  destruct (retry_loop 3 _ action answers 1 (Some e)). cbn. lia.
Qed.

Lemma promise_all_returned {A B} (b : bool) (p : Outcome A) (q : Outcome B) x y :
  promise_all b p q = Returned (x, y) <-> p = Returned x /\ q = Returned y.
Proof.
  destruct p, q; cbn; naive_solver.
Qed.

Lemma rethrow_typed_etherscan {A} (msg : string) :
  rethrow_typed (A:=A) (Threw (createEtherscanError msg))
  = Threw (createEtherscanError msg).
Proof. reflexivity. Qed.

Section GetTransactionData.
Context {Tx Rc Bl : Type}.
Variable tx_truthy : Tx -> bool.
Variable rc_truthy : Rc -> bool.
Variable bl_truthy : Bl -> bool.
Variable blockNumber_text : Tx -> string.
Variable blockNumber_int : Tx -> option Z.

Local Abbreviation fetch := (getTransactionData tx_truthy rc_truthy bl_truthy
                     blockNumber_text blockNumber_int).

(** X25.  [getTransactionData] never returns partial data.  It returns
    exactly when the three queries returned truthy results, and then hands
    these on with the block number parsed from the transaction.  The block
    is requested only once the transaction and the receipt are there, and
    whatever the service answers the call makes at most nine requests. *)
Theorem transaction_data_is_complete (txHash : string) (receipt_rejects_first : bool)
    (txAnswers : list (AxiosOutcome Tx)) (rcAnswers : list (AxiosOutcome Rc))
    (blAnswers : list (AxiosOutcome Bl)) :
  let run := fetch txHash receipt_rejects_first txAnswers rcAnswers blAnswers in
  (forall d, run.1 = Returned d <->
     exists tx rc bl,
       (getTransaction txAnswers).1 = Returned tx /\ tx_truthy tx = true /\
       (getTransactionReceipt rcAnswers).1 = Returned rc /\ rc_truthy rc = true /\
       (getBlock blAnswers).1 = Returned bl /\ bl_truthy bl = true /\
       d = {| td_transaction := tx; td_receipt := rc; td_block := bl;
              td_blockNumber := blockNumber_int tx |}) /\
  (block_log run.2 <> [] ->
     exists tx rc,
       (getTransaction txAnswers).1 = Returned tx /\ tx_truthy tx = true /\
       (getTransactionReceipt rcAnswers).1 = Returned rc /\ rc_truthy rc = true) /\
  (requests run.2 <= 9)%nat /\
  (forall d, run.1 = Returned d -> (3 <= requests run.2)%nat).
Proof.
  intros run. subst run. unfold getTransactionData, fetch_all. cbv zeta.
  pose proof (proxyCall_attempts "eth_getTransactionByHash" txAnswers) as Ht.
  pose proof (proxyCall_attempts "eth_getTransactionReceipt" rcAnswers) as Hr.
  pose proof (proxyCall_attempts "eth_getBlockByNumber" blAnswers) as Hb.
  pose proof (proxyCall_settled_attempts "eth_getTransactionByHash" txAnswers) as Ht1.
  pose proof (proxyCall_settled_attempts "eth_getTransactionReceipt" rcAnswers) as Hr1.
  pose proof (proxyCall_settled_attempts "eth_getBlockByNumber" blAnswers) as Hb1.
  unfold getTransaction, getTransactionReceipt, getBlock in *.
  destruct (_proxyCall "eth_getTransactionByHash" txAnswers) as [ot lt].
  destruct (_proxyCall "eth_getTransactionReceipt" rcAnswers) as [or lr].
  destruct (_proxyCall "eth_getBlockByNumber" blAnswers) as [ob lb].
  cbn [fst snd] in *.
  destruct (promise_all receipt_rejects_first ot or) as [[tx rc]|e|] eqn:Hall.
  - apply promise_all_returned in Hall as [-> ->].
    specialize (Ht1 ltac:(discriminate)). specialize (Hr1 ltac:(discriminate)).
    destruct (tx_truthy tx) eqn:Htx; cbn [negb].
    2:{ cbn [fst snd]. rewrite rethrow_typed_etherscan. unfold requests.
        cbn [tx_log receipt_log block_log attempts].
        split; [|split; [|split]]; [|congruence|lia|discriminate].
        intros d. split; [discriminate|].
        intros (tx' & rc' & bl & [= <-] & Hx & _). congruence. }
    destruct (rc_truthy rc) eqn:Hrc; cbn [negb].
    2:{ cbn [fst snd]. rewrite rethrow_typed_etherscan. unfold requests.
        cbn [tx_log receipt_log block_log attempts].
        split; [|split; [|split]]; [|congruence|lia|discriminate].
        intros d. split; [discriminate|].
        intros (tx' & rc' & bl & _ & _ & [= <-] & Hx & _). congruence. }
    cbn [fst snd block_log]. unfold requests. cbn [tx_log receipt_log block_log].
    split; [|split; [|split]].
    + intros d. destruct ob as [bl|e|]; cbn [rethrow_typed].
      * destruct (bl_truthy bl) eqn:Hbl; cbn [negb].
        -- cbn [rethrow_typed]. split.
           ++ intros [= <-]. exists tx, rc, bl. repeat split; assumption.
           ++ intros (tx' & rc' & bl' & [= <-] & _ & [= <-] & _ & [= <-] & _ & ->).
              reflexivity.
        -- rewrite rethrow_typed_etherscan. split; [discriminate|].
           intros (tx' & rc' & bl' & _ & _ & _ & _ & [= <-] & Hx & _). congruence.
      * split; [destruct (Js.truthy (type e)); discriminate|].
        intros (? & ? & ? & _ & _ & _ & _ & ? & _). discriminate.
      * split; [discriminate|].
        intros (? & ? & ? & _ & _ & _ & _ & ? & _). discriminate.
    + intros _. exists tx, rc. repeat split; assumption.
    + lia.
    + intros d Hd.
      assert (ob <> Awaiting) as Hob by (intros ->; discriminate).
      specialize (Hb1 Hob). lia.
  - cbn [fst snd block_log]. unfold requests.
    cbn [tx_log receipt_log block_log attempts].
    assert (forall d : TransactionData Tx Rc Bl, rethrow_typed (Threw e) <> Returned d)
      as Hne by (intros d; cbn [rethrow_typed]; destruct (Js.truthy (type e));
                 discriminate).
    split; [|split; [|split]]; [|congruence|lia|intros d Hd; destruct (Hne d Hd)].
    intros d. split; [intros Hd; destruct (Hne d Hd)|].
    intros (tx & rc & bl & -> & _ & -> & _). discriminate.
  - cbn [fst snd block_log rethrow_typed]. unfold requests.
    cbn [tx_log receipt_log block_log attempts].
    split; [|split; [|split]]; [|congruence|lia|discriminate].
    intros d. split; [discriminate|].
    intros (tx & rc & bl & -> & _ & -> & _). discriminate.
Qed.

(** X26.  Every error that leaves [getTransactionData] carries a truthy
    [type].  It is an error one of the three queries threw, passed on
    unchanged, or it has the type ETHERSCAN_ERROR; an error without a type
    never gets out. *)
Theorem transaction_data_errors_are_typed (txHash : string) (receipt_rejects_first : bool)
    (txAnswers : list (AxiosOutcome Tx)) (rcAnswers : list (AxiosOutcome Rc))
    (blAnswers : list (AxiosOutcome Bl)) (e : JsError) :
  (fetch txHash receipt_rejects_first txAnswers rcAnswers blAnswers).1 = Threw e ->
  Js.truthy (type e) = true /\
  (type e = Some ETHERSCAN_ERROR \/
   (getTransaction txAnswers).1 = Threw e \/
   (getTransactionReceipt rcAnswers).1 = Threw e \/
   (getBlock blAnswers).1 = Threw e).
Proof.
  unfold getTransactionData. cbn [fst].
  assert (forall o : Outcome (TransactionData Tx Rc Bl),
            rethrow_typed o = Threw e ->
            Js.truthy (type e) = true /\
            (type e = Some ETHERSCAN_ERROR \/ o = Threw e)) as Hcatch.
  { intros [d|e0|]; cbn [rethrow_typed]; try discriminate.
    destruct (Js.truthy (type e0)) eqn:Hty; intros [= <-].
    - split; [exact Hty|right; reflexivity].
    - split; [reflexivity|left; reflexivity]. }
  intros H. apply Hcatch in H as [Hty [Hether|Hthrown]]; split; auto.
  revert Hthrown. unfold fetch_all. cbv zeta.
  destruct (getTransaction txAnswers) as [ot lt].
  destruct (getTransactionReceipt rcAnswers) as [or lr].
  destruct (getBlock blAnswers) as [ob lb]. cbn [fst snd].
  destruct ot as [tx|et|], or as [rc|er|]; cbn [promise_all fst].
  - destruct (tx_truthy tx); cbn [negb fst]; [|intros [= <-]; left; reflexivity].
    destruct (rc_truthy rc); cbn [negb fst]; [|intros [= <-]; left; reflexivity].
    destruct ob as [bl|eb|]; [| |discriminate].
    + destruct (bl_truthy bl); cbn [negb]; [discriminate|].
      intros [= <-]. left; reflexivity.
    + intros [= <-]. auto.
  - intros [= <-]. auto.
  - discriminate.
  - intros [= <-]. auto.
  - destruct receipt_rejects_first; intros [= <-]; auto.
  - intros [= <-]. auto.
  - discriminate.
  - intros [= <-]. auto.
  - discriminate.
Qed.

End GetTransactionData.

Lemma transaction_data_errors_are_typed_witness :
  (sample_fetch Orchestrator.sample_hash true
     [AxiosRejects (PlainError "timeout of 15000ms exceeded");
      AxiosRejects (PlainError "timeout of 15000ms exceeded");
      AxiosRejects (PlainError "socket hang up")]
     [valid_answer "receipt"] []).1
    = Threw (createEtherscanError "Failed to fetch transaction data: socket hang up") /\
  Js.truthy (type (createEtherscanError
                     "Failed to fetch transaction data: socket hang up")) = true.
Proof.
  assert ((sample_fetch Orchestrator.sample_hash true
             [AxiosRejects (PlainError "timeout of 15000ms exceeded");
              AxiosRejects (PlainError "timeout of 15000ms exceeded");
              AxiosRejects (PlainError "socket hang up")]
             [valid_answer "receipt"] []).1
          = Threw (createEtherscanError
                     "Failed to fetch transaction data: socket hang up")) as H
    by reflexivity.
  split; [exact H|].
  exact (proj1 (transaction_data_errors_are_typed Js.truthy_string Js.truthy_string
                  Js.truthy_string (λ _, "0x64") sample_blockNumber _ _ _ _ _ _ H)).
Defined.

End EtherscanDataFacts.


(** ** Retention of state snapshots, and checkpoint names *)

Module StateManagerFacts.
Import StateManager.

Lemma insert_newer_perm (s : StateInfo) (l : list StateInfo) :
  insert_newer s l ≡ₚ s :: l.
Proof.
  induction l as [|x l IH]; cbn [insert_newer]; [reflexivity|].
  destruct (created x <=? created s); [reflexivity|].
  rewrite IH. apply Permutation_swap.
Qed.

Lemma sort_newest_first_perm (l : list StateInfo) : sort_newest_first l ≡ₚ l.
Proof.
  induction l as [|x l IH]; cbn; [reflexivity|].
  rewrite insert_newer_perm, IH. reflexivity.
Qed.

Lemma insert_newer_sorted (s : StateInfo) (l : list StateInfo) :
  newest_first l -> newest_first (insert_newer s l).
Proof.
  unfold newest_first. induction 1 as [|x l Hl IH Hx]; cbn [insert_newer].
  - repeat constructor.
  - destruct (Z.leb_spec (created x) (created s)) as [Hle|Hgt].
    + constructor; [constructor; assumption|].
      constructor; [exact Hle|].
      eapply Forall_impl; [exact Hx|]. cbn. intros y Hy. lia.
    + constructor; [exact IH|].
      rewrite insert_newer_perm. constructor; [lia|exact Hx].
Qed.

Lemma sort_newest_first_sorted (l : list StateInfo) :
  newest_first (sort_newest_first l).
Proof.
  induction l as [|x l IH]; cbn; [constructor|].
  apply insert_newer_sorted, IH.
Qed.

Lemma NoDup_fmap_eq {A B} (f : A -> B) (l : list A) (x y : A) :
  NoDup (f <$> l) -> x ∈ l -> y ∈ l -> f x = f y -> x = y.
Proof.
  induction l as [|a l IH]; cbn; [intros _ []%elem_of_nil|].
  intros [Hnotin Hnd]%NoDup_cons [->|Hx]%elem_of_cons [->|Hy]%elem_of_cons Heq; auto.
  - destruct Hnotin. rewrite Heq. apply list_elem_of_fmap. eauto.
  - destruct Hnotin. rewrite <- Heq. apply list_elem_of_fmap. eauto.
Qed.

Lemma take_drop_disjoint {A B} (f : A -> B) (l : list A) (n : nat) (x y : A) :
  NoDup (f <$> l) -> x ∈ take n l -> y ∈ drop n l -> f x <> f y.
Proof.
  rewrite <- (take_drop n l) at 1. rewrite fmap_app.
  intros (_ & Hdis & _)%NoDup_app Hx Hy Heq.
  apply (Hdis (f x)); [apply list_elem_of_fmap; eauto|].
  rewrite Heq. apply list_elem_of_fmap; eauto.
Qed.

Lemma startsWith_app (pat rest : JsString) : startsWith (pat ++ rest) pat = true.
Proof.
  induction pat as [|p pat IH]; [reflexivity|].
  cbn. rewrite N.eqb_refl. exact IH.
Qed.

Lemma includes_startsWith (s pat : JsString) :
  startsWith s pat = true -> includes s pat = true.
Proof. intros H. destruct s; cbn [includes]; rewrite H; reflexivity. Qed.

Lemma startsWith_Forall (P : N -> Prop) (s pat : JsString) :
  startsWith s pat = true -> Forall P s -> Forall P pat.
Proof.
  revert s. induction pat as [|p pat IH]; intros s; [constructor|].
  destruct s as [|c s]; cbn; [discriminate|].
  intros [Hpc Hrest]%andb_true_iff [Hc Hs]%Forall_cons.
  apply N.eqb_eq in Hpc as ->. constructor; eauto.
Qed.

Lemma includes_Forall (P : N -> Prop) (s pat : JsString) :
  includes s pat = true -> Forall P s -> Forall P pat.
Proof.
  induction s as [|c s IH].
  - cbn. rewrite orb_false_r. apply startsWith_Forall.
  - cbn [includes]. intros [H|H]%orb_true_iff Hs.
    + exact (startsWith_Forall P _ _ H Hs).
    + apply IH; [exact H|]. apply Forall_cons in Hs. tauto.
Qed.

Lemma remove_first_suffix (p : JsString) :
  Forall (λ u, u <> 46%N) p ->
  remove_first (lit ".json") (p ++ lit ".json") = p.
Proof.
  induction 1 as [|u p Hu Hp IH]; [reflexivity|].
  change ((u :: p) ++ lit ".json") with (u :: (p ++ lit ".json")).
  cbn [remove_first].
  assert (startsWith (u :: p ++ lit ".json") (lit ".json") = false) as ->.
  { change (lit ".json") with (46%N :: lit "json"). cbn [startsWith].
    destruct (N.eqb_spec 46 u) as [Heq|]; [congruence|reflexivity]. }
  rewrite IH. reflexivity.
Qed.

Lemma sanitize_fixed (checkpointName : JsString) :
  sanitize checkpointName = checkpointName <->
  Forall (λ u, name_unit u = true) checkpointName.
Proof.
  unfold sanitize. induction checkpointName as [|u l IH]; cbn.
  - split; [constructor|reflexivity].
  - rewrite Forall_cons, <- IH. destruct (name_unit u) eqn:Hu.
    + split; [intros [= ->]; auto|intros [_ ->]; reflexivity].
    + split; [intros [= <- _]; discriminate|intros [? _]; discriminate].
Qed.

Lemma sanitize_units (checkpointName : JsString) :
  Forall (λ u, name_unit u = true) (sanitize checkpointName).
Proof.
  unfold sanitize. apply Forall_fmap, Forall_forall. intros u _. cbn.
  destruct (name_unit u) eqn:Hu; [exact Hu|reflexivity].
Qed.

Lemma timestamp_name_unit (u : N) : timestamp_unit u = true -> name_unit u = true.
Proof.
  unfold timestamp_unit, name_unit.
  repeat rewrite ?orb_true_iff, ?andb_true_iff, ?N.leb_le, ?N.eqb_eq. lia.
Qed.

Lemma name_unit_no_dot (u : N) : name_unit u = true -> u <> 46%N.
Proof. intros H ->. discriminate. Qed.

(** The name [listStates] gives to a snapshot that [createCheckpoint]
    wrote: the file name without its extension, made of name units only. *)
Lemma checkpoint_state_name (checkpointName timestamp : JsString) :
  Forall (λ u, timestamp_unit u = true) timestamp ->
  let stem := checkpoint_state checkpointName ++ lit "-" ++ timestamp in
  remove_first (lit ".json")
    (state_filename (checkpoint_state checkpointName) timestamp) = stem /\
  Forall (λ u, name_unit u = true) stem.
Proof.
  intros Hts stem.
  assert (Forall (λ u, name_unit u = true) stem) as Hstem.
  { unfold stem, checkpoint_state. rewrite !Forall_app.
    split; [split|split].
    - apply (bool_decide_unpack _). vm_compute. exact I.
    - apply sanitize_units.
    - repeat constructor.
    - eapply Forall_impl; [exact Hts|]. apply timestamp_name_unit. }
  split; [|exact Hstem].
  unfold state_filename.
  replace (checkpoint_state checkpointName ++ lit "-" ++ timestamp ++ lit ".json")
    with (stem ++ lit ".json") by (unfold stem; rewrite <- !app_assoc; reflexivity).
  apply remove_first_suffix.
  eapply Forall_impl; [exact Hstem|]. apply name_unit_no_dot.
Qed.

(** X27.  A checkpoint is looked up by the name it was created under only
    if sanitising leaves that name unchanged: the state name of the file
    that [createCheckpoint(created)] writes contains
    [checkpoint_<wanted>] only if [wanted] consists of letters, digits,
    [-] and [_], and it does contain it when [wanted] is such a name and
    equals [created]. *)
Theorem checkpoint_found_only_under_clean_name (created wanted timestamp : JsString) :
  Forall (λ u, timestamp_unit u = true) timestamp ->
  let state_name :=
    remove_first (lit ".json") (state_filename (checkpoint_state created) timestamp) in
  (includes state_name (lit "checkpoint_" ++ wanted) = true ->
   sanitize wanted = wanted) /\
  (sanitize wanted = wanted -> created = wanted ->
   includes state_name (lit "checkpoint_" ++ wanted) = true).
Proof.
  intros Hts state_name.
  destruct (checkpoint_state_name created timestamp Hts) as [Hname Hunits].
  subst state_name. rewrite Hname. split.
  - intros Hinc. apply sanitize_fixed.
    pose proof (includes_Forall _ _ _ Hinc Hunits) as H.
    apply Forall_app in H. tauto.
  - intros Hclean <-. unfold checkpoint_state. rewrite Hclean.
    rewrite <- !app_assoc, (app_assoc (lit "checkpoint_")).
    apply includes_startsWith, startsWith_app.
Qed.

Lemma checkpoint_found_only_under_clean_name_witness :
  Forall (λ u, timestamp_unit u = true) (lit "2024-01-01T00-00-00-000Z") /\
  sanitize (lit "my checkpoint") <> lit "my checkpoint" /\
  includes
    (remove_first (lit ".json")
       (state_filename (checkpoint_state (lit "my checkpoint"))
          (lit "2024-01-01T00-00-00-000Z")))
    (lit "checkpoint_" ++ lit "my checkpoint") <> true.
Proof.
  assert (Forall (λ u, timestamp_unit u = true) (lit "2024-01-01T00-00-00-000Z"))
    as Hts by (apply (bool_decide_unpack _); vm_compute; exact I).
  assert (sanitize (lit "my checkpoint") <> lit "my checkpoint") as Hne
    by (vm_compute; discriminate).
  split; [exact Hts|]. split; [exact Hne|].
  intros Hinc. apply Hne.
  exact (proj1 (checkpoint_found_only_under_clean_name (lit "my checkpoint")
                  (lit "my checkpoint") (lit "2024-01-01T00-00-00-000Z") Hts) Hinc).
Defined.

Lemma endsWith_app (s suffix : JsString) : endsWith (s ++ suffix) suffix = true.
Proof.
  unfold endsWith. rewrite length_app.
  rewrite (proj2 (Nat.leb_le _ _)) by lia.
  replace (length s + length suffix - length suffix)%nat with (length s) by lia.
  rewrite drop_app_length. rewrite <- (app_nil_r suffix) at 1.
  apply startsWith_app.
Qed.

Lemma find_none_iff {A} (P : A -> bool) (l : list A) :
  List.find P l = None <-> forall x, x ∈ l -> P x = false.
Proof.
  induction l as [|a l IH]; cbn.
  - split; [intros _ x []%elem_of_nil|reflexivity].
  - destruct (P a) eqn:Ha.
    + split; [discriminate|]. intros H. rewrite (H a) in Ha by left. discriminate.
    + rewrite IH. split.
      * intros H x [->|Hx]%elem_of_cons; auto.
      * intros H x Hx. apply H. right. exact Hx.
Qed.

(** [find] on a list that is sorted newest first returns a match that is
    at least as new as every other match. *)
Lemma find_newest (P : StateInfo -> bool) (l : list StateInfo) (s : StateInfo) :
  newest_first l ->
  List.find P l = Some s ->
  s ∈ l /\ P s = true /\ forall s', s' ∈ l -> P s' = true -> created s' <= created s.
Proof.
  unfold newest_first. induction 1 as [|a l Hl IH Ha]; cbn; [discriminate|].
  destruct (P a) eqn:HPa.
  - intros [= <-]. split; [left|]. split; [exact HPa|].
    intros s' [->|Hs']%elem_of_cons _; [lia|].
    rewrite Forall_forall in Ha. exact (Ha s' Hs').
  - intros Hfind. destruct (IH Hfind) as (Hin & HP & Hnew).
    split; [right; exact Hin|]. split; [exact HP|].
    intros s' [->|Hs']%elem_of_cons HP'; [congruence|auto].
Qed.

Section States.
Variable stateDir : JsString.

Lemma path_join_inj (a b : JsString) :
  path_join stateDir a = path_join stateDir b -> a = b.
Proof. unfold path_join. intros H. by simplify_list_eq. Qed.

Lemma elem_of_listStates (dir : list File) (s : StateInfo) :
  s ∈ listStates stateDir dir <->
  exists f, f ∈ dir /\ endsWith (f_name f) (lit ".json") = true /\
            s = state_of stateDir f.
Proof.
  unfold listStates. rewrite sort_newest_first_perm, list_elem_of_fmap.
  split; intros (f & H1 & H2).
  - apply list_elem_of_filter in H2 as [Hj Hf]. eauto.
  - destruct H2 as [Hj ->]. exists f. split; [reflexivity|].
    apply list_elem_of_filter. auto.
Qed.

Lemma NoDup_listStates (dir : list File) :
  NoDup (f_name <$> dir) -> NoDup (filepath <$> listStates stateDir dir).
Proof.
  intros Hnd. unfold listStates. rewrite sort_newest_first_perm.
  rewrite <- list_fmap_compose.
  apply NoDup_fmap_2_strong.
  - intros x y [_ Hx]%list_elem_of_filter [_ Hy]%list_elem_of_filter Heq.
    cbn in Heq. apply path_join_inj in Heq.
    exact (NoDup_fmap_eq f_name dir x y Hnd Hx Hy Heq).
  - apply NoDup_filter. exact (NoDup_fmap_1 _ _ Hnd).
Qed.

End States.

Section Retention.
Variable stateDir : JsString.
Variable unlink_error : JsString -> option JsError.
Variable missing_error : JsString -> JsError.

Local Abbreviation path := (λ f, path_join stateDir (f_name f)).

(** What the deletion loop leaves: the directory without the entries of
    the states it got to. *)
Lemma delete_each_spec (sts : list StateInfo) :
  forall dir,
  exists done,
    done `prefix_of` sts /\
    (delete_each stateDir unlink_error missing_error sts dir).2
      = filter (λ f, path f ∉ filepath <$> done) dir /\
    ((delete_each stateDir unlink_error missing_error sts dir).1 = Resolved () ->
     done = sts).
Proof.
  assert (forall dir : list File,
            dir = filter (λ f, path f ∉ filepath <$> @nil StateInfo) dir) as Hnil.
  { intros dir. induction dir as [|f dir IH]; [reflexivity|].
    rewrite filter_cons_True; [congruence|]. cbn. apply not_elem_of_nil. }
  induction sts as [|s sts IH]; intros dir; cbn [delete_each].
  - exists []. split; [reflexivity|]. split; [apply Hnil|reflexivity].
  - unfold deleteState, unlink.
    destruct (bool_decide (filepath s ∈ path <$> dir));
      [|exists []; split; [apply prefix_nil|]; split; [apply Hnil|discriminate]].
    destruct (unlink_error (filepath s));
      [exists []; split; [apply prefix_nil|]; split; [apply Hnil|discriminate]|].
    destruct (IH (filter (λ f, path f ≠ filepath s) dir)) as (done & Hpre & Hdir & Hres).
    exists (s :: done). split; [apply prefix_cons, Hpre|]. split.
    + rewrite Hdir, list_filter_filter. apply list_filter_iff.
      intros f. cbn. rewrite not_elem_of_cons. tauto.
    + intros H. rewrite (Hres H). reflexivity.
Qed.

Lemma delete_each_succeeds (sts : list StateInfo) :
  (forall p, unlink_error p = None) ->
  forall dir,
    NoDup (filepath <$> sts) ->
    (forall s, s ∈ sts -> filepath s ∈ path <$> dir) ->
    (delete_each stateDir unlink_error missing_error sts dir).1 = Resolved ().
Proof.
  intros Hok. induction sts as [|s sts IH]; intros dir Hnd Hin; cbn [delete_each];
    [reflexivity|].
  unfold deleteState, unlink.
  rewrite bool_decide_eq_true_2 by (apply Hin; left).
  rewrite Hok. apply NoDup_cons in Hnd as [Hs Hnd]. apply IH; [exact Hnd|].
  intros s' Hs'.
  destruct (proj1 (list_elem_of_fmap _ _ _) (Hin s' ltac:(right; exact Hs')))
    as (f & Hf & Hfin).
  apply list_elem_of_fmap. exists f. split; [exact Hf|].
  apply list_elem_of_filter. split; [|exact Hfin].
  rewrite <- Hf. intros Heq. apply Hs. rewrite <- Heq.
  apply list_elem_of_fmap. eauto.
Qed.

(** X28.  [_cleanupOldStates] removes nothing but snapshots beyond the
    [maxStates] newest.  Files that are no [.json] snapshots and the
    [maxStates] newest snapshots stay, whatever fails; no snapshot that
    stays is older than one that goes; when the clean-up resolves, exactly
    the [maxStates] newest snapshots are left, and it resolves whenever no
    deletion fails. *)
Theorem cleanup_keeps_the_newest (maxStates : Z) (dir : list File) :
  0 < maxStates ->
  NoDup (f_name <$> dir) ->
  let all := listStates stateDir dir in
  let newest := take (Z.to_nat maxStates) all in
  let older := drop (Z.to_nat maxStates) all in
  let run :=
    _cleanupOldStates stateDir unlink_error missing_error maxStates (Some dir) in
  run.2 `sublist_of` dir /\
  (forall f, f ∈ dir -> f ∉ run.2 -> state_of stateDir f ∈ older) /\
  (forall f, f ∈ dir -> endsWith (f_name f) (lit ".json") = false -> f ∈ run.2) /\
  (forall f, f ∈ dir -> state_of stateDir f ∈ newest -> f ∈ run.2) /\
  (forall kept gone, kept ∈ newest -> gone ∈ older -> created gone <= created kept) /\
  (run.1 = Resolved () -> listStates stateDir run.2 ≡ₚ newest) /\
  ((forall p, unlink_error p = None) -> run.1 = Resolved ()).
Proof.
  intros Hmax Hnd all newest older run.
  assert (NoDup (filepath <$> all)) as Hpaths by (apply NoDup_listStates, Hnd).
  assert (all = newest ++ older) as Hall by (symmetry; apply take_drop).
  assert (forall kept gone, kept ∈ newest -> gone ∈ older ->
                            created gone <= created kept) as Hsorted.
  { intros kept gone Hk Hg.
    pose proof (sort_newest_first_sorted
                  (state_of stateDir <$>
                     filter (λ f, endsWith (f_name f) (lit ".json") = true) dir)) as Hs.
    fold (listStates stateDir dir) in Hs. fold all in Hs. rewrite Hall in Hs.
    exact (StronglySorted_app_1_elem_of _ _ _ _ _ Hs Hk Hg). }
  assert (forall f, f ∈ dir -> endsWith (f_name f) (lit ".json") = false ->
                    state_of stateDir f ∉ all) as Hforeign.
  { intros f Hf Hj (f' & Hf' & Hj' & Heq)%elem_of_listStates.
    assert (f = f') as <-.
    { apply (NoDup_fmap_eq f_name dir f f' Hnd Hf Hf'), (path_join_inj stateDir).
      exact (f_equal filepath Heq). }
    congruence. }
  subst run. unfold _cleanupOldStates. cbv zeta.
  change (_ensureStateDir (Some dir)) with dir. fold all.
  destruct (Z.gtb_spec (Z.of_nat (length all)) maxStates) as [Hgt|Hle].
  2:{ cbn [fst snd].
      assert (older = []) as Hold by (apply drop_ge; lia).
      assert (newest = all) as Hnew by (apply take_ge; lia).
      split; [reflexivity|]. split; [intros f Hf Hnot; contradiction|].
      split; [auto|]. split; [auto|]. split; [exact Hsorted|].
      split; [|reflexivity]. intros _. rewrite Hnew. reflexivity. }
  assert (slice_from maxStates all = older) as ->.
  { unfold slice_from. destruct (Z.ltb_spec maxStates 0); [lia|reflexivity]. }
  destruct (delete_each_spec older dir) as (done & Hpre & Hdir & Hres).
  assert (forall s, s ∈ done -> s ∈ older) as Hdone.
  { intros s Hs. destruct Hpre as [k ->]. apply elem_of_app. auto. }
  assert (forall f, f ∈ dir -> path f ∈ filepath <$> done ->
                    state_of stateDir f ∈ older) as Hgone.
  { intros f Hf (s & Hs & Hsin)%list_elem_of_fmap.
    assert (s ∈ all) as Hsall.
    { rewrite Hall. apply elem_of_app. right. auto. }
    apply elem_of_listStates in Hsall as (f' & Hf' & _ & ->).
    assert (f = f') as <-.
    { apply (NoDup_fmap_eq f_name dir f f' Hnd Hf Hf'), (path_join_inj stateDir). exact Hs. }
    auto. }
  rewrite Hdir. split; [apply sublist_filter|]. split; [|split; [|split; [|split; [|split]]]].
  - intros f Hf Hnot.
    destruct (decide (path f ∈ filepath <$> done)) as [Hin|Hnin]; [auto|].
    destruct Hnot. apply list_elem_of_filter. auto.
  - intros f Hf Hj. apply list_elem_of_filter. split; [|exact Hf].
    intros Hin. apply (Hforeign f Hf Hj). rewrite Hall. apply elem_of_app. right. auto.
  - intros f Hf Hnew. apply list_elem_of_filter. split; [|exact Hf].
    intros Hin. apply (take_drop_disjoint filepath all (Z.to_nat maxStates)
                         (state_of stateDir f) (state_of stateDir f) Hpaths Hnew);
      [auto|reflexivity].
  - exact Hsorted.
  - intros Hok. specialize (Hres Hok). subst done.
    apply NoDup_Permutation.
    + eapply NoDup_fmap_1, NoDup_listStates.
      eapply sublist_NoDup; [exact Hnd|apply fmap_sublist, sublist_filter].
    + apply (NoDup_fmap_1 filepath). rewrite Hall, fmap_app in Hpaths.
      apply NoDup_app in Hpaths. tauto.
    + intros s. rewrite elem_of_listStates. split.
      * intros (f & [Hnin Hf]%list_elem_of_filter & Hj & ->).
        assert (state_of stateDir f ∈ all) as Hsall
          by (apply elem_of_listStates; eauto).
        rewrite Hall in Hsall. apply elem_of_app in Hsall as [?|Hold]; [assumption|].
        destruct Hnin. apply list_elem_of_fmap. exists (state_of stateDir f). auto.
      * intros Hs.
        assert (s ∈ all) as Hsall by (rewrite Hall; apply elem_of_app; auto).
        apply elem_of_listStates in Hsall as (f & Hf & Hj & ->).
        exists f. split; [|auto]. apply list_elem_of_filter. split; [|exact Hf].
        intros (s' & Hs' & Hsin)%list_elem_of_fmap.
        apply (take_drop_disjoint filepath all (Z.to_nat maxStates)
                 (state_of stateDir f) s' Hpaths Hs Hsin). exact Hs'.
  - intros Hok. apply delete_each_succeeds; [exact Hok| |].
    + rewrite Hall, fmap_app in Hpaths. apply NoDup_app in Hpaths. tauto.
    + intros s Hs.
      assert (s ∈ all) as Hsall by (rewrite Hall; apply elem_of_app; auto).
      apply elem_of_listStates in Hsall as (f & Hf & _ & ->).
      apply list_elem_of_fmap. exists f. auto.
Qed.

End Retention.

Section Restore.
Variable stateDir : JsString.
Variable text : JsString -> string.

(** X29.  In a directory whose snapshots were all written by
    [createCheckpoint], [restoreCheckpoint(name)] reports "Checkpoint not
    found" for every name that sanitising changes, also for one a
    checkpoint was created under.  For a name that sanitising leaves alone
    and under which a checkpoint was created, it hands [loadState] a
    snapshot whose name contains [checkpoint_<name>] and that is at least
    as new as that checkpoint. *)
Theorem restore_checkpoint_by_name (dir : list File) (checkpointName : JsString) :
  (forall f, f ∈ dir -> endsWith (f_name f) (lit ".json") = true ->
     exists created timestamp,
       f_name f = state_filename (checkpoint_state created) timestamp /\
       Forall (λ u, timestamp_unit u = true) timestamp) ->
  let wanted := lit "checkpoint_" ++ checkpointName in
  (sanitize checkpointName <> checkpointName ->
   find_checkpoint stateDir text checkpointName (Some dir)
     = inl (createReplayError ("Checkpoint not found: " +:+ text checkpointName))) /\
  (sanitize checkpointName = checkpointName ->
   forall f timestamp,
     f ∈ dir ->
     f_name f = state_filename (checkpoint_state checkpointName) timestamp ->
     Forall (λ u, timestamp_unit u = true) timestamp ->
     exists found,
       found ∈ dir /\
       find_checkpoint stateDir text checkpointName (Some dir)
         = inr (path_join stateDir (f_name found)) /\
       includes (name (state_of stateDir found)) wanted = true /\
       birthtime f <= birthtime found).
Proof.
  intros Hdir wanted. unfold find_checkpoint. cbv zeta.
  change (_ensureStateDir (Some dir)) with dir. fold wanted. split.
  - intros Hne.
    assert (List.find (λ state, includes (name state) wanted) (listStates stateDir dir)
            = None) as ->; [|reflexivity].
    apply find_none_iff. intros s (f & Hf & Hj & ->)%elem_of_listStates.
    destruct (Hdir f Hf Hj) as (created & timestamp & Hname & Hts).
    destruct (checkpoint_state_name created timestamp Hts) as [Hstem Hunits].
    cbn [name state_of]. rewrite Hname, Hstem.
    destruct (includes _ wanted) eqn:Hinc; [|reflexivity].
    destruct Hne. apply sanitize_fixed.
    pose proof (includes_Forall _ _ _ Hinc Hunits) as H.
    apply Forall_app in H. tauto.
  - intros Hclean f timestamp Hf Hname Hts.
    destruct (checkpoint_state_name checkpointName timestamp Hts) as [Hstem _].
    assert (endsWith (f_name f) (lit ".json") = true) as Hj.
    { rewrite Hname. unfold state_filename. rewrite !app_assoc. apply endsWith_app. }
    assert (includes (name (state_of stateDir f)) wanted = true) as Hmatch.
    { cbn [name state_of]. rewrite Hname, Hstem. unfold checkpoint_state.
      rewrite Hclean. rewrite <- !app_assoc, (app_assoc (lit "checkpoint_")).
      apply includes_startsWith, startsWith_app. }
    assert (state_of stateDir f ∈ listStates stateDir dir) as Hin
      by (apply elem_of_listStates; eauto).
    destruct (List.find (λ state, includes (name state) wanted)
                (listStates stateDir dir)) as [s|] eqn:Hfind.
    2:{ rewrite find_none_iff in Hfind. rewrite (Hfind _ Hin) in Hmatch. discriminate. }
    destruct (find_newest _ _ _
                (sort_newest_first_sorted
                   (state_of stateDir <$>
                      filter (λ f, endsWith (f_name f) (lit ".json") = true) dir))
                Hfind) as (Hs & HP & Hnew).
    apply elem_of_listStates in Hs as (found & Hfound & _ & ->).
    exists found. split; [exact Hfound|]. split; [reflexivity|]. split; [exact HP|].
    exact (Hnew _ Hin Hmatch).
Qed.

End Restore.

Lemma restore_checkpoint_by_name_witness :
  find_checkpoint (lit "./anvil-states") (λ _, "my checkpoint")
    (lit "my checkpoint") (Some checkpoint_dir)
  = inl (createReplayError "Checkpoint not found: my checkpoint").
Proof.
  refine (proj1 (restore_checkpoint_by_name (lit "./anvil-states")
                   (λ _, "my checkpoint") checkpoint_dir (lit "my checkpoint") _) _).
  - intros f Hf _.
    exists (lit "my checkpoint"), (lit "2024-01-01T00-00-00-000Z").
    apply list_elem_of_singleton in Hf as ->.
    split; [reflexivity|]. apply (bool_decide_unpack _). vm_compute. exact I.
  - vm_compute. discriminate.
Defined.

Lemma cleanup_keeps_the_newest_witness :
  0 < 2 /\ NoDup (f_name <$> sample_dir) /\
  f_name <$> (_cleanupOldStates (lit "./anvil-states") (λ _, None)
                (λ _, PlainError "ENOENT") 2 (Some sample_dir)).2
    = [lit "notes.txt"; lit "b-2024-01-03T00-00-00-000Z.json";
       lit "c-2024-01-02T00-00-00-000Z.json"] /\
  (_cleanupOldStates (lit "./anvil-states") (λ _, None)
     (λ _, PlainError "ENOENT") 2 (Some sample_dir)).1
    = Resolved ().
Proof.
  assert (NoDup (f_name <$> sample_dir)) as Hnd.
  { apply (bool_decide_unpack _). vm_compute. exact I. }
  split; [lia|]. split; [exact Hnd|]. split; [vm_compute; reflexivity|].
  exact (proj2 (proj2 (proj2 (proj2 (proj2 (proj2
           (cleanup_keeps_the_newest (lit "./anvil-states") (λ _, None)
              (λ _, PlainError "ENOENT") 2 sample_dir
              ltac:(lia) Hnd))))))
         (λ _, eq_refl)).
Defined.

End StateManagerFacts.


(** ** Export formats, from the command line to the files *)

Module ExporterFacts.
Import Exporter.

Lemma parse_export_accepts (value accepted : string) :
  parse_export value = Some accepted ->
  accepted = value /\
  Forall (λ f, f ∈ valid_formats) (Orchestrator.split_comma value).
Proof.
  unfold parse_export. cbv zeta.
  destruct (filter (λ f, f ∉ valid_formats) (Orchestrator.split_comma value))
    as [|bad invalid] eqn:Hinv; cbn; [|discriminate].
  intros [= <-]. split; [reflexivity|].
  apply Forall_forall. intros f Hf.
  destruct (decide (f ∈ valid_formats)) as [Hin|Hnin]; [exact Hin|].
  assert (f ∈ filter (λ f, f ∉ valid_formats) (Orchestrator.split_comma value)) as H
    by (apply list_elem_of_filter; auto).
  rewrite Hinv in H. apply elem_of_nil in H. destruct H.
Qed.

Lemma valid_format_wanted (formats : list string) (f : string) :
  f ∈ formats -> f ∈ valid_formats ->
  wants formats "json" = true \/ wants formats "md" = true \/
  wants formats "trace" = true.
Proof.
  unfold wants, valid_formats. intros Hin Hvalid.
  repeat (apply elem_of_cons in Hvalid as [->|Hvalid]);
    [| | | |apply elem_of_nil in Hvalid; destruct Hvalid].
  - left. rewrite (bool_decide_eq_true_2 _ Hin). reflexivity.
  - right; left. rewrite (bool_decide_eq_true_2 _ Hin). reflexivity.
  - right; right. rewrite (bool_decide_eq_true_2 _ Hin). reflexivity.
  - left. rewrite (bool_decide_eq_true_2 _ Hin). apply orb_true_r.
Qed.

Section Reports.
Variable resolve : string -> string -> string.
Variable join : string -> string -> string.

(** X30.  A value that the [--export] option accepts is not empty, so the
    orchestrator does export; and when the file system does not fail,
    [export] on its comma-separated pieces, with a hash and a trace as the
    orchestrator passes them, creates the directory of the transaction
    first and then writes at least one file: the reports asked for by name
    or by [all], in the order json, md, trace, each recorded under its key
    in the result. *)
Theorem accepted_formats_are_exported (value accepted baseDir txHash : string)
    (outputDir : option string) :
  parse_export value = Some accepted ->
  Js.truthy_string txHash = true ->
  let formats := Orchestrator.split_comma accepted in
  let exportPath := resolve (default baseDir outputDir) txHash in
  let run := export resolve join (λ _, None) baseDir txHash true (Some formats)
               outputDir in
  let reports :=
    (if wants formats "json" then [("json", "report.json", JsonReport)] else [])
    ++ (if wants formats "md" then [("md", "report.md", MarkdownReport)] else [])
    ++ (if wants formats "trace" then [("trace", "trace.raw.json", RawTrace)] else []) in
  Js.truthy_string accepted = true /\
  reports <> [] /\
  run.1 = Resolved ((λ r, (r.1.1, join exportPath r.1.2)) <$> reports) /\
  run.2 = Mkdir exportPath
            :: ((λ r, WriteFile (join exportPath r.1.2) r.2) <$> reports).
Proof.
  intros [-> Hvalid]%parse_export_accepts Htx formats exportPath run reports.
  assert (wants formats "json" = true \/ wants formats "md" = true \/
          wants formats "trace" = true) as Hsome.
  { pose proof (OrchestratorMore.split_comma_nonempty value) as Hne.
    subst formats. destruct (Orchestrator.split_comma value) as [|f fs] eqn:E;
      [congruence|].
    apply Forall_cons in Hvalid as [Hf _].
    apply (valid_format_wanted (f :: fs) f); [left|exact Hf]. }
  split.
  { destruct value; [|reflexivity]. cbn in Hvalid.
    apply Forall_cons in Hvalid as [H _]. unfold valid_formats in H.
    rewrite !elem_of_cons, elem_of_nil in H. naive_solver. }
  subst run reports. unfold export. cbv zeta. rewrite Htx. cbn [negb].
  change (default ["json"] (Some formats)) with formats.
  fold exportPath. revert Hsome.
  destruct (wants formats "json"), (wants formats "md"), (wants formats "trace");
    intros Hsome; try (split; [discriminate|split; reflexivity]).
  destruct Hsome as [?|[?|?]]; discriminate.
Qed.

End Reports.

Lemma accepted_formats_are_exported_witness :
  parse_export "md,all" = Some "md,all" /\
  Js.truthy_string Orchestrator.sample_hash = true /\
  (export slash slash (λ _, None) "./exports" Orchestrator.sample_hash true
     (Some ["md"; "all"]) None).2
    = [Mkdir ("./exports/" +:+ Orchestrator.sample_hash);
       WriteFile ("./exports/" +:+ Orchestrator.sample_hash +:+ "/report.json") JsonReport;
       WriteFile ("./exports/" +:+ Orchestrator.sample_hash +:+ "/report.md")
         MarkdownReport;
       WriteFile ("./exports/" +:+ Orchestrator.sample_hash +:+ "/trace.raw.json")
         RawTrace].
Proof.
  split; [reflexivity|]. split; [reflexivity|].
  destruct (accepted_formats_are_exported slash slash "md,all" "md,all" "./exports"
              Orchestrator.sample_hash None eq_refl eq_refl) as (_ & _ & _ & Hlog).
  exact Hlog.
Defined.

End ExporterFacts.

